(** * In-place update and vacuum of column chunks: Fragmenter/UpdelStorage.cpp

    A shallow embedding of [InsertOrderFragmenter::updateColumn],
    [updateColumnMetadata], [updateMetadata], [getVacuumOffsets],
    [vacuum_fixlen_rows], [vacuum_varlen_rows], [compactRows] and
    [UpdelRoll::commitUpdate], followed by the properties proved of them. *)

From stdpp Require Import numbers list gmap strings.
From Stdlib Require Import ZArith Lia Floats DecimalString Ascii.

Local Open Scope Z_scope.

(** ** Machine integers

    The C++ code computes in [int64_t], [uint64_t] ([size_t]) and
    [int32_t] ([StringOffsetT]); integers are [Z] and every conversion
    to one of these types is written out. *)

Definition u64 (x : Z) : Z := x mod 2 ^ 64.
Definition i64 (x : Z) : Z := (x + 2 ^ 63) mod 2 ^ 64 - 2 ^ 63.
Definition i32 (x : Z) : Z := (x + 2 ^ 31) mod 2 ^ 32 - 2 ^ 31.

Definition INT64_MAX : Z := 2 ^ 63 - 1.
Definition INT64_MIN : Z := - 2 ^ 63.
Definition UINT64_MAX : Z := 2 ^ 64 - 1.
Definition UINT64_MIN : Z := 0.

(** ** Raw buffer memory

    [getMemoryPtr()] hands out an [int8_t*]; the memory behind it is a
    list of bytes (each a [Z]) addressed from the buffer's base.  The
    C++ accesses are undefined out of range; the lemmas below are stated
    for in-range accesses only. *)

Module Mem.

(** Number of bytes behind the pointer. *)
Definition len (m : list Z) : Z := Z.of_nat (length m).

Definition load (m : list Z) (a n : Z) : list Z :=
  take (Z.to_nat n) (drop (Z.to_nat a) m).

Definition store (m : list Z) (a : Z) (bs : list Z) : list Z :=
  take (Z.to_nat a) m ++ bs ++ drop (Z.to_nat a + length bs) m.

(** [memmove(base + dst, base + src, n)]: the source block is read
    whole before it is written, so the ranges may overlap. *)
Definition memmove (m : list Z) (dst src n : Z) : list Z :=
  store m dst (load m src n).

(** One byte, as [data_addr[r]] reads it. *)
Definition byte_at (m : list Z) (a : Z) : Z :=
  default 0 (m !! Z.to_nat a).

(** Little-endian two's complement, [w] bytes. *)
Fixpoint encode_le (w : nat) (v : Z) : list Z :=
  match w with
  | O => []
  | S w' => v mod 256 :: encode_le w' (v / 256)
  end.

Fixpoint decode_le (bs : list Z) : Z :=
  match bs with
  | [] => 0
  | b :: bs' => b + 256 * decode_le bs'
  end.

(** [((int32_t* ) base)[i]] as an rvalue and as an lvalue. *)
Definition load_i32 (m : list Z) (i : Z) : Z :=
  i32 (decode_le (load m (4 * i) 4)).

Definition store_i32 (m : list Z) (i : Z) (v : Z) : list Z :=
  store m (4 * i) (encode_le 4 v).

End Mem.

(** ** Fixed-length vacuum: the loop of [vacuum_fixlen_rows] *)

Module Fixlen.

Record state := {
  irow_of_blk_to_keep : Z;       (* int64_t: head of next row block to keep *)
  irow_of_blk_to_fill : Z;       (* int64_t: row offset to fit the kept block *)
  nbytes_fix_data_to_keep : Z;   (* size_t *)
  data : list Z                  (* the memory behind data_addr *)
}.

Definition init (m : list Z) : state :=
  {| irow_of_blk_to_keep := 0; irow_of_blk_to_fill := 0;
     nbytes_fix_data_to_keep := 0; data := m |}.

(** One iteration of the [for] loop, [irow_to_vacuum] already chosen
    between [frag_offsets[irow]] and [nrows_in_fragment]. *)
Definition step (element_size : Z) (st : state) (irow_to_vacuum : Z) : state :=
  let nrows_to_keep := i64 (u64 (irow_to_vacuum - irow_of_blk_to_keep st)) in
  let st' :=
    if 0 <? nrows_to_keep then
      let nbytes_to_keep := u64 (nrows_to_keep * element_size) in
      let m :=
        if irow_of_blk_to_fill st =? irow_of_blk_to_keep st then data st
        else Mem.memmove (data st)
               (irow_of_blk_to_fill st * element_size)
               (irow_of_blk_to_keep st * element_size)
               nbytes_to_keep in
      {| irow_of_blk_to_keep := irow_of_blk_to_keep st;
         irow_of_blk_to_fill := i64 (irow_of_blk_to_fill st + nrows_to_keep);
         nbytes_fix_data_to_keep :=
           u64 (nbytes_fix_data_to_keep st + nbytes_to_keep);
         data := m |}
    else st in
  {| irow_of_blk_to_keep := i64 (u64 (irow_to_vacuum + 1));
     irow_of_blk_to_fill := irow_of_blk_to_fill st';
     nbytes_fix_data_to_keep := nbytes_fix_data_to_keep st';
     data := data st' |}.

(** [for (irow = 0; irow <= nrows_to_vacuum; irow++)]: one iteration
    per deleted offset, then the last one with [nrows_in_fragment]. *)
Fixpoint loop (element_size nrows_in_fragment : Z)
    (frag_offsets : list Z) (st : state) : state :=
  match frag_offsets with
  | [] => step element_size st nrows_in_fragment
  | d :: rest =>
      loop element_size nrows_in_fragment rest (step element_size st d)
  end.

(** The buffer afterwards and the returned [nbytes_fix_data_to_keep]. *)
Definition run (element_size nrows_in_fragment : Z)
    (frag_offsets : list Z) (m : list Z) : list Z * Z :=
  let st := loop element_size nrows_in_fragment frag_offsets (init m) in
  (data st, nbytes_fix_data_to_keep st).

End Fixlen.

(** ** Rows that survive a vacuum (specification side) *)

(** Row [i] of a flat array of [es]-byte elements. *)
Definition row (es : Z) (m : list Z) (i : Z) : list Z :=
  Mem.load m (i * es) es.

(** The rows [k <= i < N] that are not deleted, in their original order. *)
Definition survivors_from (k N : Z) (D : list Z) : list Z :=
  filter (λ i, i ∉ D) (seqZ k (N - k)).

Definition survivors (N : Z) (D : list Z) : list Z := survivors_from 0 N D.

(** The bytes of the given rows of [m], one row after the other. *)
Definition surviving_bytes (es : Z) (m : list Z) (rows : list Z) : list Z :=
  flat_map (row es m) rows.

(** Strictly increasing offsets within [lo, hi). *)
Fixpoint increasing_in (lo hi : Z) (D : list Z) : Prop :=
  match D with
  | [] => True
  | d :: D' => lo <= d < hi /\ increasing_in (d + 1) hi D'
  end.

(** ** Variable-length columns (specification side) *)

(** The bytes of row [i]: from its offset to the next row's. *)
Definition row_payload (im dm : list Z) (i : Z) : list Z :=
  Mem.load dm (Mem.load_i32 im i) (Mem.load_i32 im (i + 1) - Mem.load_i32 im i).

Definition surviving_payload (im dm : list Z) (rows : list Z) : list Z :=
  flat_map (row_payload im dm) rows.

(** The offset array of [n] rows over [size] bytes of data:
    [offset[0] == 0], non-decreasing, [offset[n] == size]. *)
Definition offsets_wf (im : list Z) (n size : Z) : Prop :=
  Mem.load_i32 im 0 = 0 /\
  Mem.load_i32 im n = size /\
  forall i, 0 <= i < n -> Mem.load_i32 im i <= Mem.load_i32 im (i + 1).

(** ** [getVacuumOffsets]: positions of the set delete flags *)

Fixpoint getVacuumOffsets_loop (data_addr : list Z) (r : Z) (n : nat)
    (deleted_offsets : list Z) : list Z :=
  match n with
  | O => deleted_offsets
  | S n' =>
      getVacuumOffsets_loop data_addr (r + 1) n'
        (if Mem.byte_at data_addr r =? 0 then deleted_offsets
         else deleted_offsets ++ [r])
  end.

(** [nrows_in_chunk] is the delete column's [data_buffer->size()]. *)
Definition getVacuumOffsets_buf (data_addr : list Z) (nrows_in_chunk : Z) : list Z :=
  getVacuumOffsets_loop data_addr 0 (Z.to_nat nrows_in_chunk) [].

(** ** Results of fallible code *)

Inductive outcome (A : Type) : Type :=
  | Ok (a : A)
  | Throw (what : string)   (* an exception, [std::runtime_error(what)] *)
  | Fatal.                  (* a failed [CHECK], or undefined behaviour *)
Arguments Ok {A} a.
Arguments Throw {A} what.
Arguments Fatal {A}.

(** A computation over a state [S]; the state reached is kept when the
    computation fails, as the writes a C++ function has made are. *)
Definition M (S A : Type) : Type := S -> outcome A * S.

Definition ret {S A} (a : A) : M S A := fun s => (Ok a, s).

Definition bind {S A B} (m : M S A) (k : A -> M S B) : M S B :=
  fun s =>
    match m s with
    | (Ok a, s') => k a s'
    | (Throw what, s') => (Throw what, s')
    | (Fatal, s') => (Fatal, s')
    end.

Notation "'let*' x ':=' c1 'in' c2" := (bind c1 (fun x => c2))
  (at level 10, x name, c1 at level 100, c2 at level 200).

Definition throw {S A} (what : string) : M S A := fun s => (Throw what, s).
Definition fatal {S A} : M S A := fun s => (Fatal, s).
Definition CHECK {S} (b : bool) : M S unit := if b then ret tt else fatal.
Definition gets {S A} (f : S -> A) : M S A := fun s => (Ok (f s), s).
Definition modify {S} (f : S -> S) : M S unit := fun s => (Ok tt, f s).
Definition CHECK_some {S A} (o : option A) : M S A :=
  match o with Some a => ret a | None => fatal end.

(** Run a computation on a part of the state. *)
Definition zoom {S T A} (proj : S -> T) (inj : T -> S -> S) (m : M T A) : M S A :=
  fun s => let '(r, t) := m (proj s) in (r, inj t s).

Fixpoint for_each {S A} (l : list A) (body : A -> M S unit) : M S unit :=
  match l with
  | [] => ret tt
  | a :: l' => let* _ := body a in for_each l' body
  end.

(** ** Data model *)

Inductive MemoryLevel := DISK_LEVEL | CPU_LEVEL | GPU_LEVEL.

Definition level_code (l : MemoryLevel) : Z :=
  match l with DISK_LEVEL => 0 | CPU_LEVEL => 1 | GPU_LEVEL => 2 end.

Definition MemoryLevel_eqb (a b : MemoryLevel) : bool :=
  level_code a =? level_code b.

(** Modelled from the spec: [SQLTypeInfo] (Shared/sqltypes.h is not among
    the sources).  The spec's data model gives it a family, a width, a
    compression ([NONE]/[DICT]), a dict id, decimal [(dimension, scale)],
    [notnull] and a [date_in_days] flag; the predicates below read the
    family. *)
Inductive TypeFamily :=
  | FInt | FFp | FDecimal | FBool | FTime | FTimeInterval
  | FString | FArray | FGeometry.

Inductive EncodingType := kENCODING_NONE | kENCODING_DICT.

Record SQLTypeInfo := {
  family : TypeFamily;
  get_size : Z;               (* physical width; the whole array for a fixlen array *)
  get_compression : EncodingType;
  get_comp_param : Z;         (* dictionary id *)
  get_dimension : Z;
  get_scale : Z;
  get_notnull : bool;
  is_date_in_days : bool
}.

Definition is_integer (t : SQLTypeInfo) : bool :=
  match family t with FInt => true | _ => false end.
Definition is_boolean (t : SQLTypeInfo) : bool :=
  match family t with FBool => true | _ => false end.
Definition is_time (t : SQLTypeInfo) : bool :=
  match family t with FTime => true | _ => false end.
Definition is_timeinterval (t : SQLTypeInfo) : bool :=
  match family t with FTimeInterval => true | _ => false end.
Definition is_fp (t : SQLTypeInfo) : bool :=
  match family t with FFp => true | _ => false end.
Definition is_decimal (t : SQLTypeInfo) : bool :=
  match family t with FDecimal => true | _ => false end.
Definition is_string (t : SQLTypeInfo) : bool :=
  match family t with FString => true | _ => false end.
Definition is_array (t : SQLTypeInfo) : bool :=
  match family t with FArray => true | _ => false end.
Definition is_geometry (t : SQLTypeInfo) : bool :=
  match family t with FGeometry => true | _ => false end.
Definition is_fixlen_array (t : SQLTypeInfo) : bool :=
  is_array t && (0 <? get_size t).
Definition is_dict (t : SQLTypeInfo) : bool :=
  match get_compression t with kENCODING_DICT => true | _ => false end.
(** Columns stored with an offset array: strings that are not
    dictionary-encoded, arrays without a declared size, geometry. *)
Definition is_varlen_indeed (t : SQLTypeInfo) : bool :=
  match family t with
  | FString => negb (is_dict t)
  | FArray => negb (0 <? get_size t)
  | FGeometry => true
  | _ => false
  end.

(** [is_integral], UpdelStorage.cpp line 50. *)
Definition is_integral (t : SQLTypeInfo) : bool :=
  is_integer t || is_boolean t || is_time t || is_timeinterval t.

Record ColumnDescriptor := {
  cd_tableId : Z;
  columnId : Z;
  columnName : string;
  columnType : SQLTypeInfo;
  isDeletedCol : bool;
  isVirtualCol : bool
}.

(** [InsertOrderFragmenter]: the addresses of its [FragmentInfo]
    objects, in [fragmentInfoVec_] order, and its shard. *)
Record Fragmenter := {
  fragmentInfoVec_ : list Z;
  shard_ : Z
}.

Record TableDescriptor := {
  td_tableId : Z;
  nColumns : Z;
  persistenceLevel : MemoryLevel;
  fragmenter : option Fragmenter
}.

(** A [const TableDescriptor*]: the id of the table it describes, or
    [None] for [nullptr]. *)
Definition td_ptr : Type := option Z.

(** The catalog, read-only here.  A dictionary descriptor exists for the
    ids of [cat_dicts]; the dictionaries' contents are in the machine
    state, as [getOrAdd] changes them. *)
Record Catalog := {
  currentDB_dbId : Z;
  cat_tables : gmap Z TableDescriptor;
  cat_table_names : gmap string Z;
  cat_columns : gmap (Z * Z) ColumnDescriptor;
  cat_column_names : gmap (Z * string) Z;
  cat_logical : gmap Z Z
}.

Definition getMetadataForTable (c : Catalog) (tableId : Z) : option TableDescriptor :=
  cat_tables c !! tableId.
Definition getMetadataForTable_by_name (c : Catalog) (name : string) : option TableDescriptor :=
  cat_table_names c !! name ≫= λ id, cat_tables c !! id.
Definition getMetadataForColumn (c : Catalog) (tableId columnId : Z) : option ColumnDescriptor :=
  cat_columns c !! (tableId, columnId).
Definition getMetadataForColumn_by_name (c : Catalog) (tableId : Z) (name : string)
    : option ColumnDescriptor :=
  cat_column_names c !! (tableId, name) ≫= λ id, cat_columns c !! (tableId, id).
(** A shard's physical table id maps to its logical table; any other
    table id is its own logical id. *)
Definition getLogicalTableId (c : Catalog) (tableId : Z) : Z :=
  default tableId (cat_logical c !! tableId).
Definition td_ptr_of (c : Catalog) (tableId : Z) : td_ptr :=
  td_tableId <$> getMetadataForTable c tableId.

(** Modelled from the spec: the [Encoder] (DataMgr/Encoder.h is not among
    the sources), "the per-chunk statistics accumulator (min, max,
    has-null, numElements) and metadata emitter", whose statistics are
    "widened by" the values it is given. *)
Record ChunkStats := {
  min_int : Z;
  max_int : Z;
  min_fp : float;
  max_fp : float;
  has_nulls : bool
}.

Record Encoder := {
  num_elems : Z;
  enc_stats : ChunkStats
}.

Record ChunkMetadata := {
  numBytes : Z;
  numElements : Z;
  chunkStats : ChunkStats
}.

(** [std::min<double>] and [std::max<double>]. *)
Definition std_min_double (a b : float) : float := if (b <? a)%float then b else a.
Definition std_max_double (a b : float) : float := if (a <? b)%float then b else a.

Definition updateStats_int64 (e : Encoder) (val : Z) (is_null : bool) : Encoder :=
  let s := enc_stats e in
  {| num_elems := num_elems e;
     enc_stats := {| min_int := Z.min (min_int s) val;
                     max_int := Z.max (max_int s) val;
                     min_fp := min_fp s; max_fp := max_fp s;
                     has_nulls := has_nulls s || is_null |} |}.

Definition updateStats_double (e : Encoder) (val : float) (is_null : bool) : Encoder :=
  let s := enc_stats e in
  {| num_elems := num_elems e;
     enc_stats := {| min_int := min_int s; max_int := max_int s;
                     min_fp := std_min_double (min_fp s) val;
                     max_fp := std_max_double (max_fp s) val;
                     has_nulls := has_nulls s || is_null |} |}.

Definition setNumElems (e : Encoder) (n : Z) : Encoder :=
  {| num_elems := n; enc_stats := enc_stats e |}.

(** An [AbstractBuffer]: the memory behind [getMemoryPtr()], [size()],
    the updated flag and the encoder. *)
Record AbstractBuffer := {
  mem : list Z;
  buf_size : Z;
  is_updated : bool;
  encoder : Encoder
}.

Definition setMem (b : AbstractBuffer) (m : list Z) : AbstractBuffer :=
  {| mem := m; buf_size := buf_size b; is_updated := is_updated b; encoder := encoder b |}.
Definition setSize (b : AbstractBuffer) (n : Z) : AbstractBuffer :=
  {| mem := mem b; buf_size := n; is_updated := is_updated b; encoder := encoder b |}.
Definition setUpdated (b : AbstractBuffer) : AbstractBuffer :=
  {| mem := mem b; buf_size := buf_size b; is_updated := true; encoder := encoder b |}.
Definition setEncoder (b : AbstractBuffer) (e : Encoder) : AbstractBuffer :=
  {| mem := mem b; buf_size := buf_size b; is_updated := is_updated b; encoder := e |}.

(** [Encoder::getMetadata]: the encoder belongs to its buffer and
    reports that buffer's size. *)
Definition getMetadata (b : AbstractBuffer) : ChunkMetadata :=
  {| numBytes := buf_size b;
     numElements := num_elems (encoder b);
     chunkStats := enc_stats (encoder b) |}.

(** The buffers of one chunk, as the buffer manager holds them. *)
Record ChunkBuffers := {
  buffer : AbstractBuffer;
  index_buf : option AbstractBuffer
}.

Definition ChunkKey : Type := list Z.

(** A [Chunk] object: its address, and what it was materialized for.
    Its buffers stay in the buffer manager, so that two [Chunk] objects
    of one [ChunkKey] and level share them. *)
Record Chunk := {
  chunk_addr : Z;
  chunk_level : MemoryLevel;
  chunk_key : ChunkKey;
  column_desc : ColumnDescriptor
}.

Record FragmentInfo := {
  fragmentId : Z;
  physicalNumTuples : Z;
  shadowNumTuples : Z;
  chunkMetadataMap : gmap Z ChunkMetadata;
  shadowChunkMetadataMap : gmap Z ChunkMetadata
}.

(** [MetaDataKey]: [(const TableDescriptor*, FragmentInfo* )]. *)
Definition MetaDataKey : Type := td_ptr * Z.

Record UpdelRoll := {
  catalog : option Catalog;
  logicalTableId : Z;
  memoryLevel : MemoryLevel;
  dirtyChunks : gmap Z Chunk;
  dirtyChunkeys : gset ChunkKey;
  chunkMetadata : gmap MetaDataKey (gmap Z ChunkMetadata);
  numTuples : gmap MetaDataKey Z
}.

(** What the collaborators are asked to do, in order. *)
Inductive Event :=
  | EvCheckpoint (tableId : Z)
  | EvDeleteChunksWithPrefix (key : ChunkKey) (level : MemoryLevel)
  | EvWriteLock (td : Z)
  | EvWriteUnlock (td : Z).

(** Modelled from the spec: the string dictionary (StringDictionary is
    not among the sources): [getOrAdd] gives the index of a string,
    adding it when new; [getString] the string of an index. *)
Definition StringDictionary : Type := list string.

Fixpoint dict_find (d : StringDictionary) (s : string) (i : Z) : option Z :=
  match d with
  | [] => None
  | x :: d' => if String.eqb x s then Some i else dict_find d' s (i + 1)
  end.

Definition getOrAdd (d : StringDictionary) (s : string) : Z * StringDictionary :=
  match dict_find d s 0 with
  | Some i => (i, d)
  | None => (Z.of_nat (length d), d ++ [s])
  end.

Definition getString (d : StringDictionary) (i : Z) : string :=
  if i <? 0 then "" else default "" (d !! Z.to_nat i).

(** Everything the functions below read and write. *)
Record Machine := {
  buffers : gmap (Z * ChunkKey) ChunkBuffers;   (* buffer manager, by level and key *)
  fragments : gmap Z FragmentInfo;              (* the FragmentInfo objects, by address *)
  stringDicts : gmap Z StringDictionary;        (* dictionaries, by dict id *)
  next_chunk_addr : Z;                          (* where the next Chunk object goes *)
  trace : list Event;
  updel_roll : UpdelRoll
}.

Definition set_buffers f (s : Machine) : Machine :=
  {| buffers := f (buffers s); fragments := fragments s;
     stringDicts := stringDicts s; next_chunk_addr := next_chunk_addr s;
     trace := trace s; updel_roll := updel_roll s |}.
Definition set_fragments f (s : Machine) : Machine :=
  {| buffers := buffers s; fragments := f (fragments s);
     stringDicts := stringDicts s; next_chunk_addr := next_chunk_addr s;
     trace := trace s; updel_roll := updel_roll s |}.
Definition set_stringDicts f (s : Machine) : Machine :=
  {| buffers := buffers s; fragments := fragments s;
     stringDicts := f (stringDicts s); next_chunk_addr := next_chunk_addr s;
     trace := trace s; updel_roll := updel_roll s |}.
Definition set_next_chunk_addr f (s : Machine) : Machine :=
  {| buffers := buffers s; fragments := fragments s;
     stringDicts := stringDicts s; next_chunk_addr := f (next_chunk_addr s);
     trace := trace s; updel_roll := updel_roll s |}.
Definition emit (e : Event) (s : Machine) : Machine :=
  {| buffers := buffers s; fragments := fragments s;
     stringDicts := stringDicts s; next_chunk_addr := next_chunk_addr s;
     trace := trace s ++ [e]; updel_roll := updel_roll s |}.
Definition set_roll f (s : Machine) : Machine :=
  {| buffers := buffers s; fragments := fragments s;
     stringDicts := stringDicts s; next_chunk_addr := next_chunk_addr s;
     trace := trace s; updel_roll := f (updel_roll s) |}.

Definition set_catalog v (r : UpdelRoll) : UpdelRoll :=
  {| catalog := v; logicalTableId := logicalTableId r;
     memoryLevel := memoryLevel r; dirtyChunks := dirtyChunks r;
     dirtyChunkeys := dirtyChunkeys r; chunkMetadata := chunkMetadata r;
     numTuples := numTuples r |}.
Definition set_logicalTableId v (r : UpdelRoll) : UpdelRoll :=
  {| catalog := catalog r; logicalTableId := v;
     memoryLevel := memoryLevel r; dirtyChunks := dirtyChunks r;
     dirtyChunkeys := dirtyChunkeys r; chunkMetadata := chunkMetadata r;
     numTuples := numTuples r |}.
Definition set_memoryLevel v (r : UpdelRoll) : UpdelRoll :=
  {| catalog := catalog r; logicalTableId := logicalTableId r;
     memoryLevel := v; dirtyChunks := dirtyChunks r;
     dirtyChunkeys := dirtyChunkeys r; chunkMetadata := chunkMetadata r;
     numTuples := numTuples r |}.
Definition set_dirtyChunks f (r : UpdelRoll) : UpdelRoll :=
  {| catalog := catalog r; logicalTableId := logicalTableId r;
     memoryLevel := memoryLevel r; dirtyChunks := f (dirtyChunks r);
     dirtyChunkeys := dirtyChunkeys r; chunkMetadata := chunkMetadata r;
     numTuples := numTuples r |}.
Definition set_dirtyChunkeys f (r : UpdelRoll) : UpdelRoll :=
  {| catalog := catalog r; logicalTableId := logicalTableId r;
     memoryLevel := memoryLevel r; dirtyChunks := dirtyChunks r;
     dirtyChunkeys := f (dirtyChunkeys r); chunkMetadata := chunkMetadata r;
     numTuples := numTuples r |}.
Definition set_chunkMetadata f (r : UpdelRoll) : UpdelRoll :=
  {| catalog := catalog r; logicalTableId := logicalTableId r;
     memoryLevel := memoryLevel r; dirtyChunks := dirtyChunks r;
     dirtyChunkeys := dirtyChunkeys r; chunkMetadata := f (chunkMetadata r);
     numTuples := numTuples r |}.
Definition set_numTuples f (r : UpdelRoll) : UpdelRoll :=
  {| catalog := catalog r; logicalTableId := logicalTableId r;
     memoryLevel := memoryLevel r; dirtyChunks := dirtyChunks r;
     dirtyChunkeys := dirtyChunkeys r; chunkMetadata := chunkMetadata r;
     numTuples := f (numTuples r) |}.

(** ** Helpers of other translation units

    The typed accessors of Shared/TypedDataAccessors.h, the
    [DecimalOverflowValidator], the C library and the numeric conversions
    of the language are not among the sources.  The functions of
    UpdelStorage.cpp are embedded over any implementation of them. *)
Class TypedDataAccessors := {
  (** [get_element_size(type)] *)
  get_element_size : SQLTypeInfo -> Z;
  (** [put_scalar<int64_t>(ptr, lhs_type, v, col_name, rhs_type)]: the
      memory after the write at byte [ptr]; [rhs_type] is optional. *)
  put_scalar_int64 : list Z -> Z -> SQLTypeInfo -> Z -> option SQLTypeInfo -> list Z;
  put_scalar_int32 : list Z -> Z -> SQLTypeInfo -> Z -> list Z;
  put_scalar_double : list Z -> Z -> SQLTypeInfo -> float -> list Z;
  put_scalar_float : list Z -> Z -> SQLTypeInfo -> float -> list Z;
  put_null : list Z -> Z -> SQLTypeInfo -> list Z;
  (** [get_scalar<T>(ptr, type, v)]: whether the element is null, and [v]. *)
  get_scalar_int64 : list Z -> Z -> SQLTypeInfo -> bool * Z;
  get_scalar_double : list Z -> Z -> SQLTypeInfo -> bool * float;
  (** [DecimalOverflowValidator(lhs_type).validate(v)]: what it throws. *)
  decimal_validate : SQLTypeInfo -> Z -> option string;
  decimal_to_double : SQLTypeInfo -> Z -> float;
  (** [StringToDatum(s, type).timeval] *)
  StringToDatum_timeval : string -> SQLTypeInfo -> Z;
  atof : string -> float;
  round : float -> float;
  pow10 : Z -> float;
  (** The conversions [int64_t] to [double] and [double] to [int64_t]. *)
  double_of_int64 : Z -> float;
  int64_of_double : float -> Z;
  (** [FixedLengthArrayNoneEncoder::updateMetadata(ptr)] *)
  fixlen_array_updateMetadata : Encoder -> list Z -> Z -> Encoder
}.

Definition SECSPERDAY : float := 86400%float.

(** [std::numeric_limits<double>::min()] and [::max()]: the smallest
    positive normal double and the largest finite one. *)
Definition DBL_MIN : float := 0x1p-1022%float.
Definition DBL_MAX : float := 0x1.fffffffffffffp+1023%float.

(** [std::to_string(int64_t)] *)
Definition to_string (v : Z) : string := NilZero.string_of_int (Z.to_int v).

(** ** Per-worker accumulators

    The five [..._per_thread] vectors, read by slot: element [c] of
    each is worker [c]'s. *)
Record ThreadStats := {
  has_null : bool;
  max_double : float;
  min_double : float;
  max_int64t : Z;
  min_int64t : Z
}.

(** What a worker folded into its accumulators, oldest first.  No code
    reads it: it is kept to state what the accumulators cover. *)
Inductive Folded :=
  | FoldInt64 (v : Z)
  | FoldDouble (v : float)
  | FoldNull.

(** Modelled from the spec: [set_minmax] (Shared/TypedDataAccessors.h is
    not among the sources) folds a scalar into a running min and max. *)
Definition set_minmax_int64 (st : ThreadStats) (val : Z) : ThreadStats :=
  {| has_null := has_null st;
     max_double := max_double st; min_double := min_double st;
     max_int64t := if max_int64t st <? val then val else max_int64t st;
     min_int64t := if val <? min_int64t st then val else min_int64t st |}.

Definition set_minmax_double (st : ThreadStats) (val : float) : ThreadStats :=
  {| has_null := has_null st;
     max_double := if (max_double st <? val)%float then val else max_double st;
     min_double := if (val <? min_double st)%float then val else min_double st;
     max_int64t := max_int64t st; min_int64t := min_int64t st |}.

Definition set_has_null (st : ThreadStats) (b : bool) : ThreadStats :=
  {| has_null := b;
     max_double := max_double st; min_double := min_double st;
     max_int64t := max_int64t st; min_int64t := min_int64t st |}.

(** The variant of the right-hand side. *)
Inductive ScalarTargetValue :=
  | SInt64 (v : Z)
  | SDouble (v : float)
  | SFloat (v : float)
  | SNullableString (s : option string).

(** ** The workers of [updateColumn] *)

(** What a worker reads and writes: the chunk's memory and the
    dictionaries, shared with the other workers, and its own
    accumulators. *)
Record Worker := {
  w_mem : list Z;
  w_dicts : gmap Z StringDictionary;
  w_stats : ThreadStats;
  w_folded : list Folded
}.

Definition w_set_mem (m : list Z) (w : Worker) : Worker :=
  {| w_mem := m; w_dicts := w_dicts w; w_stats := w_stats w; w_folded := w_folded w |}.
Definition w_set_dicts (d : gmap Z StringDictionary) (w : Worker) : Worker :=
  {| w_mem := w_mem w; w_dicts := d; w_stats := w_stats w; w_folded := w_folded w |}.

Definition fold_int64 (val : Z) : M Worker unit :=
  modify (fun w =>
    {| w_mem := w_mem w; w_dicts := w_dicts w;
       w_stats := set_minmax_int64 (w_stats w) val;
       w_folded := w_folded w ++ [FoldInt64 val] |}).

Definition fold_double (val : float) : M Worker unit :=
  modify (fun w =>
    {| w_mem := w_mem w; w_dicts := w_dicts w;
       w_stats := set_minmax_double (w_stats w) val;
       w_folded := w_folded w ++ [FoldDouble val] |}).

Definition fold_null : M Worker unit :=
  modify (fun w =>
    {| w_mem := w_mem w; w_dicts := w_dicts w;
       w_stats := set_has_null (w_stats w) true;
       w_folded := w_folded w ++ [FoldNull] |}).

Definition overflow_message (v : Z) (rhs_type lhs_type : SQLTypeInfo) : string :=
  "Data conversion overflow on " +:+ to_string v +:+
  " from DECIMAL(" +:+ to_string (get_dimension rhs_type) +:+ ", " +:+
  to_string (get_scale rhs_type) +:+ ") to (" +:+
  to_string (get_dimension lhs_type) +:+ ", " +:+
  to_string (get_scale lhs_type) +:+ ")".

Section workers.
Context `{TypedDataAccessors}.
Variables (cat : Catalog) (cd : ColumnDescriptor) (rhs_type : SQLTypeInfo).
Variables (frag_offsets : list Z) (rhs_values : list ScalarTargetValue).

Let lhs_type := columnType cd.
Let n_rhs_values := Z.of_nat (length rhs_values).

(** Lines 209-223: a string index of the right-hand side's dictionary
    becomes the string itself. *)
Definition translate_rhs (sv : ScalarTargetValue) : M Worker ScalarTargetValue :=
  if is_string rhs_type then
    match sv with
    | SInt64 vp =>
        let* dicts := gets w_dicts in
        match dicts !! get_comp_param rhs_type with
        | None =>
            throw "UPDATE does not support cast from string literal to string column."
        | Some stringDict => ret (SNullableString (Some (getString stringDict vp)))
        end
    | _ => ret sv
    end
  else ret sv.

(** Lines 225-269: an [int64_t] right-hand side. *)
Definition write_int64 (data_ptr v : Z) : M Worker unit :=
  let* _ := (if is_string lhs_type
             then throw "UPDATE does not support cast to string."
             else ret tt) in
  let* _ := (match decimal_validate lhs_type v with
             | Some what => throw what
             | None => ret tt
             end) in
  let* _ := modify (fun w =>
              w_set_mem (put_scalar_int64 (w_mem w) data_ptr lhs_type v (Some rhs_type)) w) in
  if is_decimal lhs_type then
    let* m := gets w_mem in
    let decimal := snd (get_scalar_int64 m data_ptr lhs_type) in
    let* _ := fold_int64 decimal in
    if negb (xorb (0 <=? v) (decimal <? 0))
    then throw (overflow_message v rhs_type lhs_type)
    else ret tt
  else if is_integral lhs_type then
    if is_date_in_days lhs_type then
      let* m := gets w_mem in
      let seconds := snd (get_scalar_int64 m data_ptr lhs_type) in
      fold_int64 seconds
    else
      (* the conditional has type double, converted for set_minmax<int64_t> *)
      fold_int64 (int64_of_double
                    (if is_decimal rhs_type then round (decimal_to_double rhs_type v)
                     else double_of_int64 v))
  else
    fold_double (if is_decimal rhs_type then decimal_to_double rhs_type v
                 else double_of_int64 v).

(** Lines 270-285: a [double] right-hand side. *)
Definition write_double (data_ptr : Z) (v : float) : M Worker unit :=
  let* _ := (if is_string lhs_type
             then throw "UPDATE does not support cast to string."
             else ret tt) in
  let* _ := modify (fun w =>
              w_set_mem (put_scalar_double (w_mem w) data_ptr lhs_type v) w) in
  if is_integer lhs_type then fold_int64 (int64_of_double v)
  else fold_double v.

(** Lines 286-301: a [float] right-hand side. *)
Definition write_float (data_ptr : Z) (v : float) : M Worker unit :=
  let* _ := (if is_string lhs_type
             then throw "UPDATE does not support cast to string."
             else ret tt) in
  let* _ := modify (fun w =>
              w_set_mem (put_scalar_float (w_mem w) data_ptr lhs_type v) w) in
  if is_integer lhs_type then fold_int64 (int64_of_double v)
  else fold_double v.

(** Lines 302-337: a [NullableString] right-hand side; [stringDict] is
    the id of the left-hand side's dictionary. *)
Definition write_string (stringDict : Z) (data_ptr : Z) (s : option string)
    : M Worker unit :=
  let sval := default "" s in
  if is_string lhs_type then
    let* dicts := gets w_dicts in
    let* dict := CHECK_some (dicts !! stringDict) in
    let '(sidx, dict') := getOrAdd dict sval in
    let* _ := modify (w_set_dicts (<[stringDict := dict']> dicts)) in
    let* _ := modify (fun w =>
                w_set_mem (put_scalar_int32 (w_mem w) data_ptr lhs_type (i32 sidx)) w) in
    fold_int64 (i32 sidx)
  else if 0 <? Z.of_nat (String.length sval) then
    let dval := atof sval in
    let dval :=
      if is_boolean lhs_type then
        if String.eqb sval "t" || String.eqb sval "true"
           || String.eqb sval "T" || String.eqb sval "True"
        then 1%float else 0%float
      else if is_time lhs_type then
        double_of_int64 (StringToDatum_timeval sval lhs_type)
      else dval in
    if is_fp lhs_type || is_decimal lhs_type then
      let* _ := modify (fun w =>
                  w_set_mem (put_scalar_double (w_mem w) data_ptr lhs_type dval) w) in
      fold_double dval
    else
      let dval := if is_date_in_days lhs_type then (dval * SECSPERDAY)%float else dval in
      let* _ := modify (fun w =>
                  w_set_mem (put_scalar_int64 (w_mem w) data_ptr lhs_type
                               (int64_of_double dval) None) w) in
      fold_int64 (int64_of_double dval)
  else
    let* _ := modify (fun w => w_set_mem (put_null (w_mem w) data_ptr lhs_type) w) in
    fold_null.

(** Lines 195-340: the body of the worker's loop for row [r]. *)
Definition write_row (stringDict : Z) (r : Z) : M Worker unit :=
  let* roffs := CHECK_some (frag_offsets !! Z.to_nat r) in
  let data_ptr := u64 (roffs * get_element_size lhs_type) in
  let* sv := CHECK_some
               (rhs_values !! Z.to_nat (if n_rhs_values =? 1 then 0 else r)) in
  let* sv := translate_rhs sv in
  match sv with
  | SInt64 v => write_int64 data_ptr v
  | SDouble v => write_double data_ptr v
  | SFloat v => write_float data_ptr v
  | SNullableString s => write_string stringDict data_ptr s
  end.

(** Lines 172-341: one worker, for the rows [rbegin, min(rbegin +
    segsz, nrow)) of [frag_offsets].  [shard] is the fragmenter's
    [shard_]. *)
Definition worker (shard : Z) (td : TableDescriptor) (rbegin segsz nrow : Z)
    : M Worker unit :=
  let* cdl := CHECK_some
                (if shard <? 0 then Some cd
                 else getMetadataForColumn cat
                        (getLogicalTableId cat (td_tableId td)) (columnId cd)) in
  let* stringDict :=
    (if is_string lhs_type then
       let* _ := CHECK (is_dict lhs_type) in
       let id := get_comp_param (columnType cdl) in
       let* dicts := gets w_dicts in
       let* _ := CHECK (bool_decide (is_Some (dicts !! id))) in
       ret id
     else ret 0) in
  for_each (seqZ rbegin (Z.min (rbegin + segsz) nrow - rbegin))
           (write_row stringDict).

End workers.

(** ** Variable-length vacuum: the loop of [vacuum_varlen_rows] *)

Module Varlen.

Record state := {
  irow_of_blk_to_keep : Z;       (* int64_t *)
  irow_of_blk_to_fill : Z;       (* int64_t *)
  nbytes_fix_data_to_keep : Z;   (* size_t *)
  nbytes_var_data_to_keep : Z;   (* size_t *)
  data : list Z;                 (* the memory behind data_addr *)
  indices : list Z               (* the memory behind indices_addr *)
}.

Definition init (m idx : list Z) : state :=
  {| irow_of_blk_to_keep := 0; irow_of_blk_to_fill := 0;
     nbytes_fix_data_to_keep := 0; nbytes_var_data_to_keep := 0;
     data := m; indices := idx |}.

Definition index_element_size : Z := 4.   (* sizeof(StringOffsetT) *)

(** Lines 607-611: [for (int64_t i = 0; i < nrows_to_keep; ++i)], run
    for the [n] values of [i] from [i] on. *)
Fixpoint rebase (n : nat) (i keep ibyte_var_data_to_keep index_base : Z)
    (idx : list Z) : list Z :=
  match n with
  | O => idx
  | S n' =>
      let index := Mem.load_i32 idx (keep + i) in
      let idx' :=
        Mem.store_i32 idx (keep + i)
          (i32 (u64 (ibyte_var_data_to_keep + (index - index_base)))) in
      rebase n' (i + 1) keep ibyte_var_data_to_keep index_base idx'
  end.

(** One iteration of the [for] loop over [irow]. *)
Definition step (data_size nrows_in_fragment : Z) (st : state)
    (is_last_one : bool) (frag_offset : Z) : state :=
  let irow_to_vacuum := if is_last_one then nrows_in_fragment else frag_offset in
  let keep := irow_of_blk_to_keep st in
  let fill := irow_of_blk_to_fill st in
  let nrows_to_keep := i64 (u64 (irow_to_vacuum - keep)) in
  let st' :=
    if 0 <? nrows_to_keep then
      let ibyte_var_data_to_keep := nbytes_var_data_to_keep st in
      let nbytes_to_keep :=
        u64 ((if is_last_one then data_size
              else Mem.load_i32 (indices st) irow_to_vacuum)
             - Mem.load_i32 (indices st) keep) in
      let moved := negb (fill =? keep) in
      let data' :=
        if moved then
          Mem.memmove (data st) ibyte_var_data_to_keep
                      (Mem.load_i32 (indices st) keep) nbytes_to_keep
        else data st in
      let idx' :=
        if moved then
          rebase (Z.to_nat nrows_to_keep) 0 keep ibyte_var_data_to_keep
                 (Mem.load_i32 (indices st) keep) (indices st)
        else indices st in
      let nbytes_to_keep' := u64 (nrows_to_keep * index_element_size) in
      let idx'' :=
        if moved then
          Mem.memmove idx' (fill * index_element_size)
                      (keep * index_element_size) nbytes_to_keep'
        else idx' in
      {| irow_of_blk_to_keep := keep;
         irow_of_blk_to_fill := i64 (fill + nrows_to_keep);
         nbytes_fix_data_to_keep :=
           u64 (nbytes_fix_data_to_keep st + nbytes_to_keep');
         nbytes_var_data_to_keep := u64 (ibyte_var_data_to_keep + nbytes_to_keep);
         data := data'; indices := idx'' |}
    else st in
  {| irow_of_blk_to_keep := i64 (u64 (irow_to_vacuum + 1));
     irow_of_blk_to_fill := irow_of_blk_to_fill st';
     nbytes_fix_data_to_keep := nbytes_fix_data_to_keep st';
     nbytes_var_data_to_keep := nbytes_var_data_to_keep st';
     data := data st'; indices := indices st' |}.

Fixpoint loop (data_size nrows_in_fragment : Z)
    (frag_offsets : list Z) (st : state) : state :=
  match frag_offsets with
  | [] => step data_size nrows_in_fragment st true 0
  | d :: rest =>
      loop data_size nrows_in_fragment rest
           (step data_size nrows_in_fragment st false d)
  end.

End Varlen.

(** ** The methods of [InsertOrderFragmenter] *)

(** [std::vector::size()] *)
Definition vsize {A} (v : list A) : Z := Z.of_nat (length v).

Definition init_chunk_metadata : ChunkMetadata :=
  {| numBytes := 0; numElements := 0;
     chunkStats := {| min_int := 0; max_int := 0; min_fp := 0%float;
                      max_fp := 0%float; has_nulls := false |} |}.

Definition key_of (ch : Chunk) : Z * ChunkKey :=
  (level_code (chunk_level ch), chunk_key ch).

(** [chunk->get_buffer()] and [chunk->get_index_buf()], read together. *)
Definition get_buffers (ch : Chunk) : M Machine ChunkBuffers :=
  let* bufs := gets buffers in CHECK_some (bufs !! key_of ch).

Definition put_buffers (ch : Chunk) (b : ChunkBuffers) : M Machine unit :=
  modify (set_buffers (<[key_of ch := b]>)).

Definition with_buffer (f : AbstractBuffer -> AbstractBuffer) (b : ChunkBuffers)
    : ChunkBuffers :=
  {| buffer := f (buffer b); index_buf := index_buf b |}.

Definition with_index_buf (f : AbstractBuffer -> AbstractBuffer) (b : ChunkBuffers)
    : ChunkBuffers :=
  {| buffer := buffer b; index_buf := f <$> index_buf b |}.

(** [Chunk_NS::Chunk::getChunk]: the buffer manager must hold the
    buffers; a new [Chunk] object refers to them.  The size arguments
    only tell the buffer manager how much to fetch. *)
Definition getChunk (cd : ColumnDescriptor) (key : ChunkKey) (level : MemoryLevel)
    : M Machine Chunk :=
  let* bufs := gets buffers in
  match bufs !! (level_code level, key) with
  | None => throw "chunk not found"
  | Some _ =>
      let* addr := gets next_chunk_addr in
      let* _ := modify (set_next_chunk_addr (fun a => a + 1)) in
      ret {| chunk_addr := addr; chunk_level := level; chunk_key := key;
             column_desc := cd |}
  end.

Fixpoint find_fragment (frags : gmap Z FragmentInfo) (vec : list Z)
    (fragment_id : Z) : option Z :=
  match vec with
  | [] => None
  | a :: vec' =>
      match frags !! a with
      | Some f => if fragmentId f =? fragment_id then Some a
                  else find_fragment frags vec' fragment_id
      | None => find_fragment frags vec' fragment_id
      end
  end.

(** [std::max<int64_t>], [std::min<int64_t>]. *)
Definition std_max_int64 (a b : Z) : Z := if a <? b then b else a.
Definition std_min_int64 (a b : Z) : Z := if b <? a then b else a.

(** Lines 134-138 and 360-363: the accumulators of [updateColumn]. *)
Definition updateColumn_init_stats : ThreadStats :=
  {| has_null := false;
     max_double := DBL_MIN; min_double := DBL_MAX;
     max_int64t := INT64_MIN; min_int64t := INT64_MAX |}.

(** Lines 642-646: the accumulators of [compactRows]; the two [int64_t]
    vectors are filled with [std::numeric_limits<uint64_t>] values. *)
Definition compactRows_init_stats : ThreadStats :=
  {| has_null := false;
     max_double := DBL_MIN; min_double := DBL_MAX;
     max_int64t := i64 UINT64_MIN; min_int64t := i64 UINT64_MAX |}.

(** Lines 364-374. *)
Definition reduce_stats (per_thread : list ThreadStats) : ThreadStats :=
  foldl (fun chunk t =>
           {| has_null := has_null chunk || has_null t;
              max_double := std_max_double (max_double chunk) (max_double t);
              min_double := std_min_double (min_double chunk) (min_double t);
              max_int64t := std_max_int64 (max_int64t chunk) (max_int64t t);
              min_int64t := std_min_int64 (min_int64t chunk) (min_int64t t) |})
        updateColumn_init_stats per_thread.

(** [wait_cleanup_threads]: a failed [CHECK] in any worker has ended the
    process; otherwise [t.get()] rethrows the first worker's exception. *)
Fixpoint first_throw (rs : list (outcome unit)) : outcome unit :=
  match rs with
  | [] => Ok tt
  | Ok _ :: rs' => first_throw rs'
  | r :: _ => r
  end.

Definition is_fatal (r : outcome unit) : bool :=
  match r with Fatal => true | _ => false end.

Definition wait_cleanup_threads (rs : list (outcome unit)) : outcome unit :=
  if existsb is_fatal rs then Fatal else first_throw rs.

(** What the workers of one [updateColumn] call leave behind. *)
Record Joined := {
  j_mem : list Z;
  j_dicts : gmap Z StringDictionary;
  j_stats : list ThreadStats;
  j_results : list (outcome unit);
  j_folded : list Folded
}.

Section fragmenter.
Context `{TypedDataAccessors}.
(** [cpu_threads()], the static [FragmentInfo::unconditionalVacuum_],
    and the fragmenter the methods are called on with its [catalog_]. *)
Variable cpu_threads : Z.
Variable unconditionalVacuum_ : bool.
Variable this : Fragmenter.
Variable catalog_ : Catalog.

Definition getFragmentInfoFromId (fragment_id : Z) : M Machine Z :=
  let* frags := gets fragments in
  CHECK_some (find_fragment frags (fragmentInfoVec_ this) fragment_id).

Definition fragment_at (fragment : Z) : M Machine FragmentInfo :=
  let* frags := gets fragments in CHECK_some (frags !! fragment).

(** Lines 161-346: the workers, one after the other in slot order.
    Each runs to its end or to its own failure whatever the others
    do; they write distinct rows and distinct slots. *)
Fixpoint launch (cat : Catalog) (td : TableDescriptor) (cd : ColumnDescriptor)
    (rhs_type : SQLTypeInfo) (frag_offsets : list Z)
    (rhs_values : list ScalarTargetValue) (segsz nrow : Z)
    (fuel : nat) (rbegin c : Z) (j : Joined) : Joined :=
  match fuel with
  | O => j
  | S fuel' =>
      if rbegin <? nrow then
        let w0 := {| w_mem := j_mem j; w_dicts := j_dicts j;
                     w_stats := default updateColumn_init_stats
                                  (j_stats j !! Z.to_nat c);
                     w_folded := [] |} in
        let '(r, w) := worker cat cd rhs_type frag_offsets rhs_values
                         (shard_ this) td rbegin segsz nrow w0 in
        launch cat td cd rhs_type frag_offsets rhs_values segsz nrow fuel'
          (u64 (rbegin + segsz)) (c + 1)
          {| j_mem := w_mem w; j_dicts := w_dicts w;
             j_stats := <[Z.to_nat c := w_stats w]> (j_stats j);
             j_results := j_results j ++ [r];
             j_folded := j_folded j ++ w_folded w |}
      else j
  end.

Definition run_workers (cat : Catalog) (td : TableDescriptor) (cd : ColumnDescriptor)
    (rhs_type : SQLTypeInfo) (frag_offsets : list Z)
    (rhs_values : list ScalarTargetValue) (m : list Z)
    (dicts : gmap Z StringDictionary) : Joined :=
  let ncore := u64 cpu_threads in
  let nrow := vsize frag_offsets in
  let segsz := u64 (nrow + ncore - 1) / ncore in
  launch cat td cd rhs_type frag_offsets rhs_values segsz nrow
    (Z.to_nat nrow) 0 0
    {| j_mem := m; j_dicts := dicts;
       j_stats := replicate (Z.to_nat ncore) updateColumn_init_stats;
       j_results := []; j_folded := [] |}.

(** Lines 387-432. *)
Definition updateColumnMetadata (cd : ColumnDescriptor) (fragment : Z)
    (chunk : Chunk) (has_null_per_chunk : bool)
    (max_double_per_chunk min_double_per_chunk : float)
    (max_int64t_per_chunk min_int64t_per_chunk : Z)
    (rhs_type : SQLTypeInfo) : M Machine unit :=
  let* roll_catalog := gets (fun s => catalog (updel_roll s)) in
  let* roll_catalog := CHECK_some roll_catalog in
  let td := td_ptr_of roll_catalog (cd_tableId cd) in
  let key : MetaDataKey := (td, fragment) in
  let* finfo := fragment_at fragment in
  let* _ := modify (set_roll (fun r =>
              match chunkMetadata r !! key with
              | None => set_chunkMetadata (<[key := chunkMetadataMap finfo]>) r
              | Some _ => r
              end)) in
  let* _ := modify (set_roll (fun r =>
              match numTuples r !! key with
              | None => set_numTuples (<[key := shadowNumTuples finfo]>) r
              | Some _ => r
              end)) in
  let* bufs := get_buffers chunk in
  let lhs_type := columnType cd in
  let enc := encoder (buffer bufs) in
  let enc' :=
    if is_integral lhs_type || (is_decimal lhs_type && is_decimal rhs_type) then
      updateStats_int64
        (updateStats_int64 enc max_int64t_per_chunk has_null_per_chunk)
        min_int64t_per_chunk has_null_per_chunk
    else if is_fp lhs_type then
      updateStats_double
        (updateStats_double enc max_double_per_chunk has_null_per_chunk)
        min_double_per_chunk has_null_per_chunk
    else if is_decimal lhs_type then
      updateStats_int64
        (updateStats_int64 enc
           (int64_of_double (max_double_per_chunk * pow10 (get_scale lhs_type)))
           has_null_per_chunk)
        (int64_of_double (min_double_per_chunk * pow10 (get_scale lhs_type)))
        has_null_per_chunk
    else if negb (is_array lhs_type) && negb (is_geometry lhs_type)
            && negb (is_string lhs_type && negb (is_dict lhs_type)) then
      updateStats_int64
        (updateStats_int64 enc max_int64t_per_chunk has_null_per_chunk)
        min_int64t_per_chunk has_null_per_chunk
    else enc in
  let bufs' := with_buffer (fun b => setEncoder b enc') bufs in
  let* _ := put_buffers chunk bufs' in
  modify (set_roll (set_chunkMetadata (fun cm =>
    <[key := <[columnId cd := getMetadata (buffer bufs')]> (default ∅ (cm !! key))]> cm))).

(** Lines 458-484.  [col_ids] are the column ids still to visit, from
    [col_id] up to the largest the catalog knows for the table; past
    it the C++ loop would count on without end. *)
Fixpoint getChunksForAllColumns_loop (td : TableDescriptor) (finfo : FragmentInfo)
    (memory_level : MemoryLevel) (col_ids : list Z) (ncol : Z)
    (chunks : list Chunk) : M Machine (list Chunk) :=
  if nColumns td <=? ncol then ret chunks else
  match col_ids with
  | [] => fatal
  | col_id :: col_ids' =>
      match getMetadataForColumn catalog_ (td_tableId td) col_id with
      | Some cd =>
          if negb (isVirtualCol cd) then
            let* _ := CHECK_some (chunkMetadataMap finfo !! col_id) in
            let chunk_key := [currentDB_dbId catalog_; td_tableId td; col_id;
                              fragmentId finfo] in
            let* chunk := getChunk cd chunk_key memory_level in
            getChunksForAllColumns_loop td finfo memory_level col_ids'
              (ncol + 1) (chunks ++ [chunk])
          else
            getChunksForAllColumns_loop td finfo memory_level col_ids'
              (ncol + 1) chunks
      | None =>
          getChunksForAllColumns_loop td finfo memory_level col_ids' ncol chunks
      end
  end.

Definition max_column_id (tableId : Z) : Z :=
  map_fold (fun (k : Z * Z) (_ : ColumnDescriptor) (acc : Z) =>
              if fst k =? tableId then Z.max (snd k) acc else acc)
           0 (cat_columns catalog_).

Definition getChunksForAllColumns (td : TableDescriptor) (finfo : FragmentInfo)
    (memory_level : MemoryLevel) : M Machine (list Chunk) :=
  getChunksForAllColumns_loop td finfo memory_level
    (seqZ 1 (max_column_id (td_tableId td))) 0 [].

(** Lines 487-501. *)
Definition getVacuumOffsets (chunk : Chunk) (frag_offsets : list Z)
    : M Machine (list Z) :=
  let* bufs := get_buffers chunk in
  ret (getVacuumOffsets_buf (mem (buffer bufs)) (buf_size (buffer bufs))).

(** Lines 503-517, at [T = int64_t] and at [T = double]. *)
Definition set_chunk_stats_int64 (col_type : SQLTypeInfo) (m : list Z)
    (data_addr : Z) (st : ThreadStats) : ThreadStats :=
  let can_be_null := negb (get_notnull col_type) in
  let '(is_null, v) := get_scalar_int64 m data_addr col_type in
  if is_null then set_has_null st (has_null st || (can_be_null && is_null))
  else set_minmax_int64 st v.

Definition set_chunk_stats_double (col_type : SQLTypeInfo) (m : list Z)
    (data_addr : Z) (st : ThreadStats) : ThreadStats :=
  let can_be_null := negb (get_notnull col_type) in
  let '(is_null, v) := get_scalar_double m data_addr col_type in
  if is_null then set_has_null st (has_null st || (can_be_null && is_null))
  else set_minmax_double st v.

(** Lines 519-538. *)
Definition set_chunk_metadata (cat : Catalog) (fragment : Z) (chunk : Chunk)
    (nrows_to_keep : Z) : M Machine unit :=
  let cd := column_desc chunk in
  let td := td_ptr_of cat (cd_tableId cd) in
  let* bufs := get_buffers chunk in
  let key : MetaDataKey := (td, fragment) in
  let* finfo := fragment_at fragment in
  let* _ := modify (set_roll (fun r =>
              match chunkMetadata r !! key with
              | None => set_chunkMetadata (<[key := chunkMetadataMap finfo]>) r
              | Some _ => r
              end)) in
  let* _ := modify (set_roll (set_chunkMetadata (fun cm =>
              let m := default ∅ (cm !! key) in
              let md := default init_chunk_metadata (m !! columnId cd) in
              <[key := <[columnId cd :=
                   {| numBytes := buf_size (buffer bufs);
                      numElements := nrows_to_keep;
                      chunkStats := chunkStats md |}]> m]> cm))) in
  modify (set_roll (fun r =>
    match dirtyChunks r !! chunk_addr chunk with
    | None => set_dirtyChunks (<[chunk_addr chunk := chunk]>) r
    | Some _ => r
    end)).

(** [element_size] of lines 548-549 and 684-685. *)
Definition vacuum_element_size (col_type : SQLTypeInfo) : Z :=
  if is_fixlen_array col_type then get_size col_type
  else get_element_size col_type.

(** Lines 540-574: the buffers afterwards and the returned byte count. *)
Definition vacuum_fixlen_rows (finfo : FragmentInfo) (cd : ColumnDescriptor)
    (bufs : ChunkBuffers) (frag_offsets : list Z) : ChunkBuffers * Z :=
  let element_size := vacuum_element_size (columnType cd) in
  let nrows_in_fragment := physicalNumTuples finfo in
  let '(m, nbytes_fix_data_to_keep) :=
    Fixlen.run element_size nrows_in_fragment frag_offsets (mem (buffer bufs)) in
  (with_buffer (fun b => setMem b m) bufs, nbytes_fix_data_to_keep).

(** Lines 576-630.  Without an index buffer [index_array] is null; the
    code reads it inside a kept block only, the model gives no result
    whatever the offsets.  The job of lines 708-730, the only caller,
    writes [index_array[nrows_to_keep]] in every case. *)
Definition vacuum_varlen_rows (finfo : FragmentInfo) (bufs : ChunkBuffers)
    (frag_offsets : list Z) : option (ChunkBuffers * Z) :=
  match index_buf bufs with
  | None => None
  | Some ib =>
      let st := Varlen.loop (buf_size (buffer bufs)) (physicalNumTuples finfo)
                  frag_offsets (Varlen.init (mem (buffer bufs)) (mem ib)) in
      Some ({| buffer := setMem (buffer bufs) (Varlen.data st);
               index_buf := Some (setMem ib (Varlen.indices st)) |},
            Varlen.nbytes_var_data_to_keep st)
  end.

(** Lines 683-705: the loop over the rows kept, [n] iterations from
    [daddr] on; [data_addr] is the buffer's base. *)
Fixpoint fixlen_stats_loop (col_type : SQLTypeInfo) (element_size : Z)
    (n : nat) (data_addr daddr : Z) (b : AbstractBuffer) (st : ThreadStats)
    : AbstractBuffer * ThreadStats :=
  match n with
  | O => (b, st)
  | S n' =>
      let '(b', st') :=
        if is_fixlen_array col_type then
          (setEncoder b (fixlen_array_updateMetadata (encoder b) (mem b) daddr), st)
        else if is_fp col_type then
          (b, set_chunk_stats_double col_type (mem b) data_addr st)
        else
          (b, set_chunk_stats_int64 col_type (mem b) data_addr st) in
      fixlen_stats_loop col_type element_size n' data_addr
        (daddr + element_size) b' st'
  end.

(** Lines 674-679: what the [fixlen_vacuum] lambda does to the
    chunk's buffers before it records them in the roll. *)
Definition fixlen_vacuum_buffers (finfo : FragmentInfo) (cd : ColumnDescriptor)
    (frag_offsets : list Z) (nrows_to_keep : Z) (bufs : ChunkBuffers)
    : ChunkBuffers :=
  let '(bufs, nbytes_fix_data_to_keep) :=
    vacuum_fixlen_rows finfo cd bufs frag_offsets in
  with_buffer (fun b =>
    setUpdated (setSize (setEncoder b (setNumElems (encoder b) nrows_to_keep))
                        nbytes_fix_data_to_keep)) bufs.

(** Lines 665-706: the [fixlen_vacuum] lambda for column [ci]. *)
Definition fixlen_vacuum (cat : Catalog) (fragment : Z) (frag_offsets : list Z)
    (nrows_to_keep : Z) (chunk : Chunk) (st : ThreadStats)
    : M Machine ThreadStats :=
  let cd := column_desc chunk in
  let col_type := columnType cd in
  let* finfo := fragment_at fragment in
  let* bufs := get_buffers chunk in
  let '(bufs, nbytes_fix_data_to_keep) :=
    vacuum_fixlen_rows finfo cd bufs frag_offsets in
  let bufs := with_buffer (fun b =>
                setUpdated (setSize (setEncoder b (setNumElems (encoder b) nrows_to_keep))
                                    nbytes_fix_data_to_keep)) bufs in
  let* _ := put_buffers chunk bufs in
  let* _ := set_chunk_metadata cat fragment chunk nrows_to_keep in
  let* bufs := get_buffers chunk in
  let '(b, st') :=
    fixlen_stats_loop col_type (vacuum_element_size col_type)
      (Z.to_nat nrows_to_keep) 0 0 (buffer bufs) st in
  let* _ := put_buffers chunk (with_buffer (fun _ => b) bufs) in
  ret st'.

(** Lines 717-727: what the [varlen_vacuum] lambda does to the chunk's
    buffers before it records them in the roll. *)
Definition varlen_vacuum_buffers (finfo : FragmentInfo) (frag_offsets : list Z)
    (nrows_to_keep : Z) (bufs : ChunkBuffers) : option ChunkBuffers :=
  match vacuum_varlen_rows finfo bufs frag_offsets with
  | None => None
  | Some (bufs, nbytes_var_data_to_keep) =>
      let bufs := with_buffer (fun b =>
        setUpdated (setSize (setEncoder b (setNumElems (encoder b) nrows_to_keep))
                            nbytes_var_data_to_keep)) bufs in
      Some (with_index_buf (fun ib =>
        setUpdated
          (setSize
             (setMem ib (Mem.store_i32 (mem ib) nrows_to_keep
                           (i32 (buf_size (buffer bufs)))))
             (u64 (Varlen.index_element_size
                   * (if nrows_to_keep =? 0 then 0
                      else u64 (1 + nrows_to_keep)))))) bufs)
  end.

(** Lines 708-730: the [varlen_vacuum] lambda. *)
Definition varlen_vacuum (cat : Catalog) (fragment : Z) (frag_offsets : list Z)
    (nrows_to_keep : Z) (chunk : Chunk) : M Machine unit :=
  let* finfo := fragment_at fragment in
  let* bufs := get_buffers chunk in
  let* r := CHECK_some (vacuum_varlen_rows finfo bufs frag_offsets) in
  let '(bufs, nbytes_var_data_to_keep) := r in
  let bufs := with_buffer (fun b =>
                setUpdated (setSize (setEncoder b (setNumElems (encoder b) nrows_to_keep))
                                    nbytes_var_data_to_keep)) bufs in
  let bufs := with_index_buf (fun ib =>
                setUpdated
                  (setSize
                     (setMem ib (Mem.store_i32 (mem ib) nrows_to_keep
                                   (i32 (buf_size (buffer bufs)))))
                     (u64 (Varlen.index_element_size
                           * (if nrows_to_keep =? 0 then 0
                              else u64 (1 + nrows_to_keep)))))) bufs in
  let* _ := put_buffers chunk bufs in
  set_chunk_metadata cat fragment chunk nrows_to_keep.

(** Lines 654-742: the vacuum jobs, column after column; [ci] is the
    slot of the column's accumulators. *)
Fixpoint vacuum_columns (cat : Catalog) (fragment : Z) (frag_offsets : list Z)
    (nrows_to_keep : Z) (chunks : list Chunk) (ci : nat)
    (per_thread : list ThreadStats) : M Machine (list ThreadStats) :=
  match chunks with
  | [] => ret per_thread
  | chunk :: chunks' =>
      let* per_thread' :=
        (if is_varlen_indeed (columnType (column_desc chunk)) then
           let* _ := varlen_vacuum cat fragment frag_offsets nrows_to_keep chunk in
           ret per_thread
         else
           let* st := fixlen_vacuum cat fragment frag_offsets nrows_to_keep chunk
                        (default compactRows_init_stats (per_thread !! ci)) in
           ret (<[ci := st]> per_thread)) in
      vacuum_columns cat fragment frag_offsets nrows_to_keep chunks' (S ci)
        per_thread'
  end.

(** Lines 746-761. *)
Fixpoint compactRows_metadata (fragment : Z) (chunks : list Chunk) (ci : nat)
    (per_thread : list ThreadStats) : M Machine unit :=
  match chunks with
  | [] => ret tt
  | chunk :: chunks' =>
      let cd := column_desc chunk in
      let st := default compactRows_init_stats (per_thread !! ci) in
      let* _ :=
        (if negb (is_fixlen_array (columnType cd)) then
           updateColumnMetadata cd fragment chunk (has_null st)
             (max_double st) (min_double st) (max_int64t st) (min_int64t st)
             (columnType cd)
         else ret tt) in
      compactRows_metadata fragment chunks' (S ci) per_thread
  end.

(** Lines 632-762. *)
Definition compactRows (cat : Catalog) (td : TableDescriptor) (fragment_id : Z)
    (frag_offsets : list Z) (memory_level : MemoryLevel) : M Machine unit :=
  let* fragment := getFragmentInfoFromId fragment_id in
  let* finfo := fragment_at fragment in
  let* chunks := getChunksForAllColumns td finfo memory_level in
  let ncol := length chunks in
  let per_thread := replicate ncol compactRows_init_stats in
  let nrows_to_vacuum := vsize frag_offsets in
  let nrows_in_fragment := physicalNumTuples finfo in
  let nrows_to_keep := u64 (nrows_in_fragment - nrows_to_vacuum) in
  let* per_thread :=
    vacuum_columns cat fragment frag_offsets nrows_to_keep chunks 0 per_thread in
  let key : MetaDataKey := (Some (td_tableId td), fragment) in
  let* _ := modify (set_roll (set_numTuples (<[key := nrows_to_keep]>))) in
  compactRows_metadata fragment chunks 0 per_thread.

(** Lines 100-385. *)
Definition updateColumn (cat : Catalog) (td : TableDescriptor)
    (cd : ColumnDescriptor) (fragment_id : Z) (frag_offsets : list Z)
    (rhs_values : list ScalarTargetValue) (rhs_type : SQLTypeInfo)
    (memory_level : MemoryLevel) : M Machine unit :=
  let* _ := modify (set_roll (set_catalog (Some cat))) in
  let* _ := modify (set_roll (set_logicalTableId
                                (getLogicalTableId cat (td_tableId td)))) in
  let* _ := modify (set_roll (set_memoryLevel memory_level)) in
  let ncore := u64 cpu_threads in
  let nrow := vsize frag_offsets in
  let n_rhs_values := vsize rhs_values in
  if 0 =? nrow then ret tt else
  let* _ := CHECK ((nrow =? n_rhs_values) || (1 =? n_rhs_values)) in
  let* fragment := getFragmentInfoFromId fragment_id in
  let* finfo := fragment_at fragment in
  let* _ := CHECK_some (chunkMetadataMap finfo !! columnId cd) in
  let chunk_key := [currentDB_dbId cat; td_tableId td; columnId cd;
                    fragmentId finfo] in
  let* chunk := getChunk cd chunk_key CPU_LEVEL in
  (* the division of line 145 *)
  let* _ := CHECK (negb (ncore =? 0)) in
  let* bufs := get_buffers chunk in
  let* _ := put_buffers chunk (with_buffer setUpdated bufs) in
  let* _ := modify (set_roll (fun r =>
              match dirtyChunks r !! chunk_addr chunk with
              | None => set_dirtyChunks (<[chunk_addr chunk := chunk]>) r
              | Some _ => r
              end)) in
  let chunkey := [currentDB_dbId cat; cd_tableId cd; columnId cd;
                  fragmentId finfo] in
  let* _ := modify (set_roll (set_dirtyChunkeys (fun s => {[chunkey]} ∪ s))) in
  let* dicts := gets stringDicts in
  let j := run_workers cat td cd rhs_type frag_offsets rhs_values
             (mem (buffer bufs)) dicts in
  let* _ := put_buffers chunk
              (with_buffer (fun b => setMem (setUpdated b) (j_mem j)) bufs) in
  let* _ := modify (set_stringDicts (fun _ => j_dicts j)) in
  let* _ := (fun s => (wait_cleanup_threads (j_results j), s)) in
  let* vacuumed :=
    (if unconditionalVacuum_ && isDeletedCol cd then
       let* deleted_offsets := getVacuumOffsets chunk frag_offsets in
       if 0 <? vsize deleted_offsets then
         let* _ := compactRows cat td fragment_id deleted_offsets memory_level in
         ret true
       else ret false
     else ret false) in
  if vacuumed : bool then ret tt else
  let chunk_stats := reduce_stats (j_stats j) in
  updateColumnMetadata cd fragment chunk (has_null chunk_stats)
    (max_double chunk_stats) (min_double chunk_stats)
    (max_int64t chunk_stats) (min_int64t chunk_stats) (columnType cd).

(** Lines 80-98: one right-hand side for every row. *)
Definition updateColumn_broadcast (cat : Catalog) (td : TableDescriptor)
    (cd : ColumnDescriptor) (fragment_id : Z) (frag_offsets : list Z)
    (rhs_value : ScalarTargetValue) (rhs_type : SQLTypeInfo)
    (memory_level : MemoryLevel) : M Machine unit :=
  updateColumn cat td cd fragment_id frag_offsets [rhs_value] rhs_type memory_level.

(** Lines 434-456, on the fragmenter of table [td]. *)
Definition updateMetadata (td : Z) (key : MetaDataKey) : M Machine unit :=
  let* _ := modify (emit (EvWriteLock td)) in
  let* r := gets updel_roll in
  let* _ :=
    (match chunkMetadata r !! key with
     | Some chunkMetadata_ =>
         let* fragmentInfo := fragment_at (snd key) in
         (* numTuples[key] default-constructs a missing entry *)
         let n := default 0 (numTuples r !! key) in
         let* _ := modify (set_roll (set_numTuples (<[key := n]>))) in
         modify (set_fragments (<[snd key :=
           {| fragmentId := fragmentId fragmentInfo;
              physicalNumTuples := n;
              shadowNumTuples := n;
              chunkMetadataMap := chunkMetadata_;
              shadowChunkMetadataMap := chunkMetadata_ |}]>))
     | None => ret tt
     end) in
  modify (emit (EvWriteUnlock td)).

End fragmenter.

(** ** [UpdelRoll::commitUpdate], lines 766-788 *)

(** [DataMgr::deleteChunksWithPrefix]: the buffers of the level whose
    key starts with the prefix are gone. *)
Definition deleteChunksWithPrefix (prefix : ChunkKey) (level : MemoryLevel)
    : M Machine unit :=
  let* _ := modify (emit (EvDeleteChunksWithPrefix prefix level)) in
  modify (set_buffers (filter (fun kv : (Z * ChunkKey) * ChunkBuffers =>
    ¬ (fst (fst kv) = level_code level ∧ prefix `prefix_of` snd (fst kv))))).

Definition commitUpdate : M Machine unit :=
  let* r := gets updel_roll in
  match catalog r with
  | None => ret tt
  | Some cat =>
      let* td := CHECK_some (getMetadataForTable cat (logicalTableId r)) in
      let* _ := (if MemoryLevel_eqb (persistenceLevel td) DISK_LEVEL
                 then modify (emit (EvCheckpoint (logicalTableId r)))
                 else ret tt) in
      let* _ := for_each (map_to_list (chunkMetadata r)) (fun cm =>
                  let* tid := CHECK_some (fst (fst cm)) in
                  let* tdesc := CHECK_some (getMetadataForTable cat tid) in
                  let* _ := CHECK_some (fragmenter tdesc) in
                  updateMetadata tid (fst cm)) in
      let* _ := modify (set_roll (set_dirtyChunks (fun _ => ∅))) in
      if negb (MemoryLevel_eqb (memoryLevel r) GPU_LEVEL) then
        for_each (elements (dirtyChunkeys r)) (fun chunkey =>
          deleteChunksWithPrefix chunkey GPU_LEVEL)
      else ret tt
  end.

(** Lines 56-78: by table and column name, on the table's fragmenter. *)
Definition updateColumn_by_name `{TypedDataAccessors} (cpu_threads : Z)
    (unconditionalVacuum_ : bool) (cat : Catalog) (tab_name col_name : string)
    (fragment_id : Z) (frag_offsets : list Z)
    (rhs_values : list ScalarTargetValue) (rhs_type : SQLTypeInfo)
    (memory_level : MemoryLevel) : M Machine unit :=
  let* td := CHECK_some (getMetadataForTable_by_name cat tab_name) in
  let* cd := CHECK_some (getMetadataForColumn_by_name cat (td_tableId td) col_name) in
  let* f := CHECK_some (fragmenter td) in
  updateColumn cpu_threads unconditionalVacuum_ f cat cat td cd fragment_id
    frag_offsets rhs_values rhs_type memory_level.

(** ** A reference implementation of the helpers

    Used to run the functions above on concrete inputs: integers are
    stored little-endian in two's complement with the smallest value of
    the width as the null sentinel, decimals as integers scaled by
    [10^scale], dates in days as days (read back in seconds), and
    floating-point elements as their IEEE-754 bits. *)
Module Reference.

Definition width (t : SQLTypeInfo) : Z := get_size t.

Definition signed (w v : Z) : Z :=
  (v + 2 ^ (8 * w - 1)) mod 2 ^ (8 * w) - 2 ^ (8 * w - 1).

Definition null_int (w : Z) : Z := - 2 ^ (8 * w - 1).

Definition put_int (m : list Z) (a : Z) (t : SQLTypeInfo) (v : Z) : list Z :=
  Mem.store m a (Mem.encode_le (Z.to_nat (width t)) v).

Definition get_int (m : list Z) (a : Z) (t : SQLTypeInfo) : Z :=
  signed (width t) (Mem.decode_le (Mem.load m a (width t))).

(** IEEE-754 bits, [mw] fraction bits and [ew] exponent bits. *)
Definition bits_of_SF (mw ew : Z) (x : spec_float) : Z :=
  let sign (s : bool) := if s then 2 ^ (mw + ew) else 0 in
  let emin := 3 - 2 ^ (ew - 1) - (mw + 1) in
  match x with
  | S754_zero s => sign s
  | S754_infinity s => sign s + (2 ^ ew - 1) * 2 ^ mw
  | S754_nan => (2 ^ ew - 1) * 2 ^ mw + 2 ^ (mw - 1)
  | S754_finite s m e =>
      if 2 ^ mw <=? Z.pos m
      then sign s + (e - emin + 1) * 2 ^ mw + (Z.pos m - 2 ^ mw)
      else sign s + Z.pos m
  end.

Definition SF_of_bits (mw ew : Z) (b : Z) : spec_float :=
  let s := 2 ^ (mw + ew) <=? b in
  let ex := (b / 2 ^ mw) mod 2 ^ ew in
  let fr := b mod 2 ^ mw in
  let emin := 3 - 2 ^ (ew - 1) - (mw + 1) in
  if ex =? 2 ^ ew - 1 then (if fr =? 0 then S754_infinity s else S754_nan)
  else if ex =? 0 then
    match fr with Z.pos p => S754_finite s p emin | _ => S754_zero s end
  else
    match fr + 2 ^ mw with
    | Z.pos p => S754_finite s p (ex + emin - 1)
    | _ => S754_zero s
    end.

Definition narrow (x : spec_float) : spec_float :=   (* double to float *)
  match x with
  | S754_finite s m e => binary_normalize 24 128 (cond_Zopp s (Z.pos m)) e s
  | _ => x
  end.

Definition put_fp (m : list Z) (a : Z) (t : SQLTypeInfo) (v : float) : list Z :=
  if width t =? 4
  then Mem.store m a (Mem.encode_le 4 (bits_of_SF 23 8 (narrow (Prim2SF v))))
  else Mem.store m a (Mem.encode_le 8 (bits_of_SF 52 11 (Prim2SF v))).

Definition get_fp (m : list Z) (a : Z) (t : SQLTypeInfo) : float :=
  if width t =? 4
  then SF2Prim (SF_of_bits 23 8 (Mem.decode_le (Mem.load m a 4)))
  else SF2Prim (SF_of_bits 52 11 (Mem.decode_le (Mem.load m a 8))).

Definition r_double_of_int64 (v : Z) : float :=
  SF2Prim (binary_normalize prec emax v 0 false).

(** Truncation; what is not an [int64_t] gives [INT64_MIN]. *)
Definition r_int64_of_double (d : float) : Z :=
  match Prim2SF d with
  | S754_zero _ => 0
  | S754_finite s m e =>
      let v := cond_Zopp s (if 0 <=? e then Z.pos m * 2 ^ e
                            else Z.pos m / 2 ^ (- e)) in
      if (INT64_MIN <=? v) && (v <=? INT64_MAX) then v else INT64_MIN
  | _ => INT64_MIN
  end.

(** Half away from zero. *)
Definition r_round (d : float) : float :=
  match Prim2SF d with
  | S754_finite s m e =>
      if 0 <=? e then d
      else r_double_of_int64
             (cond_Zopp s ((Z.pos m + 2 ^ (- e - 1)) / 2 ^ (- e)))
  | _ => d
  end.

Definition r_pow10 (n : Z) : float := r_double_of_int64 (10 ^ n).

Definition r_decimal_to_double (t : SQLTypeInfo) (v : Z) : float :=
  (r_double_of_int64 v / r_pow10 (get_scale t))%float.

Definition convert_decimal_value_to_scale (v from to : Z) : Z :=
  if from <? to then v * 10 ^ (to - from) else Z.quot v (10 ^ (from - to)).

Definition scale_of (t : SQLTypeInfo) : Z :=
  if is_decimal t then get_scale t else 0.

Definition r_put_scalar_int64 (m : list Z) (a : Z) (t : SQLTypeInfo) (v : Z)
    (rhs_type : option SQLTypeInfo) : list Z :=
  let from := from_option scale_of 0 rhs_type in
  if is_fp t then
    put_fp m a t (r_double_of_int64 v / r_pow10 from)%float
  else if is_decimal t then
    put_int m a t
      (match rhs_type with
       | Some _ => convert_decimal_value_to_scale v from (get_scale t)
       | None => v
       end)
  else if is_date_in_days t then put_int m a t (Z.quot v 86400)
  else put_int m a t (Z.quot v (10 ^ from)).

Definition r_put_scalar_double (m : list Z) (a : Z) (t : SQLTypeInfo) (v : float)
    : list Z :=
  if is_fp t then put_fp m a t v
  else if is_decimal t then
    put_int m a t (r_int64_of_double (v * r_pow10 (get_scale t))%float)
  else put_int m a t (r_int64_of_double v).

Definition r_put_null (m : list Z) (a : Z) (t : SQLTypeInfo) : list Z :=
  if is_fp t then put_fp m a t DBL_MIN (* NULL_DOUBLE; narrowed for FLOAT *)
  else put_int m a t (null_int (width t)).

Definition r_get_scalar_int64 (m : list Z) (a : Z) (t : SQLTypeInfo) : bool * Z :=
  if is_fp t then
    let d := get_fp m a t in ((d =? DBL_MIN)%float, r_int64_of_double d)
  else
    let v := get_int m a t in
    (v =? null_int (width t), if is_date_in_days t then v * 86400 else v).

Definition r_get_scalar_double (m : list Z) (a : Z) (t : SQLTypeInfo) : bool * float :=
  if is_fp t then let d := get_fp m a t in ((d =? DBL_MIN)%float, d)
  else
    let v := get_int m a t in
    (v =? null_int (width t),
     if is_decimal t then r_decimal_to_double t v else r_double_of_int64 v).

Definition r_decimal_validate (t : SQLTypeInfo) (v : Z) : option string :=
  if is_decimal t && (10 ^ get_dimension t <=? Z.abs v)
  then Some ("Decimal overflow: value is greater than 10^"
             +:+ to_string (get_dimension t))
  else None.

(** Decimal numerals: [-]digits[.digits].  What [std::atof] accepts
    besides (blanks in front, an exponent, text after the numeral) is
    not read: such input gives 0. *)
Definition parse_int (s : string) : Z :=
  from_option Z.of_int 0 (NilZero.int_of_string s).

Fixpoint split_dot (s : string) : string * option string :=
  match s with
  | EmptyString => (EmptyString, None)
  | String c s' =>
      if Ascii.eqb c "."%char then (EmptyString, Some s')
      else let '(a, b) := split_dot s' in (String c a, b)
  end.

Definition r_atof (s : string) : float :=
  match split_dot s with
  | (a, None) => r_double_of_int64 (parse_int a)
  | (a, Some b) =>
      (r_double_of_int64 (parse_int (a +:+ b))
       / r_pow10 (Z.of_nat (String.length b)))%float
  end.

(** Time literals are read as seconds since the epoch. *)
Definition r_StringToDatum_timeval (s : string) (t : SQLTypeInfo) : Z :=
  parse_int s.

#[export] Instance accessors : TypedDataAccessors := {|
  get_element_size := width;
  put_scalar_int64 := r_put_scalar_int64;
  put_scalar_int32 := put_int;
  put_scalar_double := r_put_scalar_double;
  put_scalar_float := r_put_scalar_double;
  put_null := r_put_null;
  get_scalar_int64 := r_get_scalar_int64;
  get_scalar_double := r_get_scalar_double;
  decimal_validate := r_decimal_validate;
  decimal_to_double := r_decimal_to_double;
  StringToDatum_timeval := r_StringToDatum_timeval;
  atof := r_atof;
  round := r_round;
  pow10 := r_pow10;
  double_of_int64 := r_double_of_int64;
  int64_of_double := r_int64_of_double;
  (* the reference encoder keeps no statistics for arrays *)
  fixlen_array_updateMetadata := fun e _ _ => e
|}.

End Reference.

(** ** Concrete inputs *)

Module Examples.
Import Reference.

Definition pack (w : nat) (vs : list Z) : list Z := flat_map (Mem.encode_le w) vs.

Definition int_type (w : Z) : SQLTypeInfo :=
  {| family := FInt; get_size := w; get_compression := kENCODING_NONE;
     get_comp_param := 0; get_dimension := 0; get_scale := 0;
     get_notnull := false; is_date_in_days := false |}.

Definition INT : SQLTypeInfo := int_type 4.
Definition BIGINT : SQLTypeInfo := int_type 8.

Definition decimal_type (w dimension scale : Z) : SQLTypeInfo :=
  {| family := FDecimal; get_size := w; get_compression := kENCODING_NONE;
     get_comp_param := 0; get_dimension := dimension; get_scale := scale;
     get_notnull := false; is_date_in_days := false |}.

Definition dict_text (dict_id : Z) : SQLTypeInfo :=
  {| family := FString; get_size := 4; get_compression := kENCODING_DICT;
     get_comp_param := dict_id; get_dimension := 0; get_scale := 0;
     get_notnull := false; is_date_in_days := false |}.

Definition column (id : Z) (name : string) (t : SQLTypeInfo) : ColumnDescriptor :=
  {| cd_tableId := 7; columnId := id; columnName := name; columnType := t;
     isDeletedCol := false; isVirtualCol := false |}.

Definition the_fragmenter : Fragmenter :=
  {| fragmentInfoVec_ := [100]; shard_ := -1 |}.

Definition table (level : MemoryLevel) : TableDescriptor :=
  {| td_tableId := 7; nColumns := 1; persistenceLevel := level;
     fragmenter := Some the_fragmenter |}.

Definition the_catalog (level : MemoryLevel) (cd : ColumnDescriptor) : Catalog :=
  {| currentDB_dbId := 1;
     cat_tables := {[ 7 := table level ]};
     cat_table_names := {[ "t" := 7 ]};
     cat_columns := {[ (7, columnId cd) := cd ]};
     cat_column_names := {[ (7, columnName cd) := columnId cd ]};
     cat_logical := ∅ |}.

Definition stats (lo hi : Z) (nulls : bool) : ChunkStats :=
  {| min_int := lo; max_int := hi; min_fp := 0; max_fp := 0; has_nulls := nulls |}.

Definition a_buffer (m : list Z) (n : Z) (s : ChunkStats) : AbstractBuffer :=
  {| mem := m; buf_size := Mem.len m; is_updated := false;
     encoder := {| num_elems := n; enc_stats := s |} |}.

Definition no_roll : UpdelRoll :=
  {| catalog := None; logicalTableId := 0; memoryLevel := CPU_LEVEL;
     dirtyChunks := ∅; dirtyChunkeys := ∅; chunkMetadata := ∅; numTuples := ∅ |}.

(** One table (id 7) with one fragment (id 0, at address 100) holding
    [n] rows of the column [cd], whose CPU buffer is [b]. *)
Definition machine (cd : ColumnDescriptor) (n : Z) (b : AbstractBuffer) : Machine :=
  {| buffers := {[ (1, [1; 7; columnId cd; 0]) :=
                     {| buffer := b; index_buf := None |} ]};
     fragments := {[ 100 := {| fragmentId := 0; physicalNumTuples := n;
                               shadowNumTuples := n;
                               chunkMetadataMap := {[ columnId cd := getMetadata b ]};
                               shadowChunkMetadataMap := {[ columnId cd := getMetadata b ]} |} ]};
     stringDicts := {[ 1 := ["alpha"; "beta"] ]};
     next_chunk_addr := 1000;
     trace := [];
     updel_roll := no_roll |}.

Definition x_int : ColumnDescriptor := column 1 "x" INT.
Definition five_ints : Machine :=
  machine x_int 5 (a_buffer (pack 4 [10; 20; 30; 40; 50]) 5 (stats 10 50 false)).

Definition x_bigint : ColumnDescriptor := column 1 "x" BIGINT.

Definition A : Z := 1111111111111.
Definition B : Z := -2.
Definition C : Z := 3333333333333.
Definition D : Z := 4.
Definition E : Z := -5555555555555.

Definition ABCDE : ChunkBuffers :=
  {| buffer := a_buffer (pack 8 [A; B; C; D; E]) 5 (stats E C false);
     index_buf := None |}.

Definition five_rows : FragmentInfo :=
  {| fragmentId := 0; physicalNumTuples := 5; shadowNumTuples := 5;
     chunkMetadataMap := {[ 1 := getMetadata (buffer ABCDE) ]};
     shadowChunkMetadataMap := {[ 1 := getMetadata (buffer ABCDE) ]} |}.

(** The update of the first scenario: rows 1 and 3 of the five
    integers are set to 99. *)
Definition updated_ints : Machine :=
  snd (updateColumn 4 false the_fragmenter (the_catalog DISK_LEVEL x_int)
         (the_catalog DISK_LEVEL x_int) (table DISK_LEVEL) x_int 0 [1; 3]
         [SInt64 99] INT CPU_LEVEL five_ints).

(** A DECIMAL(10, 9) column and a DECIMAL(10, 0) right-hand side. *)
Definition x_dec : ColumnDescriptor := column 1 "x" (decimal_type 8 10 9).
Definition rhs_dec : SQLTypeInfo := decimal_type 8 10 0.
Definition two_decimals : Machine :=
  machine x_dec 2 (a_buffer (pack 8 [1000000000; 2000000000]) 2
                     (stats 1000000000 2000000000 false)).

(** A dictionary-encoded text column over dictionary 1. *)
Definition x_text : ColumnDescriptor := column 1 "x" (dict_text 1).

(** A worker at the start of its segment. *)
Definition a_worker (m : list Z) : Worker :=
  {| w_mem := m; w_dicts := {[ 1 := ["alpha"; "beta"] ]};
     w_stats := updateColumn_init_stats; w_folded := [] |}.

(** A text column of four rows, "foo", "bar", "baz" and "qux": the data
    buffer holds the twelve bytes, the index buffer the five offsets. *)
Definition bytes_of (s : string) : list Z :=
  (fun a => Z.of_N (N_of_ascii a)) <$> String.list_ascii_of_string s.

Definition four_words : ChunkBuffers :=
  {| buffer := a_buffer (bytes_of "foobarbazqux") 4 (stats 0 0 false);
     index_buf := Some (a_buffer (pack 4 [0; 3; 6; 9; 12]) 4 (stats 0 0 false)) |}.

Definition four_rows : FragmentInfo :=
  {| fragmentId := 0; physicalNumTuples := 4; shadowNumTuples := 4;
     chunkMetadataMap := {[ 1 := getMetadata (buffer four_words) ]};
     shadowChunkMetadataMap := {[ 1 := getMetadata (buffer four_words) ]} |}.

(** A DOUBLE column of two negative values. *)
Definition double_type : SQLTypeInfo :=
  {| family := FFp; get_size := 8; get_compression := kENCODING_NONE;
     get_comp_param := 0; get_dimension := 0; get_scale := 0;
     get_notnull := false; is_date_in_days := false |}.

Definition x_double : ColumnDescriptor := column 1 "x" double_type.

Definition pack_fp (vs : list float) : list Z :=
  flat_map (fun v => Mem.encode_le 8 (bits_of_SF 52 11 (Prim2SF v))) vs.

Definition fp_stats (lo hi : float) (nulls : bool) : ChunkStats :=
  {| min_int := 0; max_int := 0; min_fp := lo; max_fp := hi; has_nulls := nulls |}.

Definition two_doubles : Machine :=
  machine x_double 2
    (a_buffer (pack_fp [-3; -2]%float) 2 (fp_stats (-3) (-2) false)).

(** A BIGINT column of five values, in a statement whose roll already
    names the catalog. *)
Definition five_bigints : Machine :=
  set_roll (set_catalog (Some (the_catalog DISK_LEVEL x_bigint)))
    (machine x_bigint 5
       (a_buffer (pack 8 [10; 20; 50; 40; 30]) 5 (stats 10 50 false))).

(** The statistics the roll holds for column 1 of the fragment. *)
Definition shadow_stats (s : Machine) : option ChunkStats :=
  chunkStats <$> (chunkMetadata (updel_roll s) !! (Some 7, 100) ≫= (.!! 1)).

(** The four words as column 1, a text column without a dictionary, of
    the fragment at address 100, and a chunk object for it. *)
Definition text_type : SQLTypeInfo :=
  {| family := FString; get_size := 0; get_compression := kENCODING_NONE;
     get_comp_param := 0; get_dimension := 0; get_scale := 0;
     get_notnull := false; is_date_in_days := false |}.

Definition x_words : ColumnDescriptor := column 1 "x" text_type.

Definition four_words_machine : Machine :=
  {| buffers := {[ (1, [1; 7; 1; 0]) := four_words ]};
     fragments := {[ 100 := four_rows ]};
     stringDicts := ∅;
     next_chunk_addr := 1001;
     trace := [];
     updel_roll := no_roll |}.

Definition words_chunk : Chunk :=
  {| chunk_addr := 1000; chunk_level := CPU_LEVEL; chunk_key := [1; 7; 1; 0];
     column_desc := x_words |}.

(** The five BIGINT rows as column 1 of the fragment at address 100,
    and a chunk object for it. *)
Definition ABCDE_machine : Machine := machine x_bigint 5 (buffer ABCDE).

Definition bigint_chunk : Chunk :=
  {| chunk_addr := 1000; chunk_level := CPU_LEVEL; chunk_key := [1; 7; 1; 0];
     column_desc := x_bigint |}.

End Examples.

(** ** Vocabulary of the statements about computations *)

Section computations.
Context {St : Type}.

(** [m] never ends in an exception. *)
Definition never_throws {A} (m : M St A) : Prop :=
  forall s what s', m s <> (Throw what, s').

(** Whatever [m] does, it leaves [f] of the state as it was. *)
Definition preserves {A X} (f : St -> X) (m : M St A) : Prop :=
  forall s r s', m s = (r, s') -> f s' = f s.

(** If [m] ends in an exception, [f] of the state is as it was. *)
Definition throw_keeps {A X} (f : St -> X) (m : M St A) : Prop :=
  forall s what s', m s = (Throw what, s') -> f s' = f s.

(** However [m] ends, it keeps [I]. *)
Definition invariant (I : St -> Prop) {A} (m : M St A) : Prop :=
  forall s r s', m s = (r, s') -> I s -> I s'.

End computations.

(** The roll's shadow metadata and shadow tuple counts. *)
Definition shadow_metadata (s : Machine)
    : gmap MetaDataKey (gmap Z ChunkMetadata) * gmap MetaDataKey Z :=
  (chunkMetadata (updel_roll s), numTuples (updel_roll s)).

(** ** Vocabulary of the statements about [commitUpdate] *)

(** A fragment as [updateMetadata] leaves it: the shadow map in both
    metadata maps, the shadow count in both counts. *)
Definition published (finfo : FragmentInfo) (cm : gmap Z ChunkMetadata) (n : Z)
    : FragmentInfo :=
  {| fragmentId := fragmentId finfo;
     physicalNumTuples := n; shadowNumTuples := n;
     chunkMetadataMap := cm; shadowChunkMetadataMap := cm |}.

(** The write lock of the fragmenter of the key's table, taken and
    released. *)
Definition publish_events (key : MetaDataKey) : list Event :=
  [EvWriteLock (default 0 (fst key)); EvWriteUnlock (default 0 (fst key))].

Definition evict_events (keys : list ChunkKey) : list Event :=
  (λ k, EvDeleteChunksWithPrefix k GPU_LEVEL) <$> keys.

(** Every key of the roll's shadow metadata names a table of the catalog
    that has a fragmenter, and a live fragment. *)
Definition key_ok (cat : Catalog) (s : Machine) (key : MetaDataKey) : Prop :=
  (exists tid tdesc f, fst key = Some tid /\
     getMetadataForTable cat tid = Some tdesc /\ fragmenter tdesc = Some f) /\
  is_Some (fragments s !! snd key).

(** The body of the loop of lines 777-779. *)
Definition commit_body (cat : Catalog) (cm : MetaDataKey * gmap Z ChunkMetadata)
    : M Machine unit :=
  bind (CHECK_some (fst (fst cm))) (fun tid =>
  bind (CHECK_some (getMetadataForTable cat tid)) (fun tdesc =>
  bind (CHECK_some (fragmenter tdesc)) (fun _ =>
  updateMetadata tid (fst cm)))).

(** ** Vocabulary of the statements about statistics *)

(** Did a worker record a null? *)
Definition folded_null (l : list Folded) : bool :=
  existsb (fun f => match f with FoldNull => true | _ => false end) l.

(** The accumulators bracket a folded scalar: an [int64_t] lies between
    the [int64_t] min and max; a [double] is not less than the [double]
    min and the [double] max is not less than it. *)
Definition covers (st : ThreadStats) (f : Folded) : Prop :=
  match f with
  | FoldInt64 v => min_int64t st <= v <= max_int64t st
  | FoldDouble d =>
      (d <? min_double st)%float = false /\ (max_double st <? d)%float = false
  | FoldNull => True
  end.

(** The same for the statistics an encoder emits. *)
Definition brackets (st : ChunkStats) (f : Folded) : Prop :=
  match f with
  | FoldInt64 v => min_int st <= v <= max_int st
  | FoldDouble d => (d <? min_fp st)%float = false /\ (max_fp st <? d)%float = false
  | FoldNull => True
  end.

(** No accumulator of [double]s is a NaN. *)
Definition stats_ok (st : ThreadStats) : Prop :=
  is_nan (min_double st) = false /\ is_nan (max_double st) = false.

(** Which accumulators [updateColumnMetadata] feeds to the encoder when
    it is called with the column's own type as [rhs_type] (lines
    416-431). *)
Definition tracks_int64 (t : SQLTypeInfo) : bool :=
  is_integral t || is_decimal t
  || (negb (is_fp t) && negb (is_array t) && negb (is_geometry t)
      && negb (is_string t && negb (is_dict t))).

Definition tracks_double (t : SQLTypeInfo) : bool :=
  negb (is_integral t || is_decimal t) && is_fp t.

Definition tracked (t : SQLTypeInfo) (f : Folded) : bool :=
  match f with
  | FoldInt64 _ => tracks_int64 t
  | FoldDouble _ => tracks_double t
  | FoldNull => false
  end.

(** One step of the reduction of lines 364-374. *)
Definition reduce_step (chunk t : ThreadStats) : ThreadStats :=
  {| has_null := has_null chunk || has_null t;
     max_double := std_max_double (max_double chunk) (max_double t);
     min_double := std_min_double (min_double chunk) (min_double t);
     max_int64t := std_max_int64 (max_int64t chunk) (max_int64t t);
     min_int64t := std_min_int64 (min_int64t chunk) (min_int64t t) |}.

(** What a worker keeps true of its accumulators and of the scalars it
    has folded. *)
Definition worker_inv (w : Worker) : Prop :=
  stats_ok (w_stats w) /\
  Forall (covers (w_stats w)) (w_folded w) /\
  has_null (w_stats w) = folded_null (w_folded w).

(** What the workers launched so far, [c] of [n], leave true. *)
Definition joined_inv (n : nat) (c : nat) (j : Joined) : Prop :=
  (c <= n)%nat /\ length (j_results j) = c /\
  length (j_stats j) = n /\
  (forall i, (c <= i < n)%nat -> j_stats j !! i = Some updateColumn_init_stats) /\
  Forall stats_ok (j_stats j) /\
  Forall (fun f => exists i t, (i < c)%nat /\ j_stats j !! i = Some t /\ covers t f)
         (j_folded j) /\
  existsb has_null (j_stats j) = folded_null (j_folded j).

(** The roll's shadow metadata of one column of one fragment. *)
Definition shadow_entry (s : Machine) (key : MetaDataKey) (col : Z)
    : option ChunkMetadata :=
  chunkMetadata (updel_roll s) !! key ≫= (.!! col).

(** * Properties *)

(** ** Machine integers in range *)

Lemma u64_small x : 0 <= x < 2 ^ 64 -> u64 x = x.
Proof. intros. unfold u64. apply Z.mod_small. lia. Qed.

Lemma i64_small x : - 2 ^ 63 <= x < 2 ^ 63 -> i64 x = x.
Proof. intros. unfold i64. rewrite Z.mod_small; lia. Qed.

Lemma i32_small x : - 2 ^ 31 <= x < 2 ^ 31 -> i32 x = x.
Proof. intros. unfold i32. rewrite Z.mod_small; lia. Qed.

(** ** Buffer memory *)

Section mem_lemmas.
Import Mem.
Implicit Types (m bs : list Z) (a b n k : Z) (i : nat).

Lemma lookup_load m a n i :
  load m a n !! i =
    if decide (i < Z.to_nat n)%nat then m !! (Z.to_nat a + i)%nat else None.
Proof. unfold load. rewrite lookup_take, lookup_drop. done. Qed.

Lemma lookup_store m a bs i :
  (Z.to_nat a <= length m)%nat ->
  store m a bs !! i =
    if decide (i < Z.to_nat a)%nat then m !! i
    else if decide (i < Z.to_nat a + length bs)%nat
         then bs !! (i - Z.to_nat a)%nat else m !! i.
Proof.
  intros Ha. unfold store.
  assert (length (take (Z.to_nat a) m) = Z.to_nat a) as Hlen
    by (rewrite length_take; lia).
  repeat case_decide.
  - rewrite lookup_app_l by lia. apply lookup_take_lt. lia.
  - rewrite lookup_app_r by lia. rewrite Hlen. apply lookup_app_l. lia.
  - rewrite lookup_app_r by lia. rewrite Hlen.
    rewrite lookup_app_r by lia. rewrite lookup_drop. f_equal. lia.
Qed.

Lemma length_load m a n :
  0 <= a -> 0 <= n -> a + n <= len m -> length (load m a n) = Z.to_nat n.
Proof.
  unfold len. intros. unfold load. rewrite length_take, length_drop. lia.
Qed.

Lemma len_load m a n :
  0 <= a -> 0 <= n -> a + n <= len m -> len (load m a n) = n.
Proof. intros. unfold len at 1. rewrite length_load by done. lia. Qed.

Lemma len_store m a bs :
  0 <= a -> a + len bs <= len m -> len (store m a bs) = len m.
Proof.
  unfold len. intros. unfold store.
  rewrite !length_app, length_take, length_drop. lia.
Qed.

Lemma len_memmove m dst src n :
  0 <= dst -> 0 <= src -> 0 <= n ->
  dst + n <= len m -> src + n <= len m ->
  len (memmove m dst src n) = len m.
Proof.
  intros. unfold memmove. apply len_store; [lia|].
  rewrite len_load by lia. lia.
Qed.

Lemma load_app m a n1 n2 :
  0 <= a -> 0 <= n1 -> 0 <= n2 ->
  load m a (n1 + n2) = load m a n1 ++ load m (a + n1) n2.
Proof.
  intros. unfold load.
  rewrite Z2Nat.inj_add by lia.
  rewrite <- take_take_drop, drop_drop.
  do 3 f_equal. lia.
Qed.

(** Reading inside the block a [memmove] has written gives what the
    source held before the call. *)
Lemma load_memmove_inside m dst src n o k :
  0 <= dst -> 0 <= src -> 0 <= o -> 0 <= k -> o + k <= n ->
  dst + n <= len m -> src + n <= len m ->
  load (memmove m dst src n) (dst + o) k = load m (src + o) k.
Proof.
  intros. apply list_eq; intros i. unfold memmove.
  rewrite !lookup_load, lookup_store by (unfold len in *; lia).
  rewrite length_load by lia.
  repeat case_decide; try lia; try done.
  rewrite lookup_load. case_decide; [|lia]. f_equal. lia.
Qed.

Lemma load_memmove_dst m dst src n :
  0 <= dst -> 0 <= src -> 0 <= n ->
  dst + n <= len m -> src + n <= len m ->
  load (memmove m dst src n) dst n = load m src n.
Proof.
  intros. pose proof (load_memmove_inside m dst src n 0 n) as Hin.
  rewrite !Z.add_0_r in Hin. apply Hin; lia.
Qed.

(** Reading wholly before or wholly after the written block is
    unaffected. *)
Lemma load_memmove_outside m dst src n b k :
  0 <= dst -> 0 <= src -> 0 <= n -> 0 <= b -> 0 <= k ->
  dst + n <= len m -> src + n <= len m ->
  b + k <= dst \/ dst + n <= b ->
  load (memmove m dst src n) b k = load m b k.
Proof.
  intros. apply list_eq; intros i. unfold memmove.
  rewrite !lookup_load, lookup_store by (unfold len in *; lia).
  rewrite length_load by lia.
  repeat case_decide; try lia; done.
Qed.

Lemma load_store_inside m a bs :
  0 <= a -> a + len bs <= len m ->
  load (store m a bs) a (len bs) = bs.
Proof.
  unfold len. intros. apply list_eq; intros i.
  rewrite lookup_load, lookup_store by lia.
  repeat case_decide; try lia.
  - f_equal. lia.
  - symmetry. apply lookup_ge_None. lia.
Qed.

Lemma load_store_outside m a bs b k :
  0 <= a -> 0 <= b -> 0 <= k -> a + len bs <= len m ->
  b + k <= a \/ a + len bs <= b ->
  load (store m a bs) b k = load m b k.
Proof.
  unfold len. intros. apply list_eq; intros i.
  rewrite !lookup_load, lookup_store by lia.
  repeat case_decide; try lia; done.
Qed.

Lemma load_all m : load m 0 (len m) = m.
Proof. unfold load, len. simpl. rewrite Nat2Z.id. apply firstn_all. Qed.

End mem_lemmas.

Section more_mem_lemmas.
Import Mem.

Lemma load_load (m : list Z) a n o k :
  0 <= a -> 0 <= o -> 0 <= k -> o + k <= n ->
  load (load m a n) o k = load m (a + o) k.
Proof.
  intros. apply list_eq; intros i. rewrite !lookup_load.
  repeat case_decide; try lia; try done. f_equal. lia.
Qed.

(** Equal blocks have equal sub-blocks. *)
Lemma load_sub (m m' : list Z) a n o k :
  0 <= a -> 0 <= o -> 0 <= k -> o + k <= n ->
  load m a n = load m' a n ->
  load m (a + o) k = load m' (a + o) k.
Proof.
  intros ? ? ? ? Heq.
  rewrite <- (load_load m a n o k), <- (load_load m' a n o k) by done.
  by rewrite Heq.
Qed.

End more_mem_lemmas.

(** ** Surviving rows *)

Lemma increasing_in_bounds lo hi D :
  increasing_in lo hi D -> forall x, x ∈ D -> lo <= x < hi.
Proof.
  revert lo. induction D as [|d D IH]; intros lo HD x Hx.
  - by apply elem_of_nil in Hx.
  - destruct HD as [Hd HD]. apply elem_of_cons in Hx as [->|Hx]; [done|].
    specialize (IH _ HD x Hx). lia.
Qed.

Lemma increasing_in_length lo hi D :
  increasing_in lo hi D -> lo <= hi -> Z.of_nat (length D) <= hi - lo.
Proof.
  revert lo. induction D as [|d D IH]; intros lo HD Hle; simpl; [lia|].
  destruct HD as [Hd HD]. specialize (IH _ HD). lia.
Qed.

Lemma survivors_from_nil k N : survivors_from k N [] = seqZ k (N - k).
Proof.
  unfold survivors_from. induction (seqZ k (N - k)) as [|x l IH]; [done|].
  rewrite filter_cons_True by apply not_elem_of_nil. by rewrite IH.
Qed.

Lemma filter_all {A} (P : A -> Prop) `{!forall x, Decision (P x)} (l : list A) :
  (forall x, x ∈ l -> P x) -> filter P l = l.
Proof.
  induction l as [|x l IH]; intros Hall; [done|].
  rewrite filter_cons_True by (apply Hall; left).
  rewrite IH; [done|]. intros y Hy. apply Hall. by right.
Qed.

Lemma filter_equiv {A} (P Q : A -> Prop)
    `{!forall x, Decision (P x)} `{!forall x, Decision (Q x)} (l : list A) :
  (forall x, x ∈ l -> P x <-> Q x) -> filter P l = filter Q l.
Proof.
  induction l as [|x l IH]; intros Hall; [done|].
  rewrite !filter_cons.
  assert (P x <-> Q x) as Hx by (apply Hall; left).
  rewrite IH by (intros y Hy; apply Hall; by right).
  repeat case_decide; tauto.
Qed.

(** The survivors of [k, N) are the rows before the first deleted
    offset followed by the survivors after it. *)
Lemma survivors_from_cons k N d D :
  increasing_in k N (d :: D) ->
  survivors_from k N (d :: D) = seqZ k (d - k) ++ survivors_from (d + 1) N D.
Proof.
  intros [Hd HD]. unfold survivors_from.
  pose proof (increasing_in_bounds _ _ _ HD) as Hb.
  replace (N - k) with ((d - k) + (1 + (N - (d + 1)))) by lia.
  rewrite seqZ_app by lia. rewrite (seqZ_app _ 1) by lia.
  rewrite !filter_app. replace (k + (d - k)) with d by lia.
  f_equal; [|simpl].
  - apply filter_all. intros x Hx Hin. apply elem_of_seqZ in Hx.
    apply elem_of_cons in Hin as [->|Hin]; [lia|]. apply Hb in Hin. lia.
  - change (seqZ d 1) with [d].
    rewrite filter_cons_False by (intros Hn'; apply Hn'; left).
    rewrite filter_nil. simpl. apply filter_equiv.
    intros x Hx. apply elem_of_seqZ in Hx. rewrite elem_of_cons.
    split; [tauto|]. intros Hn' [->|?]; [lia|done].
Qed.

Lemma length_survivors_from k N D :
  k <= N -> increasing_in k N D ->
  Z.of_nat (length (survivors_from k N D)) = N - k - Z.of_nat (length D).
Proof.
  revert k. induction D as [|d D IH]; intros k Hk HD.
  - rewrite survivors_from_nil, length_seqZ. simpl. lia.
  - rewrite survivors_from_cons by done. destruct HD as [Hd HD].
    rewrite length_app, length_seqZ, Nat2Z.inj_add, IH by (done || lia).
    simpl. lia.
Qed.

(** Consecutive rows are one contiguous block of the array. *)
Lemma surviving_bytes_seqZ es m k n :
  0 <= es -> 0 <= k -> 0 <= n ->
  surviving_bytes es m (seqZ k n) = Mem.load m (k * es) (n * es).
Proof.
  intros Hes Hk Hn. revert k Hk. pattern n. apply natlike_ind; [|clear n Hn|done].
  - intros k Hk. done.
  - intros n Hn IH k Hk.
    rewrite seqZ_cons by lia. unfold surviving_bytes in *. simpl.
    replace (Z.pred (Z.succ n)) with n by lia.
    rewrite IH by lia.
    replace (Z.succ n * es) with (es + n * es) by lia.
    rewrite load_app by nia. unfold row. do 2 f_equal. lia.
Qed.

Lemma surviving_bytes_app es m l1 l2 :
  surviving_bytes es m (l1 ++ l2) = surviving_bytes es m l1 ++ surviving_bytes es m l2.
Proof. apply flat_map_app. Qed.

(** ** Fixed-length vacuum *)

Section fixlen.
Import Mem Fixlen.
Variables (es N : Z) (m0 : list Z).
Hypothesis Hes : 0 < es.
Hypothesis HN : 0 <= N.
Hypothesis Hcap : N * es <= len m0.
Hypothesis Hrange : N * es < 2 ^ 63.

(** What holds between two iterations: [fill] rows are in place at
    the front, and nothing at or after row [keep] has been touched. *)
Record fixlen_inv (st : state) : Prop := {
  inv_fill : 0 <= irow_of_blk_to_fill st <= irow_of_blk_to_keep st;
  inv_keep : irow_of_blk_to_keep st <= N;
  inv_nbytes : nbytes_fix_data_to_keep st = irow_of_blk_to_fill st * es;
  inv_len : len (data st) = len m0;
  inv_tail :
    load (data st) (irow_of_blk_to_keep st * es)
         ((N - irow_of_blk_to_keep st) * es)
    = load m0 (irow_of_blk_to_keep st * es)
           ((N - irow_of_blk_to_keep st) * es)
}.

Lemma fixlen_step_spec st v :
  fixlen_inv st -> irow_of_blk_to_keep st <= v <= N ->
  let st' := step es st v in
  let k := irow_of_blk_to_keep st in
  let f := irow_of_blk_to_fill st in
  irow_of_blk_to_keep st' = i64 (u64 (v + 1)) /\
  irow_of_blk_to_fill st' = f + (v - k) /\
  nbytes_fix_data_to_keep st' = (f + (v - k)) * es /\
  len (data st') = len m0 /\
  load (data st') 0 ((f + (v - k)) * es)
    = load (data st) 0 (f * es) ++ load m0 (k * es) ((v - k) * es) /\
  load (data st') (v * es) ((N - v) * es) = load m0 (v * es) ((N - v) * es).
Proof.
  intros [Hf Hk Hnb Hlen Htail] Hv. cbv zeta.
  set (k := irow_of_blk_to_keep st) in *.
  set (f := irow_of_blk_to_fill st) in *.
  assert (N < 2 ^ 63) as HN63 by nia.
  assert (0 <= f * es <= k * es) as Hfe
    by (split; [apply Z.mul_nonneg_nonneg|apply Z.mul_le_mono_nonneg_r]; lia).
  assert (k * es <= v * es <= N * es) as Hve
    by (split; apply Z.mul_le_mono_nonneg_r; lia).
  assert ((v - k) * es = v * es - k * es) as Hblk by lia.
  assert ((N - v) * es = N * es - v * es) as Hrest by lia.
  assert ((N - k) * es = N * es - k * es) as Hrest' by lia.
  assert ((f + (v - k)) * es = f * es + (v * es - k * es)) as Hnew by lia.
  assert (Htail' : load (data st) (k * es) ((v - k) * es)
                   = load m0 (k * es) ((v - k) * es)).
  { replace (k * es) with (k * es + 0) by lia.
    eapply load_sub; [..|exact Htail]; lia. }
  assert (Htail'' : load (data st) (v * es) ((N - v) * es)
                    = load m0 (v * es) ((N - v) * es)).
  { replace (v * es) with (k * es + (v - k) * es) by lia.
    eapply load_sub; [..|exact Htail]; lia. }
  unfold step. fold k f.
  rewrite (u64_small (v - k)), (i64_small (v - k)) by lia.
  destruct (Z.ltb_spec 0 (v - k)) as [Hpos|Hnpos]; simpl.
  - rewrite (u64_small ((v - k) * es)) by lia.
    rewrite (i64_small (f + (v - k))) by lia. rewrite Hnb.
    rewrite (u64_small (f * es + _)) by lia.
    split; [done|]. split; [done|]. split; [lia|].
    destruct (Z.eqb_spec f k) as [Hfk|Hfk].
    + split; [done|]. split; [|done].
      replace ((f + (v - k)) * es) with (f * es + (v - k) * es) by lia.
      rewrite load_app by lia. simpl. f_equal.
      rewrite Hfk. exact Htail'.
    + assert (0 <= f * es /\ 0 <= k * es /\ 0 <= (v - k) * es) as (?&?&?) by lia.
      assert (f * es + (v - k) * es <= len (data st)) by lia.
      assert (k * es + (v - k) * es <= len (data st)) by lia.
      split; [rewrite len_memmove by lia; done|]. split.
      * replace ((f + (v - k)) * es) with (f * es + (v - k) * es) by lia.
        rewrite load_app by lia. simpl. f_equal.
        -- apply load_memmove_outside; lia.
        -- rewrite load_memmove_dst by lia. exact Htail'.
      * rewrite load_memmove_outside by lia. exact Htail''.
  - assert (v = k) as -> by lia.
    split; [done|]. split; [lia|]. split; [rewrite Hnb; f_equal; lia|].
    split; [done|]. split; [|done].
    replace (k - k) with 0 by lia. rewrite Z.add_0_r. simpl.
    unfold load at 3. simpl. by rewrite app_nil_r.
Qed.

Lemma fixlen_loop_spec D : forall st,
  fixlen_inv st -> increasing_in (irow_of_blk_to_keep st) N D ->
  let st' := loop es N D st in
  let k := irow_of_blk_to_keep st in
  let f := irow_of_blk_to_fill st in
  nbytes_fix_data_to_keep st' = (f + (N - k) - Z.of_nat (length D)) * es /\
  len (data st') = len m0 /\
  load (data st') 0 (nbytes_fix_data_to_keep st')
    = load (data st) 0 (f * es)
      ++ surviving_bytes es m0 (survivors_from k N D).
Proof.
  induction D as [|d D IH]; intros st Hinv HD; cbv zeta.
  - pose proof Hinv as [Hf Hk _ _ _].
    destruct (fixlen_step_spec st N Hinv ltac:(lia))
      as (_ & _ & Hnb & Hlen & Hfront & _).
    cbn [loop length]. rewrite Hnb. split; [f_equal; lia|]. split; [done|].
    rewrite Hfront, survivors_from_nil.
    rewrite surviving_bytes_seqZ by lia. done.
  - pose proof Hinv as [Hf Hk _ _ _]. destruct HD as [Hd HD].
    destruct (fixlen_step_spec st d Hinv ltac:(lia))
      as (Hk' & Hf' & Hnb & Hlen & Hfront & Htail).
    rewrite u64_small, i64_small in Hk' by nia.
    assert (fixlen_inv (step es st d)) as Hinv'.
    { split; rewrite ?Hk', ?Hf'; try lia; try done.
      replace ((d + 1) * es) with (d * es + es) by lia.
      eapply load_sub; [..|exact Htail]; nia. }
    rewrite <- Hk' in HD.
    destruct (IH _ Hinv' HD) as (Hnb2 & Hlen2 & Hfront2).
    cbn [loop]. rewrite Hnb2, Hlen2. rewrite Hnb2 in Hfront2.
    rewrite Hk', Hf' in *.
    split_and!.
    { f_equal. simpl length. lia. }
    { reflexivity. }
    rewrite Hfront2, Hfront.
    rewrite survivors_from_cons by (split; [lia|exact HD]).
    rewrite surviving_bytes_app, surviving_bytes_seqZ by lia.
    by rewrite <- app_assoc.
Qed.

End fixlen.

Lemma fixlen_run_spec (es N : Z) (D m : list Z) :
  0 < es -> 0 <= N -> N * es <= Mem.len m -> N * es < 2 ^ 63 ->
  increasing_in 0 N D ->
  let '(m', nbytes) := Fixlen.run es N D m in
  nbytes = (N - Z.of_nat (length D)) * es /\
  Mem.load m' 0 nbytes = surviving_bytes es m (survivors N D) /\
  Mem.len m' = Mem.len m.
Proof.
  intros Hes HN Hcap Hrange HD. unfold Fixlen.run.
  assert (fixlen_inv es N m (Fixlen.init m)) as Hinv.
  { split; simpl; try lia; done. }
  destruct (fixlen_loop_spec es N m Hes HN Hcap Hrange D _ Hinv HD)
    as (Hnb & Hlen & Hfront).
  simpl in Hnb, Hfront. rewrite Hnb in *.
  split; [f_equal; lia|]. split; [|done].
  rewrite Hfront. done.
Qed.

(** The member function.  On a fragment of [N] rows and a column of [es]-byte elements whose
    buffer holds the [N] rows, for a strictly increasing list [D] of
    deleted offsets within [0, N), [vacuum_fixlen_rows] returns
    [(N - |D|) * es] and leaves in the first that many bytes of the
    buffer the bytes of the surviving rows, in their original order.  It
    touches nothing else of the chunk. *)
Theorem vacuum_fixlen_rows_keeps_survivors `{TypedDataAccessors}
    (finfo : FragmentInfo) (cd : ColumnDescriptor) (bufs : ChunkBuffers)
    (frag_offsets : list Z) :
  let es := vacuum_element_size (columnType cd) in
  let N := physicalNumTuples finfo in
  0 < es -> 0 <= N -> N * es <= Mem.len (mem (buffer bufs)) -> N * es < 2 ^ 63 ->
  increasing_in 0 N frag_offsets ->
  let '(bufs', nbytes) := vacuum_fixlen_rows finfo cd bufs frag_offsets in
  nbytes = (N - vsize frag_offsets) * es /\
  Mem.load (mem (buffer bufs')) 0 nbytes
    = surviving_bytes es (mem (buffer bufs)) (survivors N frag_offsets) /\
  Mem.len (mem (buffer bufs')) = Mem.len (mem (buffer bufs)) /\
  bufs' = with_buffer (fun b => setMem b (mem (buffer bufs'))) bufs.
Proof.
  intros es N Hes HN Hcap Hrange HD. unfold vacuum_fixlen_rows.
  pose proof (fixlen_run_spec es N frag_offsets (mem (buffer bufs))
                Hes HN Hcap Hrange HD) as Hrun.
  fold es N. destruct (Fixlen.run es N frag_offsets (mem (buffer bufs))) as [m' nb].
  destruct Hrun as (Hnb & Hfront & Hlen). simpl. done.
Qed.

(** The spec's scenario: a [BIGINT] column [A, B, C, D, E] vacuumed of
    the offsets [1, 3] becomes [A, C, E], 24 bytes. *)
Lemma vacuum_fixlen_rows_bigint_scenario :
  let '(bufs', nbytes) :=
    vacuum_fixlen_rows (H := Reference.accessors) Examples.five_rows
      Examples.x_bigint Examples.ABCDE [1; 3] in
  nbytes = 24 /\
  Mem.load (mem (buffer bufs')) 0 nbytes
    = Examples.pack 8 [Examples.A; Examples.C; Examples.E] /\
  Mem.len (mem (buffer bufs')) = 40 /\
  bufs' = with_buffer (fun b => setMem b (mem (buffer bufs'))) Examples.ABCDE.
Proof.
  apply (vacuum_fixlen_rows_keeps_survivors (H := Reference.accessors)
           Examples.five_rows Examples.x_bigint Examples.ABCDE [1; 3]);
    vm_compute; try done; intuition congruence.
Defined.

(** ** [getVacuumOffsets] *)

Lemma increasing_in_weaken lo lo' hi D :
  lo' <= lo -> increasing_in lo hi D -> increasing_in lo' hi D.
Proof. destruct D as [|d D]; simpl; [done|]. intros ? [? ?]. split; [lia|done]. Qed.

Lemma increasing_in_filter_seqZ (P : Z -> Prop) `{!forall x, Decision (P x)} (n : nat) :
  forall lo, increasing_in lo (lo + Z.of_nat n) (filter P (seqZ lo (Z.of_nat n))).
Proof.
  induction n as [|n IH]; intros lo; [done|].
  rewrite seqZ_cons by lia.
  replace (Z.pred (Z.of_nat (S n))) with (Z.of_nat n) by lia.
  specialize (IH (Z.succ lo)).
  replace (Z.succ lo + Z.of_nat n) with (lo + Z.of_nat (S n)) in IH by lia.
  rewrite filter_cons. case_decide.
  - split; [lia|]. by replace (lo + 1) with (Z.succ lo) by lia.
  - eapply increasing_in_weaken; [|exact IH]. lia.
Qed.

Lemma getVacuumOffsets_loop_filter (m : list Z) (n : nat) : forall r acc,
  getVacuumOffsets_loop m r n acc
  = acc ++ filter (λ r, Mem.byte_at m r ≠ 0) (seqZ r (Z.of_nat n)).
Proof.
  induction n as [|n IH]; intros r acc; [by rewrite app_nil_r|].
  cbn [getVacuumOffsets_loop]. rewrite IH.
  rewrite (seqZ_cons r) by lia.
  replace (Z.pred (Z.of_nat (S n))) with (Z.of_nat n) by lia.
  replace (Z.succ r) with (r + 1) by lia.
  rewrite filter_cons.
  destruct (Z.eqb_spec (Mem.byte_at m r) 0) as [Hz|Hz]; case_decide; try done.
  by rewrite <- app_assoc.
Qed.

(** C10. [getVacuumOffsets] returns, in strictly increasing order, exactly
    the positions [r] of [0, size) of the delete column's buffer whose
    byte is not zero, and changes nothing; it fails only when the chunk
    has no buffer.  Its result is thus strictly increasing and in range,
    as [compactRows] wants its deleted offsets. *)
Theorem getVacuumOffsets_exact (chunk : Chunk) (frag_offsets : list Z) (s : Machine) :
  match getVacuumOffsets chunk frag_offsets s with
  | (Ok deleted_offsets, s') =>
      s' = s /\
      exists bufs, buffers s !! key_of chunk = Some bufs /\
        let data_addr := mem (buffer bufs) in
        let nrows_in_chunk := buf_size (buffer bufs) in
        increasing_in 0 nrows_in_chunk deleted_offsets /\
        forall r, r ∈ deleted_offsets <->
                  0 <= r < nrows_in_chunk /\ Mem.byte_at data_addr r ≠ 0
  | (Fatal, _) => buffers s !! key_of chunk = None
  | (Throw _, _) => False
  end.
Proof.
  unfold getVacuumOffsets, get_buffers, bind, gets, CHECK_some, ret, fatal.
  destruct (buffers s !! key_of chunk) as [bufs|] eqn:Hb; [|done].
  split; [done|]. exists bufs. split; [done|]. cbv zeta.
  unfold getVacuumOffsets_buf. rewrite getVacuumOffsets_loop_filter. simpl.
  set (n := buf_size (buffer bufs)).
  destruct (Z.le_gt_cases 0 n) as [Hn|Hn].
  - rewrite Z2Nat.id by done. split.
    + pose proof (increasing_in_filter_seqZ
                    (λ r, Mem.byte_at (mem (buffer bufs)) r ≠ 0) (Z.to_nat n) 0) as Hinc.
      rewrite Z2Nat.id in Hinc by done. exact Hinc.
    + intros r. rewrite list_elem_of_filter, elem_of_seqZ. split; intros; split; try tauto; lia.
  - replace (Z.to_nat n) with O by lia. simpl. split; [done|].
    intros r. rewrite elem_of_nil. split; [done|lia].
Qed.

(** ** The offset array: [StringOffsetT] elements in raw memory *)

Section i32_lemmas.
Import Mem.

Lemma length_encode_le w v : length (encode_le w v) = w.
Proof. revert v. induction w as [|w IH]; intros v; simpl; [done|]. by rewrite IH. Qed.

Lemma decode_encode_le w v : decode_le (encode_le w v) = v mod 256 ^ Z.of_nat w.
Proof.
revert v. induction w as [|w IH]; intros v.
- simpl. by rewrite Z.mod_1_r.
- cbn [encode_le decode_le]. rewrite IH.
  rewrite Nat2Z.inj_succ, Z.pow_succ_r by lia.
  rewrite Z.rem_mul_r by lia. done.
Qed.

Lemma i32_mod x : i32 (x mod 2 ^ 32) = i32 x.
Proof. unfold i32. by rewrite Zplus_mod_idemp_l. Qed.

Lemma i32_range x : - 2 ^ 31 <= i32 x < 2 ^ 31.
Proof. unfold i32. pose proof (Z.mod_pos_bound (x + 2 ^ 31) (2 ^ 32)). lia. Qed.

Lemma len_encode_le4 v : len (encode_le 4 v) = 4.
Proof. done. Qed.

Lemma len_store_i32 m i v :
0 <= i -> 4 * i + 4 <= len m -> len (store_i32 m i v) = len m.
Proof. intros. unfold store_i32. apply len_store; rewrite ?len_encode_le4; lia. Qed.

Lemma load_store_i32_same m i v :
0 <= i -> 4 * i + 4 <= len m -> load_i32 (store_i32 m i v) i = i32 v.
Proof.
intros. unfold load_i32, store_i32.
pose proof (load_store_inside m (4 * i) (encode_le 4 v)) as Hin.
rewrite len_encode_le4 in Hin. rewrite Hin by lia.
rewrite decode_encode_le. apply i32_mod.
Qed.

Lemma load_store_i32_other m i j v :
0 <= i -> 0 <= j -> i <> j -> 4 * i + 4 <= len m ->
load_i32 (store_i32 m i v) j = load_i32 m j.
Proof.
intros. unfold load_i32, store_i32.
rewrite load_store_outside; rewrite ?len_encode_le4; [done|lia..].
Qed.

Lemma load_i32_memmove_inside m f k n j :
0 <= f -> 0 <= k -> 0 <= n ->
4 * (f + n) <= len m -> 4 * (k + n) <= len m ->
f <= j < f + n ->
load_i32 (memmove m (4 * f) (4 * k) (4 * n)) j = load_i32 m (k + (j - f)).
Proof.
intros. unfold load_i32.
replace (4 * j) with (4 * f + 4 * (j - f)) by lia.
rewrite load_memmove_inside by lia.
do 3 f_equal. lia.
Qed.

Lemma load_i32_memmove_outside m f k n j :
0 <= f -> 0 <= k -> 0 <= n -> 0 <= j ->
4 * (f + n) <= len m -> 4 * (k + n) <= len m ->
j < f \/ f + n <= j ->
load_i32 (memmove m (4 * f) (4 * k) (4 * n)) j = load_i32 m j.
Proof.
intros. unfold load_i32. rewrite load_memmove_outside by lia. done.
Qed.

(** The loop of lines 608-611 rewrites the [n] entries from [keep + i]
  on, each from its own old value, and no other. *)
Lemma rebase_spec keep ibyte index_base : forall n i idx,
0 <= keep -> 0 <= i -> 4 * (keep + i + Z.of_nat n) <= len idx ->
len (Varlen.rebase n i keep ibyte index_base idx) = len idx /\
forall j, 0 <= j ->
  load_i32 (Varlen.rebase n i keep ibyte index_base idx) j
  = if (keep + i <=? j) && (j <? keep + i + Z.of_nat n)
    then i32 (u64 (ibyte + (load_i32 idx j - index_base)))
    else load_i32 idx j.
Proof.
induction n as [|n IH]; intros i idx Hk Hi Hlen.
- simpl. split; [done|]. intros j Hj.
  destruct (Z.leb_spec (keep + i) j), (Z.ltb_spec j (keep + i + Z.of_nat 0)); simpl; try done; lia.
- cbn [Varlen.rebase].
  set (idx' := store_i32 idx (keep + i) _).
  assert (len idx' = len idx) as Hlen' by (apply len_store_i32; lia).
  assert (0 <= i + 1) as Hi' by lia.
  assert (4 * (keep + (i + 1) + Z.of_nat n) <= len idx') as Hlen'' by lia.
  destruct (IH (i + 1) idx' Hk Hi' Hlen'') as [IHlen IHj].
  split; [lia|]. intros j Hj. rewrite IHj by done.
  destruct (Z.leb_spec (keep + (i + 1)) j), (Z.ltb_spec j (keep + (i + 1) + Z.of_nat n)),
           (Z.leb_spec (keep + i) j), (Z.ltb_spec j (keep + i + Z.of_nat (S n)));
    simpl; try lia; unfold idx';
    try (rewrite load_store_i32_other by lia; reflexivity).
  assert (j = keep + i) as -> by lia.
  rewrite load_store_i32_same by lia.
  unfold i32 at 1. rewrite Z.mod_small; [lia|].
  pose proof (i32_range (u64 (ibyte + (load_i32 idx (keep + i) - index_base)))). lia.
Qed.

End i32_lemmas.
(** ** Steps of computations on the machine *)

Lemma bind_Ok {St A B} (m : M St A) (k : A -> M St B) (s s1 : St) (a : A) :
  m s = (Ok a, s1) -> bind m k s = k a s1.
Proof. intros Hm. unfold bind. by rewrite Hm. Qed.

Lemma bind_Ok_inv {St A B} (m : M St A) (k : A -> M St B) (s s' : St) (b : B) :
  bind m k s = (Ok b, s') -> exists a s1, m s = (Ok a, s1) /\ k a s1 = (Ok b, s').
Proof.
  unfold bind. destruct (m s) as [[a|what|] s1]; [|done..].
  intros Hk. by exists a, s1.
Qed.

Lemma fragment_at_Ok (fragment : Z) (finfo : FragmentInfo) (s : Machine) :
  fragments s !! fragment = Some finfo -> fragment_at fragment s = (Ok finfo, s).
Proof. intros Hf. unfold fragment_at, bind, gets, CHECK_some. by rewrite Hf. Qed.

Lemma get_buffers_Ok (chunk : Chunk) (bufs : ChunkBuffers) (s : Machine) :
  buffers s !! key_of chunk = Some bufs -> get_buffers chunk s = (Ok bufs, s).
Proof. intros Hb. unfold get_buffers, bind, gets, CHECK_some. by rewrite Hb. Qed.

(** ** [set_chunk_metadata] *)

(** The column's entry after [set_chunk_metadata]: the row count given
    and the data buffer's size, with the statistics the entry had. *)
Lemma set_chunk_metadata_ok (cat : Catalog) (fragment : Z) (chunk : Chunk)
    (nrows_to_keep : Z) (finfo : FragmentInfo) (bufs : ChunkBuffers) (s : Machine) :
  let cd := column_desc chunk in
  let key : MetaDataKey := (td_ptr_of cat (cd_tableId cd), fragment) in
  let r := updel_roll s in
  let base := default (chunkMetadataMap finfo) (chunkMetadata r !! key) in
  fragments s !! fragment = Some finfo ->
  buffers s !! key_of chunk = Some bufs ->
  set_chunk_metadata cat fragment chunk nrows_to_keep s
  = (Ok tt,
     set_roll (fun _ =>
       {| catalog := catalog r; logicalTableId := logicalTableId r;
          memoryLevel := memoryLevel r;
          dirtyChunks :=
            match dirtyChunks r !! chunk_addr chunk with
            | None => <[chunk_addr chunk := chunk]> (dirtyChunks r)
            | Some _ => dirtyChunks r
            end;
          dirtyChunkeys := dirtyChunkeys r;
          chunkMetadata :=
            <[key := <[columnId cd :=
                 {| numBytes := buf_size (buffer bufs);
                    numElements := nrows_to_keep;
                    chunkStats :=
                      chunkStats (default init_chunk_metadata (base !! columnId cd)) |}]>
               base]> (chunkMetadata r);
          numTuples := numTuples r |}) s).
Proof.
  intros cd key r base Hf Hb.
  unfold set_chunk_metadata.
  rewrite (bind_Ok _ _ _ _ _ (get_buffers_Ok chunk bufs s Hb)).
  rewrite (bind_Ok _ _ _ _ _ (fragment_at_Ok fragment finfo s Hf)).
  unfold bind, modify. fold cd key. f_equal.
  unfold set_roll. simpl. f_equal. fold r.
  unfold base.
  destruct (chunkMetadata r !! key) as [m0|] eqn:Hm0; simpl;
    destruct (dirtyChunks r !! chunk_addr chunk);
    unfold set_dirtyChunks, set_chunkMetadata; simpl;
    rewrite ?Hm0, ?lookup_insert_eq, ?insert_insert_eq; reflexivity.
Qed.

(** ** Variable-length vacuum *)

Section varlen.
Import Mem Varlen.
Variables (N S : Z) (dm0 im0 : list Z).
Hypothesis HN : 0 <= N.
Hypothesis Him : 4 * (N + 1) <= len im0.
Hypothesis Hrange : 4 * (N + 1) < 2 ^ 63.
Hypothesis HS : S <= len dm0.
Hypothesis HS31 : S < 2 ^ 31.
Hypothesis Hwf : offsets_wf im0 N S.

Local Abbreviation off0 := (load_i32 im0).

Lemma off0_mono i j : 0 <= i <= j -> j <= N -> off0 i <= off0 j.
Proof.
intros [Hi Hij] Hj. replace j with (i + (j - i)) in * by lia.
assert (0 <= j - i) as Hd by lia. revert Hd Hj.
generalize (j - i) as d. clear Hij j. intros d Hd. pattern d.
apply natlike_ind; [| |done]; clear d Hd.
- intros _. rewrite Z.add_0_r. lia.
- intros d Hd IH Hj. destruct Hwf as (_ & _ & Hstep).
  specialize (Hstep (i + d)). replace (i + Z.succ d) with (i + d + 1) by lia. lia.
Qed.

Lemma off0_bounds i : 0 <= i <= N -> 0 <= off0 i <= S.
Proof.
intros Hi. destruct Hwf as (H0 & HNS & _).
pose proof (off0_mono 0 i ltac:(lia) ltac:(lia)).
pose proof (off0_mono i N ltac:(lia) ltac:(lia)). lia.
Qed.

(** Consecutive rows lie one after the other in the data buffer. *)
Lemma surviving_payload_seqZ k n :
0 <= k -> 0 <= n -> k + n <= N ->
surviving_payload im0 dm0 (seqZ k n) = load dm0 (off0 k) (off0 (k + n) - off0 k).
Proof.
intros Hk Hn. revert k Hk. pattern n. apply natlike_ind; [| |done]; clear n Hn.
- intros k Hk _. rewrite Z.add_0_r, Z.sub_diag. done.
- intros n Hn IH k Hk HkN.
  rewrite seqZ_cons by lia. unfold surviving_payload in *. simpl.
  replace (Z.pred (Z.succ n)) with n by lia.
  rewrite IH by lia.
  pose proof (off0_bounds k ltac:(lia)).
  pose proof (off0_mono k (k + 1) ltac:(lia) ltac:(lia)).
  pose proof (off0_mono (k + 1) (k + Z.succ n) ltac:(lia) ltac:(lia)).
  replace (off0 (k + Z.succ n) - off0 k)
    with ((off0 (k + 1) - off0 k) + (off0 (k + Z.succ n) - off0 (k + 1))) by lia.
  rewrite load_app by lia. unfold row_payload.
  replace (Z.succ k) with (k + 1) by lia.
  replace (k + 1 + n) with (k + Z.succ n) by lia.
  do 2 f_equal. lia.
Qed.

(** What holds when the rows below [k] have been dealt with: [f] rows
  are kept, their [nvar] bytes are at the front of the data and their
  offsets at the front of the index, and neither the rows from [k] on
  nor their offsets have been touched. *)
Record varlen_inv (f nvar : Z) (dm im : list Z) (k : Z) : Prop := {
vi_fill : 0 <= f <= k;
vi_keep : k <= N;
vi_nvar : 0 <= nvar <= off0 k;
vi_nomove : f = k -> nvar = off0 k;
vi_zero : f = 0 -> nvar = 0;
vi_sorted : forall j, 0 <= j -> j + 1 < f -> load_i32 im j <= load_i32 im (j + 1);
vi_below : forall j, 0 <= j < f -> 0 <= load_i32 im j <= nvar;
vi_first : 0 < f -> load_i32 im 0 = 0;
vi_data_tail : load dm (off0 k) (S - off0 k) = load dm0 (off0 k) (S - off0 k);
vi_idx_tail : forall i, k <= i <= N -> load_i32 im i = off0 i;
vi_len_data : len dm = len dm0;
vi_len_idx : len im = len im0
}.

Definition inv_of (st : state) (k : Z) : Prop :=
varlen_inv (irow_of_blk_to_fill st) (nbytes_var_data_to_keep st)
           (data st) (indices st) k.

Lemma varlen_inv_advance f nvar dm im v :
varlen_inv f nvar dm im v -> v < N -> varlen_inv f nvar dm im (v + 1).
Proof.
intros [] Hv.
pose proof (off0_bounds v ltac:(lia)).
pose proof (off0_bounds (v + 1) ltac:(lia)).
pose proof (off0_mono v (v + 1) ltac:(lia) ltac:(lia)).
split; try done; try lia.
- replace (off0 (v + 1)) with (off0 v + (off0 (v + 1) - off0 v)) by lia.
  eapply load_sub; [..|eassumption]; lia.
- intros i Hi. apply vi_idx_tail0. lia.
Qed.

Lemma varlen_step_spec st k (is_last_one : bool) (d : Z) :
inv_of st k -> irow_of_blk_to_keep st = k ->
let v := if is_last_one then N else d in
k <= v <= N ->
let st' := step S N st is_last_one d in
irow_of_blk_to_keep st' = i64 (u64 (v + 1)) /\
irow_of_blk_to_fill st' = irow_of_blk_to_fill st + (v - k) /\
nbytes_var_data_to_keep st'
  = nbytes_var_data_to_keep st + (off0 v - off0 k) /\
inv_of st' v /\
load (data st') 0 (nbytes_var_data_to_keep st')
  = load (data st) 0 (nbytes_var_data_to_keep st)
    ++ load dm0 (off0 k) (off0 v - off0 k).
Proof.
intros Hinv Hkeep v Hv. cbv zeta. unfold inv_of in *.
destruct st as [keep f nfix nvar dm im].
cbn [irow_of_blk_to_keep irow_of_blk_to_fill nbytes_var_data_to_keep
     data indices] in *. subst keep.
pose proof Hinv as [Hf Hk Hnv Hnomove Hzero Hsorted Hbelow Hfirst Hdt Hit Hld Hli].
pose proof (off0_bounds k ltac:(lia)) as Hbk.
pose proof (off0_bounds v ltac:(lia)) as Hbv.
pose proof (off0_mono k v ltac:(lia) ltac:(lia)) as Hkv.
assert (Hend : (if is_last_one then S else load_i32 im v) = off0 v).
{ destruct is_last_one.
  - destruct Hwf as (_ & HNS & _). subst v. by rewrite HNS.
  - apply Hit. lia. }
assert (Hbase : load_i32 im k = off0 k) by (apply Hit; lia).
assert (Hblock : load dm (off0 k) (off0 v - off0 k)
                 = load dm0 (off0 k) (off0 v - off0 k)).
{ replace (off0 k) with (off0 k + 0) by lia.
  eapply load_sub; [..|exact Hdt]; lia. }
assert (Htail_v : load dm (off0 v) (S - off0 v)
                  = load dm0 (off0 v) (S - off0 v)).
{ replace (off0 v) with (off0 k + (off0 v - off0 k)) at 1 3 by lia.
  eapply load_sub; [..|exact Hdt]; lia. }
unfold step.
cbn [irow_of_blk_to_keep irow_of_blk_to_fill nbytes_var_data_to_keep
     nbytes_fix_data_to_keep data indices].
fold v.
rewrite (u64_small (v - k)), (i64_small (v - k)) by lia.
rewrite Hend, Hbase.
destruct (Z.ltb_spec 0 (v - k)) as [Hpos|Hnpos]; cbn [irow_of_blk_to_keep
  irow_of_blk_to_fill nbytes_var_data_to_keep data indices].
- rewrite (u64_small (off0 v - off0 k)) by lia.
  rewrite (u64_small (nvar + _)) by lia.
  rewrite (i64_small (f + _)) by lia.
  rewrite (u64_small ((v - k) * index_element_size)) by (unfold index_element_size; lia).
  split; [done|]. split; [done|]. split; [done|].
  destruct (Z.eqb_spec f k) as [Hfk|Hfk]; cbn [negb].
  + (* the block stays where it is *)
    specialize (Hnomove Hfk). split.
    * split; try done; try lia.
      -- intros j Hj Hj1. destruct (Z.lt_ge_cases (j + 1) f) as [?|?].
         { by apply Hsorted. }
         destruct (Z.lt_ge_cases j f) as [?|?].
         { assert (j + 1 = k) as Hjk by lia. rewrite Hjk.
           rewrite (Hit k) by lia. specialize (Hbelow j ltac:(lia)). lia. }
         rewrite (Hit j), (Hit (j + 1)) by lia.
         apply off0_mono; lia.
      -- intros j Hj. destruct (Z.lt_ge_cases j f) as [?|?].
         { specialize (Hbelow j ltac:(lia)). lia. }
         rewrite (Hit j) by lia.
         pose proof (off0_bounds j ltac:(lia)).
         pose proof (off0_mono j v ltac:(lia) ltac:(lia)). lia.
      -- intros _. destruct (Z.lt_ge_cases 0 f) as [?|?]; [by apply Hfirst|].
         rewrite (Hit 0) by lia. by destruct Hwf.
      -- intros i Hi. apply Hit. lia.
    * rewrite Hnomove.
      rewrite load_app by lia. rewrite Z.add_0_l. by rewrite Hblock.
  + (* the block moves to the front *)
    set (nb := off0 v - off0 k) in *.
    set (n := v - k) in *.
    destruct (rebase_spec k nvar (off0 k) (Z.to_nat n) 0 im
                ltac:(lia) ltac:(lia)) as [Hrl Hrj].
    { rewrite Z2Nat.id by lia. unfold n. lia. }
    rewrite Z2Nat.id in Hrj by lia.
    set (idx1 := rebase (Z.to_nat n) 0 k nvar (off0 k) im) in *.
    assert (Hidx1_in : forall j, k <= j < v -> load_i32 idx1 j = nvar + (off0 j - off0 k)).
    { intros j Hj. rewrite Hrj by lia.
      destruct (Z.leb_spec (k + 0) j), (Z.ltb_spec j (k + 0 + n)); try (unfold n in *; lia).
      simpl. rewrite (Hit j) by lia.
      pose proof (off0_bounds j ltac:(lia)).
      pose proof (off0_mono k j ltac:(lia) ltac:(lia)).
      pose proof (off0_mono j v ltac:(lia) ltac:(lia)).
      rewrite u64_small, i32_small by lia. done. }
    assert (Hidx1_out : forall j, 0 <= j -> j < k \/ v <= j -> load_i32 idx1 j = load_i32 im j).
    { intros j Hj Hout. rewrite Hrj by lia.
      destruct (Z.leb_spec (k + 0) j), (Z.ltb_spec j (k + 0 + n)); try (unfold n in *; lia); done. }
    unfold index_element_size.
    replace (f * 4) with (4 * f) by lia.
    replace (k * 4) with (4 * k) by lia.
    replace (n * 4) with (4 * n) by lia.
    set (idx2 := memmove idx1 (4 * f) (4 * k) (4 * n)).
    assert (Hidx2_in : forall j, f <= j < f + n -> load_i32 idx2 j = nvar + (off0 (k + (j - f)) - off0 k)).
    { intros j Hj. unfold idx2. rewrite load_i32_memmove_inside by (unfold n in *; lia).
      apply Hidx1_in. unfold n in *. lia. }
    assert (Hidx2_out : forall j, 0 <= j -> j < f \/ f + n <= j ->
              load_i32 idx2 j = load_i32 idx1 j).
    { intros j Hj Hout. unfold idx2.
      apply load_i32_memmove_outside; unfold n in *; lia. }
    assert (0 <= nvar + nb <= off0 v) by (unfold nb; lia).
    split.
    * split; try lia.
      -- intros j Hj Hj1.
         destruct (Z.lt_ge_cases (j + 1) f) as [?|?].
         { rewrite !Hidx2_out, !Hidx1_out by lia. by apply Hsorted. }
         destruct (Z.lt_ge_cases j f) as [?|?].
         { rewrite (Hidx2_out j), (Hidx1_out j) by lia.
           rewrite (Hidx2_in (j + 1)) by lia.
           replace (k + (j + 1 - f)) with k by lia.
           specialize (Hbelow j ltac:(lia)). lia. }
         rewrite (Hidx2_in j), (Hidx2_in (j + 1)) by lia.
         pose proof (off0_mono (k + (j - f)) (k + (j + 1 - f))
                       ltac:(lia) ltac:(unfold n in *; lia)). lia.
      -- intros j Hj. destruct (Z.lt_ge_cases j f) as [?|?].
         { rewrite (Hidx2_out j), (Hidx1_out j) by lia.
           specialize (Hbelow j ltac:(lia)). lia. }
         rewrite (Hidx2_in j) by lia.
         pose proof (off0_mono k (k + (j - f)) ltac:(lia) ltac:(unfold n in *; lia)).
         pose proof (off0_mono (k + (j - f)) v ltac:(lia) ltac:(unfold n in *; lia)).
         unfold nb. lia.
      -- intros _. destruct (Z.lt_ge_cases 0 f) as [?|?].
         { rewrite (Hidx2_out 0), (Hidx1_out 0) by lia. by apply Hfirst. }
         rewrite (Hidx2_in 0) by (unfold n in *; lia).
         replace (k + (0 - f)) with k by lia. rewrite Hzero by lia. lia.
      -- rewrite load_memmove_outside by (unfold nb; lia). exact Htail_v.
      -- intros i Hi. rewrite Hidx2_out, Hidx1_out by (unfold n in *; lia).
         apply Hit. lia.
      -- rewrite len_memmove by (unfold nb; lia). done.
      -- unfold idx2. rewrite len_memmove by (unfold n in *; lia). lia.
    * rewrite load_app by (unfold nb; lia). rewrite Z.add_0_l. f_equal.
      -- apply load_memmove_outside; unfold nb; lia.
      -- rewrite load_memmove_dst by (unfold nb; lia). exact Hblock.
- assert (v = k) as Hvk by lia. rewrite Hvk.
  split; [by rewrite <- Hvk|]. split; [lia|]. split; [lia|].
  split; [exact Hinv|].
  rewrite Z.sub_diag. unfold load at 3. simpl. by rewrite app_nil_r.
Qed.

Lemma varlen_loop_spec D : forall st k,
inv_of st k -> irow_of_blk_to_keep st = k -> increasing_in k N D ->
let st' := loop S N D st in
irow_of_blk_to_fill st'
  = irow_of_blk_to_fill st + (N - k) - Z.of_nat (length D) /\
inv_of st' N /\
load (data st') 0 (nbytes_var_data_to_keep st')
  = load (data st) 0 (nbytes_var_data_to_keep st)
    ++ surviving_payload im0 dm0 (survivors_from k N D).
Proof.
induction D as [|d D IH]; intros st k Hinv Hkeep HD; cbv zeta.
- pose proof Hinv as [? ? _ _ _ _ _ _ _ _ _ _].
  destruct (varlen_step_spec st k true 0 Hinv Hkeep ltac:(simpl; lia))
    as (_ & Hf & _ & Hinv' & Hfront).
  cbn [loop length]. split; [lia|]. split; [done|].
  rewrite Hfront, survivors_from_nil.
  rewrite surviving_payload_seqZ by lia.
  by replace (k + (N - k)) with N by lia.
- pose proof Hinv as [? ? _ _ _ _ _ _ _ _ _ _]. destruct HD as [Hd HD].
  destruct (varlen_step_spec st k false d Hinv Hkeep ltac:(simpl; lia))
    as (Hk' & Hf' & _ & Hinv' & Hfront).
  rewrite u64_small, i64_small in Hk' by lia.
  apply varlen_inv_advance in Hinv'; [|lia].
  destruct (IH _ _ Hinv' Hk' HD) as (Hf2 & Hinv2 & Hfront2).
  cbn [loop length]. split; [lia|]. split; [done|].
  rewrite Hfront2, Hfront.
  rewrite survivors_from_cons by (split; [lia|exact HD]).
  unfold surviving_payload at 2. rewrite flat_map_app.
  fold (surviving_payload im0 dm0 (seqZ k (d - k))).
  rewrite surviving_payload_seqZ by lia.
  replace (k + (d - k)) with d by lia.
  by rewrite <- app_assoc.
Qed.

End varlen.

(** What lines 576-630 and 717-727 do to the buffers of a
    variable-length column. *)
Lemma varlen_vacuum_buffers_spec (finfo : FragmentInfo)
    (bufs : ChunkBuffers) (ib : AbstractBuffer) (frag_offsets : list Z) :
  let N := physicalNumTuples finfo in
  let dm := mem (buffer bufs) in
  let im := mem ib in
  let nrows_to_keep := N - vsize frag_offsets in
  index_buf bufs = Some ib ->
  0 <= N -> 4 * (N + 1) <= Mem.len im -> 4 * (N + 1) < 2 ^ 63 ->
  buf_size (buffer bufs) <= Mem.len dm -> buf_size (buffer bufs) < 2 ^ 31 ->
  offsets_wf im N (buf_size (buffer bufs)) ->
  increasing_in 0 N frag_offsets ->
  exists bufs' ib',
    varlen_vacuum_buffers finfo frag_offsets (u64 nrows_to_keep) bufs = Some bufs' /\
    index_buf bufs' = Some ib' /\
    offsets_wf (mem ib') nrows_to_keep (buf_size (buffer bufs')) /\
    Mem.load (mem (buffer bufs')) 0 (buf_size (buffer bufs'))
      = surviving_payload im dm (survivors N frag_offsets) /\
    buf_size ib' = 4 * (if nrows_to_keep =? 0 then 0 else nrows_to_keep + 1) /\
    (is_updated (buffer bufs') = true /\ is_updated ib' = true /\
     num_elems (encoder (buffer bufs')) = nrows_to_keep /\
     Mem.len (mem (buffer bufs')) = Mem.len dm).
Proof.
  intros N dm im K Hib HN Him Hrange HS HS31 Hwf HD.
  pose proof (increasing_in_length _ _ _ HD HN) as HlenD.
  unfold varlen_vacuum_buffers, vacuum_varlen_rows. rewrite Hib.
  fold N dm im.
  set (st0 := Varlen.init dm im).
  assert (inv_of N (buf_size (buffer bufs)) dm im st0 0) as Hinv.
  { destruct Hwf as (H0 & _ & _).
    split; simpl; try done; try lia. }
  destruct (varlen_loop_spec N (buf_size (buffer bufs)) dm im HN Him Hrange HS HS31
              Hwf frag_offsets st0 0 Hinv eq_refl HD) as (Hf & Hinv' & Hfront).
  set (st' := Varlen.loop (buf_size (buffer bufs)) N frag_offsets st0) in *.
  simpl in Hf. unfold inv_of in Hinv'. rewrite Hf in Hinv'.
  replace (0 + (N - 0) - Z.of_nat (length frag_offsets)) with K in Hinv'
    by (unfold K, vsize; lia).
  destruct Hinv' as [HfK _ Hnv _ Hzero Hsorted Hbelow Hfirst _ _ Hld Hli].
  set (S' := Varlen.nbytes_var_data_to_keep st') in *.
  destruct Hwf as (_ & HNS & _). rewrite HNS in Hnv.
  assert (Hfront' : Mem.load (Varlen.data st') 0 S'
                    = surviving_payload im dm (survivors N frag_offsets))
    by exact Hfront.
  clear Hfront Hf Hinv. clearbody S' K st'. clear st0. clearbody N dm im.
  rewrite (u64_small K) by lia.
  eexists _, _. split; [reflexivity|]. cbn [with_index_buf index_buf fmap option_fmap option_map].
  split; [reflexivity|].
  cbn [with_buffer buffer setUpdated setSize setMem setEncoder mem buf_size].
  rewrite (i32_small S') by lia.
  assert (4 * K + 4 <= Mem.len (Varlen.indices st')) as Hcap by lia.
  assert (- 2 ^ 31 <= S' < 2 ^ 31) as HS'r by lia.
  assert (i32 S' = S') as Hi32 by (apply i32_small; exact HS'r).
  split; [|split; [|split]].
  - split; [|split].
    + destruct (Z.eq_dec K 0) as [HK|HK].
      * rewrite HK, load_store_i32_same by lia. rewrite Hi32. by apply Hzero.
      * rewrite load_store_i32_other by lia. apply Hfirst. lia.
    + rewrite load_store_i32_same by lia. exact Hi32.
    + intros i Hi. destruct (Z.eq_dec (i + 1) K) as [HiK|HiK].
      * rewrite HiK. rewrite load_store_i32_same, load_store_i32_other by lia.
        rewrite Hi32. apply Hbelow. lia.
      * rewrite !load_store_i32_other by lia. apply Hsorted; lia.
  - exact Hfront'.
  - unfold Varlen.index_element_size.
    destruct (Z.eqb_spec K 0) as [HK|HK]; [done|].
    rewrite (u64_small (1 + K)) by lia. rewrite u64_small by lia. lia.
  - cbn [is_updated encoder setNumElems num_elems]. done.
Qed.

(** The [varlen_vacuum] job in terms of what it does to the buffers. *)
Lemma varlen_vacuum_unfold (cat : Catalog) (fragment : Z) (frag_offsets : list Z)
    (nrows_to_keep : Z) (chunk : Chunk) (s : Machine) :
  varlen_vacuum cat fragment frag_offsets nrows_to_keep chunk s
  = (let* finfo := fragment_at fragment in
     let* bufs := get_buffers chunk in
     let* bufs := CHECK_some
                    (varlen_vacuum_buffers finfo frag_offsets nrows_to_keep bufs) in
     let* _ := put_buffers chunk bufs in
     set_chunk_metadata cat fragment chunk nrows_to_keep) s.
Proof.
  unfold varlen_vacuum, varlen_vacuum_buffers, bind.
  destruct (fragment_at fragment s) as [[finfo|?|] s1]; [|done..].
  destruct (get_buffers chunk s1) as [[bufs|?|] s2]; [|done..].
  destruct (vacuum_varlen_rows finfo bufs frag_offsets) as [[b1 n1]|]; reflexivity.
Qed.

(** X1. On a fragment of [N] rows, for a variable-length column whose
    offset array is well formed for its [N] rows and its data buffer,
    and a strictly increasing list of deleted offsets within [0, N), the
    [varlen_vacuum] job succeeds and leaves: an offset array that is well
    formed for the rows kept and the new data size (it starts at 0, is
    non-decreasing, and ends at the data buffer's size); in the first
    [size] bytes of the data the payloads of the surviving rows in their
    original order; the offset buffer's size at
    [sizeof(offsetT) * (kept == 0 ? 0 : kept + 1)]; both buffers marked
    updated and the encoder's element count at the rows kept; and in the
    roll's shadow metadata of the column the rows kept as [numElements]
    and the data buffer's size as [numBytes]. *)
Theorem varlen_vacuum_compacts (cat : Catalog) (fragment : Z) (chunk : Chunk)
    (finfo : FragmentInfo) (bufs : ChunkBuffers) (ib : AbstractBuffer)
    (frag_offsets : list Z) (s : Machine) :
  let N := physicalNumTuples finfo in
  let nrows_to_keep := N - vsize frag_offsets in
  fragments s !! fragment = Some finfo ->
  buffers s !! key_of chunk = Some bufs ->
  index_buf bufs = Some ib ->
  0 <= N -> 4 * (N + 1) <= Mem.len (mem ib) -> 4 * (N + 1) < 2 ^ 63 ->
  buf_size (buffer bufs) <= Mem.len (mem (buffer bufs)) ->
  buf_size (buffer bufs) < 2 ^ 31 ->
  offsets_wf (mem ib) N (buf_size (buffer bufs)) ->
  increasing_in 0 N frag_offsets ->
  exists s' bufs' ib' md,
    varlen_vacuum cat fragment frag_offsets (u64 nrows_to_keep) chunk s = (Ok tt, s') /\
    buffers s' !! key_of chunk = Some bufs' /\
    index_buf bufs' = Some ib' /\
    offsets_wf (mem ib') nrows_to_keep (buf_size (buffer bufs')) /\
    Mem.load (mem (buffer bufs')) 0 (buf_size (buffer bufs'))
      = surviving_payload (mem ib) (mem (buffer bufs)) (survivors N frag_offsets) /\
    buf_size ib' = 4 * (if nrows_to_keep =? 0 then 0 else nrows_to_keep + 1) /\
    is_updated (buffer bufs') = true /\ is_updated ib' = true /\
    num_elems (encoder (buffer bufs')) = nrows_to_keep /\
    shadow_entry s' (td_ptr_of cat (cd_tableId (column_desc chunk)), fragment)
      (columnId (column_desc chunk)) = Some md /\
    numElements md = nrows_to_keep /\ numBytes md = buf_size (buffer bufs').
Proof.
  intros N K Hfrag Hbufs Hib HN Him Hrange HS HS31 Hwf HD.
  destruct (varlen_vacuum_buffers_spec finfo bufs ib frag_offsets
              Hib HN Him Hrange HS HS31 Hwf HD)
    as (bufs' & ib' & Hrun & Hib' & Hwf' & Hdata & Hsz & Hup & Hupi & Hne & _).
  fold N K in Hrun, Hwf', Hsz, Hne.
  pose proof (increasing_in_length _ _ _ HD HN) as HlenD.
  assert (u64 K = K) as HK
    by (apply u64_small; unfold K, vsize; clearbody N; lia).
  rewrite HK in Hrun |- *.
  assert (fragments (set_buffers <[key_of chunk := bufs']> s) !! fragment = Some finfo)
    as Hfrag' by exact Hfrag.
  assert (buffers (set_buffers <[key_of chunk := bufs']> s) !! key_of chunk = Some bufs')
    as Hbufs' by apply lookup_insert_eq.
  pose proof (set_chunk_metadata_ok cat fragment chunk K finfo bufs' _ Hfrag' Hbufs')
    as Hmeta.
  eexists _, bufs', ib', _. split.
  { rewrite varlen_vacuum_unfold.
    rewrite (bind_Ok _ _ _ _ _ (fragment_at_Ok fragment finfo s Hfrag)).
    rewrite (bind_Ok _ _ _ _ _ (get_buffers_Ok chunk bufs s Hbufs)).
    rewrite Hrun. unfold bind at 1, CHECK_some at 1, ret at 1.
    unfold bind at 1, put_buffers at 1, modify at 1.
    exact Hmeta. }
  split; [exact Hbufs'|].
  split; [exact Hib'|]. split; [exact Hwf'|]. split; [exact Hdata|].
  split; [exact Hsz|]. split; [exact Hup|]. split; [exact Hupi|].
  split; [exact Hne|].
  unfold shadow_entry. cbn [updel_roll set_roll chunkMetadata].
  rewrite lookup_insert_eq. cbn [mbind option_bind]. rewrite lookup_insert_eq.
  done.
Qed.

(** X1 on four rows "foo", "bar", "baz", "qux" with rows 1 and 3
    deleted: the data buffer keeps "foobaz", the offset buffer is three
    offsets long, and the shadow metadata counts two rows. *)
Lemma varlen_vacuum_four_words :
  exists s' bufs' ib' md,
    varlen_vacuum (Examples.the_catalog DISK_LEVEL Examples.x_words) 100 [1; 3] 2
      Examples.words_chunk Examples.four_words_machine = (Ok tt, s') /\
    buffers s' !! key_of Examples.words_chunk = Some bufs' /\
    index_buf bufs' = Some ib' /\
    Mem.load (mem (buffer bufs')) 0 (buf_size (buffer bufs'))
    = Examples.bytes_of "foobaz" /\
    Mem.load (mem ib') 0 (buf_size ib') = Examples.pack 4 [0; 3; 6] /\
    numElements md = 2.
Proof.
  destruct (varlen_vacuum_compacts (Examples.the_catalog DISK_LEVEL Examples.x_words)
              100 Examples.words_chunk Examples.four_rows Examples.four_words
              (Examples.a_buffer (Examples.pack 4 [0; 3; 6; 9; 12]) 4
                 (Examples.stats 0 0 false))
              [1; 3] Examples.four_words_machine)
    as (s' & bufs' & ib' & md & Hrun & Hb & Hib & Hwf & Hdata & Hsz & _ & _ & _
        & _ & Hn & _).
  - reflexivity.
  - reflexivity.
  - reflexivity.
  - vm_compute. discriminate.
  - vm_compute. discriminate.
  - vm_compute. reflexivity.
  - vm_compute. discriminate.
  - vm_compute. reflexivity.
  - split; [reflexivity|]. split; [reflexivity|].
    intros i Hi. simpl in Hi.
    assert (i = 0 \/ i = 1 \/ i = 2 \/ i = 3) as [->|[->|[->| ->]]] by lia;
      vm_compute; discriminate.
  - simpl. lia.
  - exists s', bufs', ib', md. split; [exact Hrun|]. split; [exact Hb|].
    split; [exact Hib|].
    change (varlen_vacuum (Examples.the_catalog DISK_LEVEL Examples.x_words) 100
              [1; 3] (u64 (4 - 2)) Examples.words_chunk Examples.four_words_machine
            = (Ok tt, s')) in Hrun.
    vm_compute in Hrun. injection Hrun as <-.
    vm_compute in Hb. injection Hb as <-.
    vm_compute in Hib. injection Hib as <-.
    split; [vm_compute; reflexivity|]. split; [vm_compute; reflexivity|].
    exact Hn.
Defined.

(** ** The [fixlen_vacuum] job *)

(** The [fixlen_vacuum] job in terms of what it does to the buffers. *)
Lemma fixlen_vacuum_unfold `{TypedDataAccessors} (cat : Catalog) (fragment : Z)
    (frag_offsets : list Z) (nrows_to_keep : Z) (chunk : Chunk) (st : ThreadStats)
    (s : Machine) :
  fixlen_vacuum cat fragment frag_offsets nrows_to_keep chunk st s
  = (let cd := column_desc chunk in
     let col_type := columnType cd in
     let* finfo := fragment_at fragment in
     let* bufs := get_buffers chunk in
     let* _ := put_buffers chunk
                 (fixlen_vacuum_buffers finfo cd frag_offsets nrows_to_keep bufs) in
     let* _ := set_chunk_metadata cat fragment chunk nrows_to_keep in
     let* bufs := get_buffers chunk in
     let '(b, st') :=
       fixlen_stats_loop col_type (vacuum_element_size col_type)
         (Z.to_nat nrows_to_keep) 0 0 (buffer bufs) st in
     let* _ := put_buffers chunk (with_buffer (fun _ => b) bufs) in
     ret st') s.
Proof.
  unfold fixlen_vacuum, fixlen_vacuum_buffers, bind.
  destruct (fragment_at fragment s) as [[finfo|?|] s1]; [|done..].
  destruct (get_buffers chunk s1) as [[bufs|?|] s2]; [|done..].
  destruct (vacuum_fixlen_rows finfo (column_desc chunk) bufs frag_offsets)
    as [b1 n1]; reflexivity.
Qed.

(** The statistics loop reads the buffer; it changes at most the
    encoder, and that for a fixed-length array only. *)
Lemma fixlen_stats_loop_buffer `{TypedDataAccessors} (col_type : SQLTypeInfo)
    (element_size : Z) (n : nat) (data_addr : Z) :
  forall (daddr : Z) (b : AbstractBuffer) (st : ThreadStats),
  let b' := fst (fixlen_stats_loop col_type element_size n data_addr daddr b st) in
  mem b' = mem b /\ buf_size b' = buf_size b /\ is_updated b' = is_updated b /\
  (is_fixlen_array col_type = false -> b' = b).
Proof.
  induction n as [|n IH]; intros daddr b st; [done|].
  cbn [fixlen_stats_loop]. destruct (is_fixlen_array col_type) eqn:Harr.
  - cbn iota beta.
    destruct (IH (daddr + element_size)
                (setEncoder b (fixlen_array_updateMetadata (encoder b) (mem b) daddr))
                st) as (Hm & Hs & Hu & _).
    cbv zeta in *. rewrite Hm, Hs, Hu. done.
  - destruct (is_fp col_type); cbn iota beta; apply IH.
Qed.

(** C1. On a fragment of [N] rows, for a fixed-length column of
    [es]-byte elements whose buffer holds the [N] rows, and a strictly
    increasing list [D] of deleted offsets within [0, N):
    [vacuum_fixlen_rows] returns [(N - |D|) * es] and changes only the
    memory of the data buffer, and the [fixlen_vacuum] job succeeds and
    leaves in the first [(N - |D|) * es] bytes of the buffer the bytes of
    the surviving rows in their original order, the buffer's size at
    that byte count and the buffer marked updated, the encoder's element
    count at [N - |D|] (for a column that is not a fixed-length array,
    whose encoder the statistics loop leaves alone), and in the roll's
    shadow metadata of the column [N - |D|] as [numElements] and the byte
    count as [numBytes]. *)
Theorem fixlen_vacuum_compacts `{TypedDataAccessors} (cat : Catalog)
    (fragment : Z) (chunk : Chunk) (finfo : FragmentInfo) (bufs : ChunkBuffers)
    (frag_offsets : list Z) (st : ThreadStats) (s : Machine) :
  let cd := column_desc chunk in
  let es := vacuum_element_size (columnType cd) in
  let N := physicalNumTuples finfo in
  let nrows_to_keep := N - vsize frag_offsets in
  fragments s !! fragment = Some finfo ->
  buffers s !! key_of chunk = Some bufs ->
  0 < es -> 0 <= N -> N * es <= Mem.len (mem (buffer bufs)) -> N * es < 2 ^ 63 ->
  increasing_in 0 N frag_offsets ->
  exists st' s' bufs' md,
    fixlen_vacuum cat fragment frag_offsets (u64 nrows_to_keep) chunk st s
    = (Ok st', s') /\
    buffers s' !! key_of chunk = Some bufs' /\
    vacuum_fixlen_rows finfo cd bufs frag_offsets
    = (with_buffer (fun b => setMem b (mem (buffer bufs'))) bufs,
       nrows_to_keep * es) /\
    Mem.load (mem (buffer bufs')) 0 (nrows_to_keep * es)
    = surviving_bytes es (mem (buffer bufs)) (survivors N frag_offsets) /\
    buf_size (buffer bufs') = nrows_to_keep * es /\
    is_updated (buffer bufs') = true /\
    index_buf bufs' = index_buf bufs /\
    (is_fixlen_array (columnType cd) = false ->
     num_elems (encoder (buffer bufs')) = nrows_to_keep) /\
    shadow_entry s' (td_ptr_of cat (cd_tableId cd), fragment) (columnId cd)
    = Some md /\
    numElements md = nrows_to_keep /\ numBytes md = nrows_to_keep * es.
Proof.
  intros cd es N K Hfrag Hbufs Hes HN Hcap Hrange HD.
  pose proof (increasing_in_length _ _ _ HD HN) as HlenD.
  assert (u64 K = K) as HK.
  { apply u64_small. unfold K, vsize. clearbody N es.
    assert (N <= N * es) by nia. lia. }
  pose proof (vacuum_fixlen_rows_keeps_survivors finfo cd bufs frag_offsets
                Hes HN Hcap Hrange HD) as Hmember.
  fold es N in Hmember.
  destruct (vacuum_fixlen_rows finfo cd bufs frag_offsets) as [bufs1 nbytes] eqn:Hv.
  destruct Hmember as (Hnb & Hfront & Hlen & Hbufs1). fold K in Hnb.
  set (bufs2 := fixlen_vacuum_buffers finfo cd frag_offsets K bufs).
  assert (bufs2 = with_buffer (fun b =>
            setUpdated (setSize (setEncoder b (setNumElems (encoder b) K)) nbytes))
            bufs1) as Hbufs2
    by (unfold bufs2, fixlen_vacuum_buffers; by rewrite Hv).
  set (s1 := set_buffers <[key_of chunk := bufs2]> s).
  assert (fragments s1 !! fragment = Some finfo) as Hfrag1 by exact Hfrag.
  assert (buffers s1 !! key_of chunk = Some bufs2) as Hbufs1'
    by apply lookup_insert_eq.
  pose proof (set_chunk_metadata_ok cat fragment chunk K finfo bufs2 s1 Hfrag1 Hbufs1')
    as Hmeta.
  match type of Hmeta with _ = (Ok tt, ?x) => set (s2 := x) in Hmeta end.
  assert (buffers s2 !! key_of chunk = Some bufs2) as Hbufs2' by exact Hbufs1'.
  destruct (fixlen_stats_loop (columnType cd) es (Z.to_nat K) 0 0 (buffer bufs2) st)
    as [b st'] eqn:Hloop.
  pose proof (fixlen_stats_loop_buffer (columnType cd) es (Z.to_nat K) 0 0
                (buffer bufs2) st) as Hb.
  rewrite Hloop in Hb. cbn [fst] in Hb. destruct Hb as (Hbm & Hbs & Hbu & Hbe).
  exists st', (set_buffers <[key_of chunk := with_buffer (fun _ => b) bufs2]> s2),
    (with_buffer (fun _ => b) bufs2).
  eexists. split.
  { rewrite fixlen_vacuum_unfold. cbv zeta. fold cd. rewrite HK.
    rewrite (bind_Ok _ _ _ _ _ (fragment_at_Ok fragment finfo s Hfrag)).
    rewrite (bind_Ok _ _ _ _ _ (get_buffers_Ok chunk bufs s Hbufs)).
    fold bufs2. unfold bind at 1, put_buffers at 1, modify at 1. fold s1.
    rewrite (bind_Ok _ _ _ _ _ Hmeta).
    rewrite (bind_Ok _ _ _ _ _ (get_buffers_Ok chunk bufs2 s2 Hbufs2')).
    fold es. rewrite Hloop. reflexivity. }
  split; [apply lookup_insert_eq|].
  cbn [with_buffer buffer index_buf]. rewrite Hbm, Hbs, Hbu.
  rewrite Hbufs2. cbn [with_buffer buffer index_buf mem buf_size is_updated setUpdated
                       setSize setEncoder].
  split; [by rewrite Hnb, <- Hbufs1|].
  split; [by rewrite <- Hnb|].
  split; [exact Hnb|].
  split; [done|].
  split; [by rewrite Hbufs1|].
  split.
  { intros Harr. rewrite (Hbe Harr), Hbufs2. reflexivity. }
  unfold shadow_entry. cbn [updel_roll set_roll set_buffers chunkMetadata s2].
  rewrite lookup_insert_eq. cbn [mbind option_bind]. rewrite lookup_insert_eq.
  split; [reflexivity|]. cbn [numElements numBytes].
  split; [reflexivity|].
  change (buf_size (buffer bufs2) = K * es). rewrite Hbufs2. exact Hnb.
Qed.

(** C1 on the [BIGINT] column [A, B, C, D, E] with the offsets [1, 3]
    deleted: the buffer starts with [A, C, E], its size is 24 bytes, the
    encoder counts 3 elements, and the shadow metadata of the column has
    [numElements] 3 and [numBytes] 24. *)
Lemma fixlen_vacuum_bigint_scenario :
  exists st' s' bufs' md,
    fixlen_vacuum (H := Reference.accessors)
      (Examples.the_catalog DISK_LEVEL Examples.x_bigint) 100 [1; 3] 3
      Examples.bigint_chunk compactRows_init_stats Examples.ABCDE_machine
    = (Ok st', s') /\
    buffers s' !! key_of Examples.bigint_chunk = Some bufs' /\
    Mem.load (mem (buffer bufs')) 0 24
    = Examples.pack 8 [Examples.A; Examples.C; Examples.E] /\
    buf_size (buffer bufs') = 24 /\
    is_updated (buffer bufs') = true /\
    num_elems (encoder (buffer bufs')) = 3 /\
    shadow_entry s' (Some 7, 100) 1 = Some md /\
    numElements md = 3 /\ numBytes md = 24.
Proof.
  destruct (fixlen_vacuum_compacts (H := Reference.accessors)
              (Examples.the_catalog DISK_LEVEL Examples.x_bigint) 100
              Examples.bigint_chunk Examples.five_rows Examples.ABCDE [1; 3]
              compactRows_init_stats Examples.ABCDE_machine)
    as (st' & s' & bufs' & md & Hrun & Hb & _ & Hfront & Hsz & Hup & _ & Hne
        & Hmd & Hn & Hnb).
  - reflexivity.
  - reflexivity.
  - vm_compute. reflexivity.
  - vm_compute. discriminate.
  - vm_compute. discriminate.
  - vm_compute. reflexivity.
  - simpl. lia.
  - exists st', s', bufs', md.
    split; [exact Hrun|]. split; [exact Hb|].
    change ((physicalNumTuples Examples.five_rows - vsize [1; 3])
            * vacuum_element_size (H := Reference.accessors)
                (columnType (column_desc Examples.bigint_chunk)))
      with 24 in Hfront, Hsz, Hnb.
    split; [rewrite Hfront; vm_compute; reflexivity|].
    split; [exact Hsz|]. split; [exact Hup|].
    split; [exact (Hne eq_refl)|].
    split; [exact Hmd|]. split; [exact Hn|exact Hnb].
Defined.

(** ** Reasoning about computations *)

Section monad_lemmas.
Context {St : Type}.

Lemma never_throws_ret {A} (a : A) : never_throws (ret a : M St A).
Proof. by intros s what s'. Qed.

Lemma never_throws_fatal {A} : never_throws (fatal : M St A).
Proof. by intros s what s'. Qed.

Lemma never_throws_gets {A} (f : St -> A) : never_throws (gets f).
Proof. by intros s what s'. Qed.

Lemma never_throws_modify (f : St -> St) : never_throws (modify f).
Proof. by intros s what s'. Qed.

Lemma never_throws_CHECK b : never_throws (CHECK b : M St unit).
Proof. by destruct b; intros s what s'. Qed.

Lemma never_throws_CHECK_some {A} (o : option A) : never_throws (CHECK_some o : M St A).
Proof. by destruct o; intros s what s'. Qed.

Lemma never_throws_bind {A B} (m : M St A) (k : A -> M St B) :
never_throws m -> (forall a, never_throws (k a)) -> never_throws (bind m k).
Proof.
intros Hm Hk s what s'. unfold bind.
destruct (m s) as [[a|what'|] s1] eqn:Hms; [apply Hk| |done].
intros Heq. by apply (Hm s what' s1).
Qed.

Lemma preserves_ret {A X} (f : St -> X) (a : A) : preserves f (ret a).
Proof. intros s r s' [= _ <-]. done. Qed.

Lemma preserves_fatal {A X} (f : St -> X) : preserves f (fatal : M St A).
Proof. intros s r s' [= _ <-]. done. Qed.

Lemma preserves_throw {A X} (f : St -> X) what : preserves f (throw what : M St A).
Proof. intros s r s' [= _ <-]. done. Qed.

Lemma preserves_gets {A X} (f : St -> X) (g : St -> A) : preserves f (gets g).
Proof. intros s r s' [= _ <-]. done. Qed.

Lemma preserves_modify {X} (f : St -> X) (g : St -> St) :
(forall s, f (g s) = f s) -> preserves f (modify g).
Proof. intros Hg s r s' [= _ <-]. apply Hg. Qed.

Lemma preserves_CHECK {X} (f : St -> X) b : preserves f (CHECK b).
Proof. destruct b; [apply preserves_ret|apply preserves_fatal]. Qed.

Lemma preserves_CHECK_some {A X} (f : St -> X) (o : option A) :
preserves f (CHECK_some o).
Proof. destruct o; [apply preserves_ret|apply preserves_fatal]. Qed.

Lemma preserves_lift {A X} (f : St -> X) (r0 : outcome A) :
preserves f (fun s => (r0, s)).
Proof. intros s r s' [= _ <-]. done. Qed.

Lemma preserves_bind {A B X} (f : St -> X) (m : M St A) (k : A -> M St B) :
preserves f m -> (forall a, preserves f (k a)) -> preserves f (bind m k).
Proof.
intros Hm Hk s r s'. unfold bind.
destruct (m s) as [[a|what|] s1] eqn:Hms.
- intros Hks. rewrite (Hk _ _ _ _ Hks). eapply Hm, Hms.
- intros [= _ <-]. eapply Hm, Hms.
- intros [= _ <-]. eapply Hm, Hms.
Qed.

Lemma throw_keeps_preserves {A X} (f : St -> X) (m : M St A) :
preserves f m -> throw_keeps f m.
Proof. intros Hm s what s' Hms. eapply Hm, Hms. Qed.

Lemma throw_keeps_never_throws {A X} (f : St -> X) (m : M St A) :
never_throws m -> throw_keeps f m.
Proof. intros Hm s what s' Hms. by apply Hm in Hms. Qed.

Lemma throw_keeps_bind {A B X} (f : St -> X) (m : M St A) (k : A -> M St B) :
preserves f m -> (forall a, throw_keeps f (k a)) -> throw_keeps f (bind m k).
Proof.
intros Hm Hk s what s'. unfold bind.
destruct (m s) as [[a|what'|] s1] eqn:Hms.
- intros Hks. rewrite (Hk _ _ _ _ Hks). eapply Hm, Hms.
- intros [= _ <-]. eapply Hm, Hms.
- done.
Qed.

Lemma throw_keeps_bind_then_quiet {A B X} (f : St -> X) (m : M St A) (k : A -> M St B) :
throw_keeps f m -> (forall a, never_throws (k a)) -> throw_keeps f (bind m k).
Proof.
intros Hm Hk s what s'. unfold bind.
destruct (m s) as [[a|what'|] s1] eqn:Hms.
- intros Hks. by apply Hk in Hks.
- intros [= _ <-]. eapply Hm, Hms.
- done.
Qed.

Lemma never_throws_for_each {A} (l : list A) (body : A -> M St unit) :
(forall a, never_throws (body a)) -> never_throws (for_each l body).
Proof.
intros Hb. induction l as [|a l IH]; simpl.
- apply never_throws_ret.
- apply never_throws_bind; [apply Hb|]. intros _. exact IH.
Qed.

End monad_lemmas.

(** Break a computation into its steps. *)
Ltac quiet_step :=
  first
    [ apply never_throws_bind; [|intros ?]
    | apply never_throws_ret | apply never_throws_fatal | apply never_throws_gets
    | apply never_throws_modify | apply never_throws_CHECK
    | apply never_throws_CHECK_some
    | match goal with
      | |- never_throws (match ?x with _ => _ end) => destruct x
      | |- never_throws (if ?b then _ else _) => destruct b
      | |- never_throws (let '(_, _) := ?p in _) => destruct p
      end ].

Ltac frame_step :=
  first
    [ apply preserves_bind; [|intros ?]
    | apply preserves_ret | apply preserves_fatal | apply preserves_throw
    | apply preserves_gets | apply preserves_CHECK | apply preserves_CHECK_some
    | apply preserves_lift
    | apply preserves_modify; intros ?; unfold shadow_metadata; simpl;
      repeat case_match; reflexivity
    | match goal with
      | |- preserves _ (match ?x with _ => _ end) => destruct x
      | |- preserves _ (if ?b then _ else _) => destruct b
      | |- preserves _ (let '(_, _) := ?p in _) => destruct p
      end ].

Section frames.
Context `{TypedDataAccessors}.
Variables (cpu_threads : Z) (unconditionalVacuum_ : bool).
Variables (this : Fragmenter) (catalog_ : Catalog).

Lemma get_buffers_quiet ch : never_throws (get_buffers ch).
Proof. unfold get_buffers. repeat quiet_step. Qed.

Lemma put_buffers_quiet ch b : never_throws (put_buffers ch b).
Proof. unfold put_buffers. repeat quiet_step. Qed.

Lemma fragment_at_quiet a : never_throws (fragment_at a).
Proof. unfold fragment_at. repeat quiet_step. Qed.

Lemma set_chunk_metadata_quiet cat fragment chunk n :
never_throws (set_chunk_metadata cat fragment chunk n).
Proof.
unfold set_chunk_metadata.
apply never_throws_bind; [apply get_buffers_quiet|intros ?].
apply never_throws_bind; [apply fragment_at_quiet|intros ?].
repeat quiet_step.
Qed.

Lemma updateColumnMetadata_quiet cd fragment chunk hn maxd mind maxi mini rhs_type :
never_throws (updateColumnMetadata cd fragment chunk hn maxd mind maxi mini rhs_type).
Proof.
unfold updateColumnMetadata.
do 2 (apply never_throws_bind; [repeat quiet_step|intros ?]).
apply never_throws_bind; [apply fragment_at_quiet|intros ?].
do 2 (apply never_throws_bind; [repeat quiet_step|intros ?]).
apply never_throws_bind; [apply get_buffers_quiet|intros ?].
apply never_throws_bind; [apply put_buffers_quiet|intros ?].
repeat quiet_step.
Qed.

Lemma fixlen_vacuum_quiet cat fragment offs n chunk st :
never_throws (fixlen_vacuum cat fragment offs n chunk st).
Proof.
unfold fixlen_vacuum.
apply never_throws_bind; [apply fragment_at_quiet|intros ?].
apply never_throws_bind; [apply get_buffers_quiet|intros ?].
apply never_throws_bind; [apply put_buffers_quiet|intros ?].
apply never_throws_bind; [apply set_chunk_metadata_quiet|intros ?].
apply never_throws_bind; [apply get_buffers_quiet|intros ?].
destruct (fixlen_stats_loop _ _ _ _ _ _ _).
apply never_throws_bind; [apply put_buffers_quiet|intros ?].
repeat quiet_step.
Qed.

Lemma varlen_vacuum_quiet cat fragment offs n chunk :
never_throws (varlen_vacuum cat fragment offs n chunk).
Proof.
unfold varlen_vacuum.
apply never_throws_bind; [apply fragment_at_quiet|intros ?].
apply never_throws_bind; [apply get_buffers_quiet|intros ?].
apply never_throws_bind; [repeat quiet_step|intros [? ?]].
apply never_throws_bind; [apply put_buffers_quiet|intros ?].
apply set_chunk_metadata_quiet.
Qed.

Lemma vacuum_columns_quiet cat fragment offs n chunks : forall ci per_thread,
never_throws (vacuum_columns cat fragment offs n chunks ci per_thread).
Proof.
induction chunks as [|chunk chunks IH]; intros ci per_thread; simpl.
- apply never_throws_ret.
- apply never_throws_bind; [|intros ?; apply IH].
  destruct (is_varlen_indeed _).
  + apply never_throws_bind; [apply varlen_vacuum_quiet|intros ?].
    apply never_throws_ret.
  + apply never_throws_bind; [apply fixlen_vacuum_quiet|intros ?].
    apply never_throws_ret.
Qed.

Lemma compactRows_metadata_quiet fragment chunks : forall ci per_thread,
never_throws (compactRows_metadata fragment chunks ci per_thread).
Proof.
induction chunks as [|chunk chunks IH]; intros ci per_thread; simpl.
- apply never_throws_ret.
- apply never_throws_bind; [|intros ?; apply IH].
  destruct (negb _); [apply updateColumnMetadata_quiet|apply never_throws_ret].
Qed.

Lemma getChunk_frame cd key level : preserves shadow_metadata (getChunk cd key level).
Proof. unfold getChunk. repeat frame_step. Qed.

Lemma get_buffers_frame ch : preserves shadow_metadata (get_buffers ch).
Proof. unfold get_buffers. repeat frame_step. Qed.

Lemma put_buffers_frame ch b : preserves shadow_metadata (put_buffers ch b).
Proof. unfold put_buffers. repeat frame_step. Qed.

Lemma fragment_at_frame a : preserves shadow_metadata (fragment_at a).
Proof. unfold fragment_at. repeat frame_step. Qed.

Lemma getFragmentInfoFromId_frame id :
preserves shadow_metadata (getFragmentInfoFromId this id).
Proof. unfold getFragmentInfoFromId. repeat frame_step. Qed.

Lemma getChunksForAllColumns_loop_frame td finfo level col_ids :
forall ncol chunks,
preserves shadow_metadata
  (getChunksForAllColumns_loop catalog_ td finfo level col_ids ncol chunks).
Proof.
induction col_ids as [|col_id col_ids IH]; intros ncol chunks; simpl.
- destruct (_ <=? _); repeat frame_step.
- destruct (_ <=? _); [apply preserves_ret|].
  destruct (getMetadataForColumn _ _ _); [|apply IH].
  destruct (negb _); [|apply IH].
  apply preserves_bind; [apply preserves_CHECK_some|intros ?].
  apply preserves_bind; [apply getChunk_frame|intros ?]. apply IH.
Qed.

Lemma getVacuumOffsets_frame chunk offs :
preserves shadow_metadata (getVacuumOffsets chunk offs).
Proof.
unfold getVacuumOffsets.
apply preserves_bind; [apply get_buffers_frame|intros ?]. apply preserves_ret.
Qed.

Lemma compactRows_throw_keeps cat td fragment_id offs level :
throw_keeps shadow_metadata
  (compactRows this catalog_ cat td fragment_id offs level).
Proof.
unfold compactRows.
apply throw_keeps_bind; [apply getFragmentInfoFromId_frame|intros ?].
apply throw_keeps_bind; [apply fragment_at_frame|intros ?].
apply throw_keeps_bind;
  [apply getChunksForAllColumns_loop_frame|intros ?].
apply throw_keeps_never_throws.
apply never_throws_bind; [apply vacuum_columns_quiet|intros ?].
apply never_throws_bind; [apply never_throws_modify|intros ?].
apply compactRows_metadata_quiet.
Qed.

(** An [updateColumn] call that ends in an exception has installed no
  shadow metadata and no shadow tuple count. *)
Lemma updateColumn_throw_keeps cat td cd fragment_id offs vals rhs_type level :
throw_keeps shadow_metadata
  (updateColumn cpu_threads unconditionalVacuum_ this catalog_ cat td cd
     fragment_id offs vals rhs_type level).
Proof.
unfold updateColumn.
do 3 (apply throw_keeps_bind; [repeat frame_step|intros ?]).
destruct (0 =? vsize offs); [apply throw_keeps_preserves, preserves_ret|].
apply throw_keeps_bind; [repeat frame_step|intros ?].
apply throw_keeps_bind; [apply getFragmentInfoFromId_frame|intros ?].
apply throw_keeps_bind; [apply fragment_at_frame|intros ?].
apply throw_keeps_bind; [repeat frame_step|intros ?].
apply throw_keeps_bind; [apply getChunk_frame|intros ?].
apply throw_keeps_bind; [repeat frame_step|intros ?].
apply throw_keeps_bind; [apply get_buffers_frame|intros ?].
apply throw_keeps_bind; [apply put_buffers_frame|intros ?].
do 3 (apply throw_keeps_bind; [repeat frame_step|intros ?]).
apply throw_keeps_bind; [apply put_buffers_frame|intros ?].
do 2 (apply throw_keeps_bind; [repeat frame_step|intros ?]).
apply throw_keeps_bind_then_quiet.
- destruct (_ && _); [|apply throw_keeps_preserves, preserves_ret].
  apply throw_keeps_bind; [apply getVacuumOffsets_frame|intros ?].
  destruct (0 <? _); [|apply throw_keeps_preserves, preserves_ret].
  apply throw_keeps_bind_then_quiet; [apply compactRows_throw_keeps|].
  intros ?. apply never_throws_ret.
- intros [|]; [apply never_throws_ret|apply updateColumnMetadata_quiet].
Qed.

End frames.

(** ** [updateColumn] on no rows *)

(** X2. An [updateColumn] call with no row offsets succeeds and leaves
    the buffers, the fragments, the dictionaries and the roll's
    [dirtyChunks], [dirtyChunkeys], [chunkMetadata] and [numTuples] as
    they were; it is not a no-op on the roll: it records the catalog, the
    logical table id and the memory level before it returns. *)
Theorem updateColumn_empty_offsets `{TypedDataAccessors}
    (cpu_threads : Z) (unconditionalVacuum_ : bool) (this : Fragmenter)
    (catalog_ cat : Catalog) (td : TableDescriptor) (cd : ColumnDescriptor)
    (fragment_id : Z) (rhs_values : list ScalarTargetValue)
    (rhs_type : SQLTypeInfo) (memory_level : MemoryLevel) (s : Machine) :
  let '(r, s') :=
    updateColumn cpu_threads unconditionalVacuum_ this catalog_ cat td cd
      fragment_id [] rhs_values rhs_type memory_level s in
  r = Ok tt /\
  buffers s' = buffers s /\ fragments s' = fragments s /\
  stringDicts s' = stringDicts s /\ next_chunk_addr s' = next_chunk_addr s /\
  trace s' = trace s /\
  dirtyChunks (updel_roll s') = dirtyChunks (updel_roll s) /\
  dirtyChunkeys (updel_roll s') = dirtyChunkeys (updel_roll s) /\
  chunkMetadata (updel_roll s') = chunkMetadata (updel_roll s) /\
  numTuples (updel_roll s') = numTuples (updel_roll s) /\
  catalog (updel_roll s') = Some cat /\
  logicalTableId (updel_roll s') = getLogicalTableId cat (td_tableId td) /\
  memoryLevel (updel_roll s') = memory_level.
Proof. cbv [updateColumn bind modify ret vsize length Z.of_nat Z.eqb]. simpl. done. Qed.

(** ** The [NullableString] branch of the worker *)

(** X3. When the right-hand side is a [NullableString] that is null or
    the empty string: for a left-hand column that is not a string the
    worker writes the null sentinel of the column's type at the target
    offset ([put_null]) and sets its [has_null]; for a string column it
    leaves [has_null] alone, stores the index that the dictionary's
    [getOrAdd] gives for the empty string and folds that index into the
    [int64_t] min and max. *)
Theorem write_string_null_or_empty `{TypedDataAccessors}
    (cd : ColumnDescriptor) (stringDict data_ptr : Z) (s : option string)
    (w : Worker) :
  s = None \/ s = Some ""%string ->
  let lhs_type := columnType cd in
  (is_string lhs_type = false ->
   write_string cd stringDict data_ptr s w
   = (Ok tt, {| w_mem := put_null (w_mem w) data_ptr lhs_type;
                w_dicts := w_dicts w;
                w_stats := set_has_null (w_stats w) true;
                w_folded := w_folded w ++ [FoldNull] |})) /\
  (is_string lhs_type = true ->
   let '(r, w') := write_string cd stringDict data_ptr s w in
   has_null (w_stats w') = has_null (w_stats w) /\
   (r = Ok tt ->
    exists dict, w_dicts w !! stringDict = Some dict /\
      let '(sidx, dict') := getOrAdd dict ""%string in
      w_mem w' = put_scalar_int32 (w_mem w) data_ptr lhs_type (i32 sidx) /\
      w_dicts w' = <[stringDict := dict']> (w_dicts w) /\
      w_stats w' = set_minmax_int64 (w_stats w) (i32 sidx) /\
      w_folded w' = w_folded w ++ [FoldInt64 (i32 sidx)])).
Proof.
  intros Hs lhs_type.
  assert (default ""%string s = ""%string) as Hsval by (by destruct Hs as [->| ->]).
  unfold write_string. fold lhs_type. rewrite Hsval. split; intros Hstr; rewrite Hstr.
  - done.
  - unfold bind, gets, CHECK_some, modify, ret, fatal. simpl.
    destruct (w_dicts w !! stringDict) as [dict|] eqn:Hd; simpl; [|done].
    destruct (getOrAdd dict "") as [sidx dict'] eqn:Hg. simpl.
    split; [done|]. intros _. exists dict. split; [done|]. by rewrite Hg.
Qed.

(** X3 on an [INT] column: a null [NullableString] written at row 1 of
    [10, 20, 30] leaves the [INT] null sentinel there and sets [has_null]. *)
Lemma write_string_null_on_int_column :
  let w' := snd (write_string (H := Reference.accessors) Examples.x_int 1 4 None
                   (Examples.a_worker (Examples.pack 4 [10; 20; 30]))) in
  w_mem w' = Examples.pack 4 [10; -2147483648; 30] /\
  has_null (w_stats w') = true.
Proof.
  destruct (write_string_null_or_empty (H := Reference.accessors)
              Examples.x_int 1 4 None
              (Examples.a_worker (Examples.pack 4 [10; 20; 30]))
              (or_introl eq_refl)) as [Hint _].
  rewrite (Hint eq_refl). vm_compute. split; reflexivity.
Defined.

(** On a string column a null [NullableString] written at row 1 stores
    the index of the empty string in the dictionary (2, after "alpha" and
    "beta"), not the null sentinel of the column's type, and [has_null]
    stays false. *)
Lemma write_string_null_on_text_column :
  let w := Examples.a_worker (Examples.pack 4 [0; 1; 0]) in
  let '(r, w') := write_string (H := Reference.accessors) Examples.x_text 1 4 None w in
  r = Ok tt /\
  w_mem w' = Examples.pack 4 [0; 2; 0] /\
  w_mem w' <> put_null (TypedDataAccessors := Reference.accessors)
                (w_mem w) 4 (columnType Examples.x_text) /\
  has_null (w_stats w') = false.
Proof. vm_compute. split_and!; try reflexivity. discriminate. Qed.

(** ** The decimal overflow check of the worker *)

(** X4. For an [int64_t] right-hand side [v] written into a decimal
    column (the validator having let it pass), the worker writes [v],
    reads the stored value back, folds it into the [int64_t] min and max,
    and throws exactly when the value read back and [v] differ in sign
    (one is negative, the other is not).  The exception's message names
    [v] and the (dimension, scale) of both types.  The value is in the
    buffer and in the accumulators either way. *)
Theorem write_int64_decimal_overflow `{TypedDataAccessors}
    (cd : ColumnDescriptor) (rhs_type : SQLTypeInfo) (data_ptr v : Z) (w : Worker) :
  let lhs_type := columnType cd in
  is_decimal lhs_type = true ->
  decimal_validate lhs_type v = None ->
  let m' := put_scalar_int64 (w_mem w) data_ptr lhs_type v (Some rhs_type) in
  let decimal := snd (get_scalar_int64 m' data_ptr lhs_type) in
  write_int64 cd rhs_type data_ptr v w
  = (if Bool.eqb (v <? 0) (decimal <? 0) then Ok tt
     else Throw ("Data conversion overflow on " +:+ to_string v +:+
                 " from DECIMAL(" +:+ to_string (get_dimension rhs_type) +:+
                 ", " +:+ to_string (get_scale rhs_type) +:+ ") to (" +:+
                 to_string (get_dimension lhs_type) +:+ ", " +:+
                 to_string (get_scale lhs_type) +:+ ")"),
     {| w_mem := m'; w_dicts := w_dicts w;
        w_stats := set_minmax_int64 (w_stats w) decimal;
        w_folded := w_folded w ++ [FoldInt64 decimal] |}).
Proof.
  intros lhs_type Hdec Hval m' decimal.
  unfold write_int64. fold lhs_type.
  assert (is_string lhs_type = false) as ->
    by (unfold is_decimal, is_string in *; destruct (family lhs_type); done).
  rewrite Hval, Hdec.
  unfold bind, gets, modify, ret, throw, fold_int64. simpl.
  fold m' decimal. unfold overflow_message. fold lhs_type.
  destruct (Z.leb_spec 0 v), (Z.ltb_spec v 0), (Z.ltb_spec decimal 0);
    try lia; done.
Qed.

(** X4 on a DECIMAL(10, 9) column: 9999999999 taken from a DECIMAL(10, 0)
    right-hand side is rescaled by 10^9, wraps to a negative [int64_t],
    and the worker throws. *)
Lemma write_int64_decimal_overflow_scenario :
  fst (write_int64 (H := Reference.accessors) Examples.x_dec Examples.rhs_dec 8
         9999999999 (Examples.a_worker (Examples.pack 8 [1000000000; 2000000000])))
  = Throw "Data conversion overflow on 9999999999 from DECIMAL(10, 0) to (10, 9)".
Proof.
  rewrite (write_int64_decimal_overflow (H := Reference.accessors)
             Examples.x_dec Examples.rhs_dec 8 9999999999
             (Examples.a_worker (Examples.pack 8 [1000000000; 2000000000]))
             eq_refl eq_refl).
  vm_compute. reflexivity.
Defined.

(** ** Exceptions and the shadow metadata *)

(** X5. An [updateColumn] call that ends in an exception has installed
    no shadow metadata and no shadow tuple count in the roll: both maps
    are as they were before the call. *)
Theorem updateColumn_exception_installs_nothing `{TypedDataAccessors}
    (cpu_threads : Z) (unconditionalVacuum_ : bool) (this : Fragmenter)
    (catalog_ cat : Catalog) (td : TableDescriptor) (cd : ColumnDescriptor)
    (fragment_id : Z) (frag_offsets : list Z) (rhs_values : list ScalarTargetValue)
    (rhs_type : SQLTypeInfo) (memory_level : MemoryLevel) (s s' : Machine)
    (what : string) :
  updateColumn cpu_threads unconditionalVacuum_ this catalog_ cat td cd
    fragment_id frag_offsets rhs_values rhs_type memory_level s
  = (Throw what, s') ->
  chunkMetadata (updel_roll s') = chunkMetadata (updel_roll s) /\
  numTuples (updel_roll s') = numTuples (updel_roll s).
Proof.
  intros Hrun.
  pose proof (updateColumn_throw_keeps cpu_threads unconditionalVacuum_
    this catalog_ cat td cd fragment_id frag_offsets rhs_values rhs_type
    memory_level s what s' Hrun) as Hk.
  by injection Hk.
Qed.

(** X5 on the overflow above: the call ends in the exception and the
    roll holds no shadow metadata. *)
Lemma updateColumn_exception_scenario :
  chunkMetadata
    (updel_roll
       (snd (updateColumn (H := Reference.accessors) 4 false Examples.the_fragmenter
               (Examples.the_catalog DISK_LEVEL Examples.x_dec)
               (Examples.the_catalog DISK_LEVEL Examples.x_dec)
               (Examples.table DISK_LEVEL) Examples.x_dec 0 [1] [SInt64 9999999999]
               Examples.rhs_dec CPU_LEVEL Examples.two_decimals)))
  = ∅.
Proof.
  destruct (updateColumn_exception_installs_nothing (H := Reference.accessors)
              4 false Examples.the_fragmenter
              (Examples.the_catalog DISK_LEVEL Examples.x_dec)
              (Examples.the_catalog DISK_LEVEL Examples.x_dec)
              (Examples.table DISK_LEVEL) Examples.x_dec 0 [1] [SInt64 9999999999]
              Examples.rhs_dec CPU_LEVEL Examples.two_decimals
              (snd (updateColumn (H := Reference.accessors) 4 false
                      Examples.the_fragmenter
                      (Examples.the_catalog DISK_LEVEL Examples.x_dec)
                      (Examples.the_catalog DISK_LEVEL Examples.x_dec)
                      (Examples.table DISK_LEVEL) Examples.x_dec 0 [1]
                      [SInt64 9999999999] Examples.rhs_dec CPU_LEVEL
                      Examples.two_decimals))
              "Data conversion overflow on 9999999999 from DECIMAL(10, 0) to (10, 9)"%string)
    as [Hc _].
  - vm_compute. reflexivity.
  - rewrite Hc. reflexivity.
Defined.

(** ** [UpdelRoll::commitUpdate] *)

Lemma updateMetadata_ok (tid : Z) (key : MetaDataKey) (s : Machine) cm finfo :
  chunkMetadata (updel_roll s) !! key = Some cm ->
  fragments s !! snd key = Some finfo ->
  exists s',
    updateMetadata tid key s = (Ok tt, s') /\
    trace s' = trace s ++ [EvWriteLock tid; EvWriteUnlock tid] /\
    buffers s' = buffers s /\ stringDicts s' = stringDicts s /\
    next_chunk_addr s' = next_chunk_addr s /\
    fragments s'
      = <[snd key := published finfo cm (default 0 (numTuples (updel_roll s) !! key))]>
          (fragments s) /\
    updel_roll s'
      = set_numTuples (<[key := default 0 (numTuples (updel_roll s) !! key)]>)
          (updel_roll s).
Proof.
  intros Hcm Hf. unfold updateMetadata, fragment_at, bind, gets, modify, CHECK_some, ret.
  simpl. rewrite Hcm. simpl. rewrite Hf. simpl.
  eexists. split; [reflexivity|]. simpl.
  rewrite <- !app_assoc. done.
Qed.

Section commit.
Variable cat : Catalog.

Lemma commit_body_eq (e : MetaDataKey * gmap Z ChunkMetadata) s tid tdesc f :
fst (fst e) = Some tid -> getMetadataForTable cat tid = Some tdesc ->
fragmenter tdesc = Some f ->
commit_body cat e s = updateMetadata tid (fst e) s.
Proof.
intros H1 H2 H3. destruct e as [[t a] cm]. simpl in *. subst t.
unfold commit_body, bind at 1, CHECK_some at 1, ret at 1. simpl.
unfold bind at 1, CHECK_some at 1. rewrite H2. unfold ret at 1.
unfold bind at 1, CHECK_some at 1. rewrite H3. done.
Qed.

Lemma commit_publish (entries : list (MetaDataKey * gmap Z ChunkMetadata)) :
forall s,
(forall e, e ∈ entries -> chunkMetadata (updel_roll s) !! fst e = Some (snd e)) ->
(forall e, e ∈ entries -> key_ok cat s (fst e)) ->
NoDup ((λ e, snd (fst e)) <$> entries) ->
exists s',
  for_each entries (commit_body cat) s = (Ok tt, s') /\
  trace s' = trace s ++ flat_map (λ e, publish_events (fst e)) entries /\
  buffers s' = buffers s /\ stringDicts s' = stringDicts s /\
  next_chunk_addr s' = next_chunk_addr s /\
  catalog (updel_roll s') = catalog (updel_roll s) /\
  logicalTableId (updel_roll s') = logicalTableId (updel_roll s) /\
  memoryLevel (updel_roll s') = memoryLevel (updel_roll s) /\
  dirtyChunks (updel_roll s') = dirtyChunks (updel_roll s) /\
  dirtyChunkeys (updel_roll s') = dirtyChunkeys (updel_roll s) /\
  chunkMetadata (updel_roll s') = chunkMetadata (updel_roll s) /\
  (forall e, e ∈ entries ->
     exists finfo, fragments s !! snd (fst e) = Some finfo /\
       fragments s' !! snd (fst e)
       = Some (published finfo (snd e)
                 (default 0 (numTuples (updel_roll s) !! fst e))) /\
       numTuples (updel_roll s') !! fst e
       = Some (default 0 (numTuples (updel_roll s) !! fst e))) /\
  (forall a, a ∉ ((λ e, snd (fst e)) <$> entries) ->
     fragments s' !! a = fragments s !! a) /\
  (forall key, key ∉ (fst <$> entries) ->
     numTuples (updel_roll s') !! key = numTuples (updel_roll s) !! key).
Proof.
induction entries as [|e entries IH]; intros s Hcm Hok Hnd.
- exists s. simpl. rewrite app_nil_r. split_and!; try done.
  intros e He. by apply elem_of_nil in He.
- rewrite fmap_cons in Hnd. apply NoDup_cons in Hnd as [Hfresh Hnd].
  destruct (Hok e ltac:(left)) as [(tid & tdesc & f & Htid & Htd & Hfr) [finfo Hfi]].
  destruct (updateMetadata_ok tid (fst e) s (snd e) finfo
              (Hcm e ltac:(left)) Hfi)
    as (s1 & Hrun & Htr1 & Hb1 & Hd1 & Hn1 & Hf1 & Hr1).
  assert (Hkeys : forall e', e' ∈ entries -> fst e' <> fst e).
  { intros e' He' Heq. apply Hfresh.
    apply list_elem_of_fmap. exists e'. split; [|done]. cbn beta. clear -Heq.
    destruct e as [[? ?] ?], e' as [[? ?] ?]. simpl in *. by simplify_eq. }
  destruct (IH s1) as (s' & Hrun' & Htr' & Hb' & Hd' & Hn' & Hc' & Hl' & Hm'
                        & Hdc' & Hdk' & Hcm' & Hpub & Hother & Hnt); [| |done|].
  { intros e' He'. rewrite Hr1. simpl. apply Hcm. by right. }
  { intros e' He'. destruct (Hok e' ltac:(by right)) as [Htable Hlive].
    split; [done|]. rewrite Hf1.
    destruct (decide (snd (fst e) = snd (fst e'))) as [Heq|Hne].
    - rewrite Heq, lookup_insert_eq. by eexists.
    - by rewrite lookup_insert_ne. }
  exists s'. cbn [for_each flat_map]. unfold bind at 1.
  rewrite (commit_body_eq e s tid tdesc f Htid Htd Hfr), Hrun.
  split; [exact Hrun'|].
  rewrite Htr', Htr1, Hb', Hb1, Hd', Hd1, Hn', Hn1, Hc', Hl', Hm', Hdc', Hdk', Hcm'.
  rewrite Hr1. simpl. unfold publish_events at 2. rewrite Htid. simpl.
  rewrite <- !app_assoc. split_and!; try done.
  + intros e' [->|He']%elem_of_cons.
    * exists finfo. split; [done|]. split.
      -- rewrite Hother by done. rewrite Hf1. apply lookup_insert_eq.
      -- rewrite Hnt.
         ++ rewrite Hr1. simpl. apply lookup_insert_eq.
         ++ intros (e' & Heq & He')%list_elem_of_fmap. by apply (Hkeys e').
    * destruct (Hpub e' He') as (finfo' & Hfi' & Hfs' & Hnt').
      assert (snd (fst e) <> snd (fst e')) as Hne.
      { intros Heq. apply Hfresh.
        apply list_elem_of_fmap. exists e'. split; [exact Heq|done]. }
      rewrite Hf1, lookup_insert_ne in Hfi' by done.
      rewrite Hr1 in Hfs', Hnt'. simpl in Hfs', Hnt'.
      rewrite lookup_insert_ne in Hfs', Hnt' by (intros Heq; by apply (Hkeys e')).
      exists finfo'. done.
  + intros a Ha. apply not_elem_of_cons in Ha as [Ha1 Ha2].
    rewrite Hother by done. rewrite Hf1. by rewrite lookup_insert_ne.
  + intros key Hkey. apply not_elem_of_cons in Hkey as [Hk1 Hk2].
    rewrite Hnt by done. rewrite Hr1. simpl. by rewrite lookup_insert_ne.
Qed.

Lemma evict_all (keys : list ChunkKey) : forall s,
exists s',
  for_each keys (fun chunkey => deleteChunksWithPrefix chunkey GPU_LEVEL) s
  = (Ok tt, s') /\
  trace s' = trace s ++ evict_events keys /\
  fragments s' = fragments s /\ stringDicts s' = stringDicts s /\
  next_chunk_addr s' = next_chunk_addr s /\ updel_roll s' = updel_roll s /\
  forall level key,
    let evicted := level = level_code GPU_LEVEL
                   /\ exists k, k ∈ keys /\ k `prefix_of` key in
    (evicted -> buffers s' !! (level, key) = None) /\
    (~ evicted -> buffers s' !! (level, key) = buffers s !! (level, key)).
Proof.
induction keys as [|k keys IH]; intros s.
- exists s. simpl. rewrite app_nil_r. split_and!; try done.
  intros level key. split; [|done].
  intros (_ & k & Hk & _). by apply elem_of_nil in Hk.
- destruct (IH (set_buffers (filter (fun kv : (Z * ChunkKey) * ChunkBuffers =>
      ¬ (fst (fst kv) = level_code GPU_LEVEL ∧ k `prefix_of` snd (fst kv))))
      (emit (EvDeleteChunksWithPrefix k GPU_LEVEL) s)))
    as (s' & Hrun & Htr & Hf & Hd & Hn & Hr & Hb).
  exists s'. split; [exact Hrun|]. simpl in *.
  rewrite Htr, Hf, Hd, Hn, Hr, <- app_assoc. split_and!; try done.
  intros level key. destruct (Hb level key) as [Hb1 Hb2]. clear Hb.
  destruct (decide (level = 2 ∧ k `prefix_of` key)) as [[-> Hpre]|Hno].
  + split; [intros _|intros Hn'; exfalso; apply Hn'; split; [done|];
                     exists k; split; [left|done]].
    destruct (buffers s' !! (2, key)) as [b|] eqn:Hlk; [|done].
    exfalso.
    assert (~ (2 = 2 /\ exists k0, k0 ∈ keys /\ k0 `prefix_of` key)) as Hrest.
    { intros Hin. by specialize (Hb1 Hin). }
    specialize (Hb2 Hrest). symmetry in Hb2.
    apply map_lookup_filter_Some in Hb2 as [_ Hx]. apply Hx. done.
  + split.
    * intros (-> & k0 & [->|Hk0]%elem_of_cons & Hp); [by destruct Hno|].
      apply Hb1. split; [done|]. by exists k0.
    * intros Hn'. rewrite Hb2.
      2:{ intros (-> & k0 & Hk0 & Hp). apply Hn'. split; [done|].
          exists k0. split; [by right|done]. }
      destruct (buffers s !! (level, key)) as [b|] eqn:Hlk.
      -- apply map_lookup_filter_Some. split; [done|]. exact Hno.
      -- apply map_lookup_filter_None. by left.
Qed.

End commit.

(** X6. For a roll with a non-null catalog whose logical table the catalog
    knows, whose shadow metadata keys name tables with a fragmenter and
    live fragments, no two keys naming the same fragment, [commitUpdate]
    succeeds and: checkpoints the logical table exactly when the table's
    persistence level is [DISK_LEVEL]; then, for every key in turn,
    takes and releases the write lock of the fragmenter of the key's
    table, and the fragment has the shadow chunk-metadata map as both its
    shadow and its live map and the shadow tuple count as both its shadow
    and its physical count; clears [dirtyChunks]; and last evicts every
    key of [dirtyChunkeys] from the GPU level exactly when the roll's
    memory level is not [GPU_LEVEL]. *)
Theorem commitUpdate_publishes (s : Machine) (cat : Catalog) (td : TableDescriptor) :
  let r := updel_roll s in
  let entries := map_to_list (chunkMetadata r) in
  catalog r = Some cat ->
  getMetadataForTable cat (logicalTableId r) = Some td ->
  (forall e, e ∈ entries -> key_ok cat s (fst e)) ->
  NoDup ((λ e, snd (fst e)) <$> entries) ->
  exists s',
    commitUpdate s = (Ok tt, s') /\
    trace s'
    = trace s
      ++ (if MemoryLevel_eqb (persistenceLevel td) DISK_LEVEL
          then [EvCheckpoint (logicalTableId r)] else [])
      ++ flat_map (λ e, publish_events (fst e)) entries
      ++ (if MemoryLevel_eqb (memoryLevel r) GPU_LEVEL then []
          else evict_events (elements (dirtyChunkeys r))) /\
    (forall key cm, chunkMetadata r !! key = Some cm ->
       exists finfo, fragments s !! snd key = Some finfo /\
         fragments s' !! snd key
         = Some (published finfo cm (default 0 (numTuples r !! key)))) /\
    (forall a, (forall key, is_Some (chunkMetadata r !! key) -> snd key <> a) ->
       fragments s' !! a = fragments s !! a) /\
    dirtyChunks (updel_roll s') = ∅ /\
    dirtyChunkeys (updel_roll s') = dirtyChunkeys r /\
    chunkMetadata (updel_roll s') = chunkMetadata r /\
    (forall level key,
       let evicted := memoryLevel r <> GPU_LEVEL
                      /\ level = level_code GPU_LEVEL
                      /\ exists k, k ∈ dirtyChunkeys r /\ k `prefix_of` key in
       (evicted -> buffers s' !! (level, key) = None) /\
       (~ evicted -> buffers s' !! (level, key) = buffers s !! (level, key))).
Proof.
  intros r entries Hcat Htd Hok Hnd.
  set (s0 := if MemoryLevel_eqb (persistenceLevel td) DISK_LEVEL
             then emit (EvCheckpoint (logicalTableId r)) s else s).
  assert (Hs0 : updel_roll s0 = r /\ fragments s0 = fragments s /\
                buffers s0 = buffers s /\
                trace s0 = trace s ++ (if MemoryLevel_eqb (persistenceLevel td) DISK_LEVEL
                                       then [EvCheckpoint (logicalTableId r)] else [])).
  { unfold s0. destruct (MemoryLevel_eqb _ _); simpl; rewrite ?app_nil_r; done. }
  destruct Hs0 as (Hr0 & Hf0 & Hb0 & Ht0).
  destruct (commit_publish cat entries s0) as
    (s1 & Hrun1 & Htr1 & Hb1 & _ & _ & Hc1 & Hl1 & Hm1 & Hdc1 & Hdk1 & Hcm1
     & Hpub & Hother & _).
  { intros [key cm] He. rewrite Hr0. by apply elem_of_map_to_list. }
  { intros e He. destruct (Hok e He) as [? ?]. split; [done|]. by rewrite Hf0. }
  { done. }
  set (s2 := set_roll (set_dirtyChunks (fun _ => ∅)) s1).
  destruct (evict_all (elements (dirtyChunkeys r)) s2)
    as (s3 & Hrun3 & Htr3 & Hf3 & _ & _ & Hr3 & Hb3).
  exists (if negb (MemoryLevel_eqb (memoryLevel r) GPU_LEVEL) then s3 else s2).
  split.
  { unfold commitUpdate. unfold bind at 1, gets at 1. fold r. rewrite Hcat.
    unfold bind at 1, CHECK_some at 1. rewrite Htd. unfold ret at 1.
    unfold bind at 1.
    replace ((if MemoryLevel_eqb (persistenceLevel td) DISK_LEVEL
              then modify (emit (EvCheckpoint (logicalTableId r)))
              else ret tt) s) with (Ok tt : outcome unit, s0)
      by (unfold s0; destruct (MemoryLevel_eqb _ _); done).
    unfold bind at 1. fold entries.
    match goal with
    | |- context [for_each ?l ?b s0] =>
        replace (for_each l b s0) with (Ok tt : outcome unit, s1)
          by (symmetry; exact Hrun1)
    end.
    unfold bind at 1, modify at 1. fold s2.
    destruct (negb _); [exact Hrun3|done]. }
  assert (Hgpu : forall b : bool, (if b then s3 else s2) = (if b then s3 else s2)) by done.
  clear Hgpu.
  split_and!.
  - destruct (MemoryLevel_eqb (memoryLevel r) GPU_LEVEL); simpl.
    + rewrite Htr1, Ht0, app_nil_r, <- app_assoc. done.
    + rewrite Htr3. simpl. rewrite Htr1, Ht0, <- !app_assoc. done.
  - intros key cm Hkey.
    destruct (Hpub (key, cm)) as (finfo & Hfi & Hfs & _).
    { by apply elem_of_map_to_list. }
    simpl in *. rewrite Hf0 in Hfi. rewrite Hr0 in Hfs.
    exists finfo. split; [done|].
    destruct (negb _); [rewrite Hf3|]; exact Hfs.
  - intros a Ha.
    assert (fragments s1 !! a = fragments s !! a) as Hs1.
    { rewrite Hother, Hf0; [done|].
      intros ([key cm] & -> & He)%list_elem_of_fmap. simpl in Ha.
      apply (Ha key); [|done]. apply elem_of_map_to_list in He. by eexists. }
    destruct (negb _); [rewrite Hf3|]; exact Hs1.
  - destruct (negb _); [rewrite Hr3|]; done.
  - destruct (negb _); [rewrite Hr3|]; simpl; by rewrite Hdk1, Hr0.
  - destruct (negb _); [rewrite Hr3|]; simpl; by rewrite Hcm1, Hr0.
  - intros level key.
    destruct (MemoryLevel_eqb (memoryLevel r) GPU_LEVEL) eqn:Hlvl; simpl.
    + split.
      * intros (Hne & _). exfalso. apply Hne. by destruct (memoryLevel r).
      * intros _. by rewrite Hb1, Hb0.
    + destruct (Hb3 level key) as [He1 He2]. simpl in He1, He2.
      rewrite Hb1, Hb0 in He2.
      assert (memoryLevel r <> GPU_LEVEL) as Hne by (intros Heq; by rewrite Heq in Hlvl).
      split.
      * intros (_ & -> & k & Hk & Hp). apply He1. split; [done|].
        exists k. split; [|done]. by apply elem_of_elements.
      * intros Hn'. apply He2. intros (-> & k & Hk & Hp). apply Hn'.
        split; [done|]. split; [done|]. exists k. split; [|done].
        by apply elem_of_elements in Hk.
Qed.

(** The commit of the first scenario: one checkpoint (the table is on
    disk), one publication under the lock, the eviction of the one dirty
    chunk key from the GPU level (the update ran on the CPU level). *)
Lemma commitUpdate_publishes_five_ints :
  exists s',
    commitUpdate Examples.updated_ints = (Ok tt, s') /\
    trace s' = [EvCheckpoint 7; EvWriteLock 7; EvWriteUnlock 7;
                EvDeleteChunksWithPrefix [1; 7; 1; 0] GPU_LEVEL] /\
    (chunkStats <$> (chunkMetadataMap <$> fragments s' !! 100) ≫= (.!! 1))
    = Some (Examples.stats 10 99 false) /\
    dirtyChunks (updel_roll s') = ∅.
Proof.
  destruct (commitUpdate_publishes Examples.updated_ints (Examples.the_catalog DISK_LEVEL Examples.x_int)
              (Examples.table DISK_LEVEL))
    as (s' & Hrun & Htr & Hpub & _ & Hd & _).
  - vm_compute. reflexivity.
  - vm_compute. reflexivity.
  - intros e He.
    match type of He with
    | _ ∈ ?l =>
        assert (l = [((Some 7, 100),
                      {[ 1 := {| numBytes := 20; numElements := 5;
                                 chunkStats := Examples.stats 10 99 false |} ]})])
          as Hent by (vm_compute; reflexivity);
        rewrite Hent in He
    end.
    apply list_elem_of_singleton in He as ->.
    split.
    + exists 7, (Examples.table DISK_LEVEL), Examples.the_fragmenter. vm_compute. done.
    + vm_compute. eexists. reflexivity.
  - vm_compute. apply NoDup_singleton.
  - exists s'. split; [exact Hrun|]. split; [rewrite Htr; vm_compute; reflexivity|].
    split; [|exact Hd].
    destruct (Hpub (Some 7, 100) {[ 1 := {| numBytes := 20; numElements := 5;
                                chunkStats := Examples.stats 10 99 false |} ]})
      as (finfo & _ & Hf).
    + vm_compute. reflexivity.
    + cbn [snd] in Hf. rewrite Hf. vm_compute. reflexivity.
Defined.
(** ** The order of [double]s *)

Lemma SFltb_irrefl x : SFltb x x = false.
Proof.
  destruct x as [[]| []| |[] m e]; try reflexivity; unfold SFltb; simpl;
  rewrite Z.compare_refl, Pos.compare_cont_refl; reflexivity.
Qed.

Ltac cmp_cases :=
  repeat match goal with
  | |- context [Pos.compare_cont Eq ?a ?b] =>
      change (Pos.compare_cont Eq a b) with (Pos.compare a b);
      destruct (Pos.compare_spec a b)
  | |- context [Z.compare ?a ?b] => destruct (Z.compare_spec a b)
  end.

Lemma SFltb_trans x y z : SFltb x y = true -> SFltb y z = true -> SFltb x z = true.
Proof.
  unfold SFltb.
  destruct x as [[]| []| |[] m1 e1], y as [[]| []| |[] m2 e2], z as [[]| []| |[] m3 e3];
    simpl; try (intros; congruence); try reflexivity;
    cmp_cases; simpl; intros; subst; try congruence; try lia.
Qed.

Lemma SFltb_neg_trans x y z :
  SFeqb y y = true -> SFltb x y = false -> SFltb y z = false -> SFltb x z = false.
Proof.
  unfold SFltb, SFeqb.
  destruct x as [[]| []| |[] m1 e1], y as [[]| []| |[] m2 e2], z as [[]| []| |[] m3 e3];
    simpl; try (intros; congruence); try reflexivity;
    cmp_cases; simpl; intros; subst; try congruence; try lia.
Qed.

Lemma SFltb_not_nan x y : SFltb x y = true -> SFeqb x x = true /\ SFeqb y y = true.
Proof.
  unfold SFltb, SFeqb.
  destruct x as [[]| []| |[] m1 e1], y as [[]| []| |[] m2 e2];
    simpl; try (intros; congruence); try (split; reflexivity);
    rewrite ?Z.compare_refl, ?Pos.compare_cont_refl; simpl; intros; split; reflexivity.
Qed.

Section double_order.
Local Open Scope float_scope.

Lemma ltb_irrefl (x : float) : (x <? x) = false.
Proof. rewrite ltb_spec. apply SFltb_irrefl. Qed.

Lemma ltb_trans (x y z : float) : (x <? y) = true -> (y <? z) = true -> (x <? z) = true.
Proof. rewrite !ltb_spec. apply SFltb_trans. Qed.

Lemma ltb_neg_trans (x y z : float) :
is_nan y = false -> (x <? y) = false -> (y <? z) = false -> (x <? z) = false.
Proof.
unfold is_nan. rewrite !ltb_spec, FloatAxioms.eqb_spec. intros Hy%negb_false_iff.
by apply SFltb_neg_trans.
Qed.

Lemma ltb_not_nan (x y : float) :
(x <? y) = true -> is_nan x = false /\ is_nan y = false.
Proof.
unfold is_nan. rewrite ltb_spec, !FloatAxioms.eqb_spec. intros [-> ->]%SFltb_not_nan. done.
Qed.

(** [std::min] keeps below what either argument is not above. *)
Lemma std_min_double_l (d a b : float) :
(d <? a) = false -> (d <? std_min_double a b) = false.
Proof.
intros Hda. unfold std_min_double. destruct (b <? a) eqn:Hba; [|done].
destruct (d <? b) eqn:Hdb; [|done]. by rewrite (ltb_trans d b a) in Hda.
Qed.

Lemma std_min_double_r (d a b : float) :
is_nan b = false -> (d <? b) = false -> (d <? std_min_double a b) = false.
Proof.
intros Hb Hdb. unfold std_min_double. destruct (b <? a) eqn:Hba; [done|].
by apply (ltb_neg_trans d b a).
Qed.

Lemma std_min_double_new (a b : float) : (b <? std_min_double a b) = false.
Proof.
unfold std_min_double. destruct (b <? a) eqn:Hba; [apply ltb_irrefl|done].
Qed.

Lemma std_max_double_l (d a b : float) :
(a <? d) = false -> (std_max_double a b <? d) = false.
Proof.
intros Had. unfold std_max_double. destruct (a <? b) eqn:Hab; [|done].
destruct (b <? d) eqn:Hbd; [|done]. by rewrite (ltb_trans a b d) in Had.
Qed.

Lemma std_max_double_r (d a b : float) :
is_nan b = false -> (b <? d) = false -> (std_max_double a b <? d) = false.
Proof.
intros Hb Hbd. unfold std_max_double. destruct (a <? b) eqn:Hab; [done|].
by apply (ltb_neg_trans a b d).
Qed.

Lemma std_max_double_new (a b : float) : (std_max_double a b <? b) = false.
Proof.
unfold std_max_double. destruct (a <? b) eqn:Hab; [apply ltb_irrefl|done].
Qed.

Lemma std_min_double_not_nan (a b : float) :
is_nan a = false -> is_nan (std_min_double a b) = false.
Proof.
intros Ha. unfold std_min_double. destruct (b <? a) eqn:Hba; [|done].
by apply ltb_not_nan in Hba as [? _].
Qed.

Lemma std_max_double_not_nan (a b : float) :
is_nan a = false -> is_nan (std_max_double a b) = false.
Proof.
intros Ha. unfold std_max_double. destruct (a <? b) eqn:Hab; [|done].
by apply ltb_not_nan in Hab as [_ ?].
Qed.

End double_order.


(** ** The statistics loop of the fixed-length vacuum *)

Lemma foldl_seq_shift {A} (f : A -> nat -> A) (a : A) (k n : nat) :
  foldl f a (seq (S k) n) = foldl (fun a i => f a (S i)) a (seq k n).
Proof. rewrite <- fmap_S_seq, foldl_fmap. reflexivity. Qed.

Lemma foldl_pointwise {A B} (f g : A -> B -> A) (l : list B) (a : A) :
  (forall a b, f a b = g a b) -> foldl f a l = foldl g a l.
Proof.
  intros Hfg. revert a. induction l as [|b l IH]; intros a; [done|].
  simpl. by rewrite Hfg, IH.
Qed.

(** X7. What the loop of lines 686-704 does on [n] rows: for a
    fixed-length array column it calls the encoder's [updateMetadata] on
    the pointer of each row in turn ([daddr], [daddr + element_size],
    ...); for any other column it calls [set_chunk_stats] [n] times on
    [data_addr], the first element of the buffer, whatever [daddr] is.
    So on the BIGINT rows [10, 50, 30] the accumulators of [compactRows],
    which start at max 0 and min -1, end with min -1 and max 10: 50 and
    30 are not folded. *)
Theorem fixlen_stats_loop_folds_first_element :
  (forall (H : TypedDataAccessors) (col_type : SQLTypeInfo) (element_size : Z)
          (n : nat) (data_addr daddr : Z) (b : AbstractBuffer) (st : ThreadStats),
     fixlen_stats_loop col_type element_size n data_addr daddr b st
     = if is_fixlen_array col_type then
         (foldl (fun b i =>
                   setEncoder b (fixlen_array_updateMetadata (encoder b) (mem b)
                                   (daddr + Z.of_nat i * element_size)))
                b (seq 0 n), st)
       else
         (b, Nat.iter n
               (if is_fp col_type
                then set_chunk_stats_double col_type (mem b) data_addr
                else set_chunk_stats_int64 col_type (mem b) data_addr) st)) /\
  (let b := Examples.a_buffer (Examples.pack 8 [10; 50; 30]) 3
              (Examples.stats 10 50 false) in
   let st := snd (fixlen_stats_loop (H := Reference.accessors) Examples.BIGINT 8 3
                    0 0 b compactRows_init_stats) in
   min_int64t st = -1 /\ max_int64t st = 10).
Proof.
  split; [|vm_compute; done].
  intros H col_type element_size n. induction n as [|n IH]; intros data_addr daddr b st.
  - simpl. by destruct (is_fixlen_array col_type).
  - cbn [fixlen_stats_loop]. destruct (is_fixlen_array col_type) eqn:Harr.
    + cbn iota beta. rewrite IH. cbn [seq foldl]. rewrite foldl_seq_shift.
      rewrite Z.mul_0_l, Z.add_0_r. f_equal.
      apply foldl_pointwise. intros b' i. do 2 f_equal. lia.
    + destruct (is_fp col_type); cbn iota beta; rewrite IH;
        by rewrite Nat.iter_succ_r.
Qed.

(** ** The initial values of the accumulators *)

Lemma reduce_max_double_floor (d : float) (l : list ThreadStats) :
  forall acc,
  (max_double acc <? d)%float = false ->
  (max_double (foldl reduce_step acc l) <? d)%float = false.
Proof.
  induction l as [|t l IH]; intros acc Hacc; [done|].
  simpl. apply IH. simpl. by apply std_max_double_l.
Qed.

Lemma fixlen_stats_loop_int64_bounds `{TypedDataAccessors} (col_type : SQLTypeInfo)
    (element_size : Z) (lo hi : Z) (n : nat) :
  forall (data_addr daddr : Z) (b : AbstractBuffer) (st : ThreadStats),
  min_int64t st <= lo -> hi <= max_int64t st ->
  let st' := snd (fixlen_stats_loop col_type element_size n data_addr daddr b st) in
  min_int64t st' <= lo /\ hi <= max_int64t st'.
Proof.
  induction n as [|n IH]; intros data_addr daddr b st Hlo Hhi; [done|].
  cbn [fixlen_stats_loop].
  destruct (is_fixlen_array col_type); [by apply IH|].
  destruct (is_fp col_type); cbn iota beta; apply IH.
  - unfold set_chunk_stats_double.
    destruct (get_scalar_double _ _ _) as [[|] v]; simpl; done.
  - unfold set_chunk_stats_double.
    destruct (get_scalar_double _ _ _) as [[|] v]; simpl; done.
  - unfold set_chunk_stats_int64.
    destruct (get_scalar_int64 _ _ _) as [[|] v]; simpl; [done|].
    destruct (Z.ltb_spec v (min_int64t st)); lia.
  - unfold set_chunk_stats_int64.
    destruct (get_scalar_int64 _ _ _) as [[|] v]; simpl; [done|].
    destruct (Z.ltb_spec (max_int64t st) v); lia.
Qed.

(** X8. The accumulators do not start at the neutral elements of their
    reductions.  In [updateColumn] the [double] maximum starts at
    [std::numeric_limits<double>::min()], the smallest positive normal
    double, so the per-chunk [double] maximum that the reduction hands to
    [updateColumnMetadata] is never below that value, whatever the
    workers folded (all negative values, say).  In [compactRows] the
    [int64_t] pair is filled with the [uint64_t] extrema, that is 0 for
    the maximum and -1 for the minimum, so after the statistics loop of
    any column the [int64_t] minimum is at most -1 and the maximum at
    least 0, whatever the rows hold. *)
Theorem accumulators_are_not_neutral :
  (forall per_thread : list ThreadStats,
     (max_double (reduce_stats per_thread) <? DBL_MIN)%float = false) /\
  (forall (H : TypedDataAccessors) (col_type : SQLTypeInfo) (element_size : Z)
          (n : nat) (data_addr daddr : Z) (b : AbstractBuffer),
     let st := snd (fixlen_stats_loop col_type element_size n data_addr daddr b
                      compactRows_init_stats) in
     min_int64t st <= -1 /\ 0 <= max_int64t st).
Proof.
  split.
  - intros per_thread. apply (reduce_max_double_floor DBL_MIN per_thread). reflexivity.
  - intros H col_type element_size n data_addr daddr b.
    by apply (fixlen_stats_loop_int64_bounds col_type element_size (-1) 0 n).
Qed.
(** ** Accumulators bracket what is folded into them *)

Lemma stats_ok_init : stats_ok updateColumn_init_stats.
Proof. split; reflexivity. Qed.

Lemma covers_set_minmax_int64 st v f : covers st f -> covers (set_minmax_int64 st v) f.
Proof.
  destruct f as [x|d|]; simpl; [|done..].
  destruct (Z.ltb_spec (max_int64t st) v), (Z.ltb_spec v (min_int64t st)); lia.
Qed.

Lemma covers_set_minmax_int64_new st v : covers (set_minmax_int64 st v) (FoldInt64 v).
Proof.
  simpl. destruct (Z.ltb_spec (max_int64t st) v), (Z.ltb_spec v (min_int64t st)); lia.
Qed.

Lemma covers_set_minmax_double st v f : covers st f -> covers (set_minmax_double st v) f.
Proof.
  destruct f as [x|d|]; simpl; [done| |done]. intros [Hmin Hmax]. split.
  - by apply (std_min_double_l d (min_double st) v).
  - by apply (std_max_double_l d (max_double st) v).
Qed.

Lemma covers_set_minmax_double_new st v : covers (set_minmax_double st v) (FoldDouble v).
Proof.
  simpl. split.
  - apply (std_min_double_new (min_double st) v).
  - apply (std_max_double_new (max_double st) v).
Qed.

Lemma stats_ok_set_minmax_double st v : stats_ok st -> stats_ok (set_minmax_double st v).
Proof.
  intros [Hmin Hmax]. split; simpl.
  - by apply (std_min_double_not_nan (min_double st) v).
  - by apply (std_max_double_not_nan (max_double st) v).
Qed.

Lemma folded_null_app l1 l2 : folded_null (l1 ++ l2) = folded_null l1 || folded_null l2.
Proof. apply existsb_app. Qed.

(** ** Invariants of computations *)

Section invariants.
Context {St : Type} (I : St -> Prop).

Lemma invariant_ret {A} (a : A) : invariant I (ret a : M St A).
Proof. by intros s r s' [= _ <-]. Qed.
Lemma invariant_fatal {A} : invariant I (fatal : M St A).
Proof. by intros s r s' [= _ <-]. Qed.
Lemma invariant_throw {A} what : invariant I (throw what : M St A).
Proof. by intros s r s' [= _ <-]. Qed.
Lemma invariant_gets {A} (f : St -> A) : invariant I (gets f).
Proof. by intros s r s' [= _ <-]. Qed.
Lemma invariant_CHECK b : invariant I (CHECK b).
Proof. destruct b; [apply invariant_ret|apply invariant_fatal]. Qed.
Lemma invariant_CHECK_some {A} (o : option A) : invariant I (CHECK_some o).
Proof. destruct o; [apply invariant_ret|apply invariant_fatal]. Qed.
Lemma invariant_modify (f : St -> St) : (forall s, I s -> I (f s)) -> invariant I (modify f).
Proof. intros Hf s r s' [= _ <-]. apply Hf. Qed.

Lemma invariant_bind {A B} (m : M St A) (k : A -> M St B) :
invariant I m -> (forall a, invariant I (k a)) -> invariant I (bind m k).
Proof.
intros Hm Hk s r s'. unfold bind.
destruct (m s) as [[a|what|] s1] eqn:Hms.
- intros Hks Hs. eapply Hk; [exact Hks|]. eapply Hm; [exact Hms|exact Hs].
- intros [= _ <-]. by eapply Hm.
- intros [= _ <-]. by eapply Hm.
Qed.

Lemma invariant_for_each {A} (l : list A) (body : A -> M St unit) :
(forall a, invariant I (body a)) -> invariant I (for_each l body).
Proof.
intros Hb. induction l as [|a l IH]; simpl.
- apply invariant_ret.
- apply invariant_bind; [apply Hb|]. intros _. exact IH.
Qed.

End invariants.

(** ** The workers keep their invariant *)

Lemma worker_inv_frame (g : Worker -> Worker) :
  (forall w, w_stats (g w) = w_stats w /\ w_folded (g w) = w_folded w) ->
  invariant worker_inv (modify g).
Proof.
  intros Hg. apply invariant_modify. intros w. unfold worker_inv.
  destruct (Hg w) as [-> ->]. done.
Qed.

Lemma fold_int64_inv v : invariant worker_inv (fold_int64 v).
Proof.
  apply invariant_modify. intros w (Hok & Hcov & Hnull). split_and!; simpl.
  - exact Hok.
  - apply Forall_app. split.
    + eapply Forall_impl; [exact Hcov|]. intros f. apply covers_set_minmax_int64.
    + apply Forall_singleton, covers_set_minmax_int64_new.
  - rewrite folded_null_app, Hnull. simpl. by rewrite orb_false_r.
Qed.

Lemma fold_double_inv v : invariant worker_inv (fold_double v).
Proof.
  apply invariant_modify. intros w (Hok & Hcov & Hnull). split_and!; simpl.
  - by apply stats_ok_set_minmax_double.
  - apply Forall_app. split.
    + eapply Forall_impl; [exact Hcov|]. intros f. apply covers_set_minmax_double.
    + apply Forall_singleton, covers_set_minmax_double_new.
  - rewrite folded_null_app, Hnull. simpl. by rewrite orb_false_r.
Qed.

Lemma fold_null_inv : invariant worker_inv fold_null.
Proof.
  apply invariant_modify. intros w (Hok & Hcov & Hnull). split_and!; simpl.
  - exact Hok.
  - apply Forall_app. split; [|by apply Forall_singleton].
    eapply Forall_impl; [exact Hcov|]. by intros [].
  - rewrite folded_null_app. simpl. by rewrite orb_true_r.
Qed.

Ltac inv_step :=
  first
    [ apply invariant_bind; [|intros ?]
    | apply invariant_ret | apply invariant_fatal | apply invariant_throw
    | apply invariant_gets | apply invariant_CHECK | apply invariant_CHECK_some
    | apply fold_int64_inv | apply fold_double_inv | apply fold_null_inv
    | apply worker_inv_frame; intros ?; split; reflexivity
    | match goal with
      | |- invariant _ (match ?x with _ => _ end) => destruct x
      | |- invariant _ (if ?b then _ else _) => destruct b
      | |- invariant _ (let '(_, _) := ?p in _) => destruct p
      end ].

Section worker_invariant.
Context `{TypedDataAccessors}.
Variables (cat : Catalog) (cd : ColumnDescriptor) (rhs_type : SQLTypeInfo).
Variables (frag_offsets : list Z) (rhs_values : list ScalarTargetValue).

Lemma write_row_inv stringDict r :
invariant worker_inv (write_row cd rhs_type frag_offsets rhs_values stringDict r).
Proof.
unfold write_row, translate_rhs, write_int64, write_double, write_float,
  write_string.
repeat inv_step.
Qed.

Lemma worker_keeps_inv shard td rbegin segsz nrow :
invariant worker_inv
  (worker cat cd rhs_type frag_offsets rhs_values shard td rbegin segsz nrow).
Proof.
unfold worker. repeat inv_step; apply invariant_for_each; intros r;
  apply write_row_inv.
Qed.

End worker_invariant.

(** ** The reduction over the workers *)

Lemma covers_reduce_step_l chunk t f : covers chunk f -> covers (reduce_step chunk t) f.
Proof.
  destruct f as [v|d|]; simpl; [| |done].
  - unfold std_max_int64, std_min_int64.
    destruct (Z.ltb_spec (max_int64t chunk) (max_int64t t)),
             (Z.ltb_spec (min_int64t t) (min_int64t chunk)); lia.
  - intros [Hmin Hmax]. split.
    + by apply std_min_double_l.
    + by apply std_max_double_l.
Qed.

Lemma covers_reduce_step_r chunk t f :
  stats_ok t -> covers t f -> covers (reduce_step chunk t) f.
Proof.
  intros [Hokmin Hokmax]. destruct f as [v|d|]; simpl; [| |done].
  - unfold std_max_int64, std_min_int64.
    destruct (Z.ltb_spec (max_int64t chunk) (max_int64t t)),
             (Z.ltb_spec (min_int64t t) (min_int64t chunk)); lia.
  - intros [Hmin Hmax]. split.
    + by apply std_min_double_r.
    + by apply std_max_double_r.
Qed.

Lemma covers_reduce (l : list ThreadStats) (f : Folded) :
  Forall stats_ok l ->
  forall acc,
  covers acc f \/ (exists t, t ∈ l /\ covers t f) ->
  covers (foldl reduce_step acc l) f.
Proof.
  induction 1 as [|t l Hok Hl IH]; intros acc Hc; simpl.
  - destruct Hc as [Hc|(t & Ht & _)]; [done|]. by apply elem_of_nil in Ht.
  - apply IH. destruct Hc as [Hc|(t' & [->|Ht']%elem_of_cons & Hc)].
    + left. by apply covers_reduce_step_l.
    + left. by apply covers_reduce_step_r.
    + right. by exists t'.
Qed.

Lemma has_null_reduce (l : list ThreadStats) :
  forall acc,
  has_null (foldl reduce_step acc l) = has_null acc || existsb has_null l.
Proof.
  induction l as [|t l IH]; intros acc; simpl.
  - by rewrite orb_false_r.
  - rewrite IH. simpl. by rewrite orb_assoc.
Qed.

Lemma existsb_has_null_insert (l : list ThreadStats) (t t0 : ThreadStats) :
  forall i,
  l !! i = Some t0 -> has_null t0 = false ->
  existsb has_null (<[i := t]> l) = existsb has_null l || has_null t.
Proof.
  induction l as [|x l IH]; intros [|i] Hi Ht0; simpl in *; try done.
  - injection Hi as ->. rewrite Ht0. simpl. apply orb_comm.
  - rewrite (IH i Hi Ht0). by rewrite orb_assoc.
Qed.

(** What the invariant of the workers gives after the reduction. *)
Lemma joined_inv_reduce (n c : nat) (j : Joined) :
  joined_inv n c j ->
  Forall (covers (reduce_stats (j_stats j))) (j_folded j) /\
  has_null (reduce_stats (j_stats j)) = folded_null (j_folded j).
Proof.
  intros (_ & _ & _ & _ & Hok & Hcov & Hnull). split.
  - eapply Forall_impl; [exact Hcov|]. intros f (i & t & _ & Hi & Hf).
    apply (covers_reduce (j_stats j) f Hok). right. exists t. split; [|done].
    by eapply list_elem_of_lookup_2.
  - unfold reduce_stats. rewrite (has_null_reduce (j_stats j)). by rewrite Hnull.
Qed.

(** ** The workers launched *)

Section launch_invariant.
Context `{TypedDataAccessors}.
Variables (this : Fragmenter) (cat : Catalog) (td : TableDescriptor).
Variables (cd : ColumnDescriptor) (rhs_type : SQLTypeInfo).
Variables (frag_offsets : list Z) (rhs_values : list ScalarTargetValue).
Variables (segsz nrow : Z) (n : nat).
Hypothesis Hseg : 0 < segsz.
Hypothesis Hcap : nrow <= Z.of_nat n * segsz.
Hypothesis Hnrow : nrow + segsz < 2 ^ 64.

Lemma launch_keeps_inv (fuel : nat) :
forall (c : nat) (j : Joined),
joined_inv n c j ->
nrow - Z.of_nat c * segsz <= Z.of_nat fuel ->
exists c',
  joined_inv n c'
    (launch this cat td cd rhs_type frag_offsets rhs_values segsz nrow fuel
       (Z.of_nat c * segsz) (Z.of_nat c) j) /\
  nrow <= Z.of_nat c' * segsz.
Proof.
induction fuel as [|fuel IH]; intros c j Hinv Hfuel;
  [exists c; split; [done|lia]|].
cbn [launch]. destruct (Z.ltb_spec (Z.of_nat c * segsz) nrow) as [Hlt|Hge];
  [|by exists c].
destruct Hinv as (Hcn & Hres & Hlen & Hinit & Hok & Hcov & Hnull).
assert (c < n)%nat as Hc.
{ destruct (decide (c < n)%nat) as [|Hn]; [done|]. exfalso.
  assert (Z.of_nat n * segsz <= Z.of_nat c * segsz)
    by (apply Z.mul_le_mono_nonneg_r; lia). lia. }
rewrite Nat2Z.id. rewrite (Hinit c) by lia. cbn [default from_option id].
set (w0 := {| w_mem := j_mem j; w_dicts := j_dicts j;
              w_stats := updateColumn_init_stats; w_folded := [] |}).
destruct (worker cat cd rhs_type frag_offsets rhs_values (shard_ this) td
            (Z.of_nat c * segsz) segsz nrow w0) as [r w] eqn:Hw.
assert (worker_inv w) as (Hwok & Hwcov & Hwnull).
{ eapply (worker_keeps_inv cat cd rhs_type frag_offsets rhs_values); [exact Hw|].
  split; [apply stats_ok_init|]. split; [constructor|reflexivity]. }
assert (Z.of_nat (S c) * segsz >= 0) by nia.
replace (u64 (Z.of_nat c * segsz + segsz)) with (Z.of_nat (S c) * segsz)
  by (rewrite u64_small; nia).
replace (Z.of_nat c + 1) with (Z.of_nat (S c)) by lia.
apply IH; [|nia]. split_and!; cbn [j_stats j_folded j_results].
- lia.
- rewrite length_app. simpl. lia.
- by rewrite length_insert.
- intros i Hi. rewrite list_lookup_insert_ne by lia. apply Hinit. lia.
- by apply Forall_insert.
- apply Forall_app. split.
  + eapply Forall_impl; [exact Hcov|]. intros f (i & t & Hi & Hit & Hf).
    exists i, t. split; [lia|]. split; [|done].
    rewrite list_lookup_insert_ne by lia. done.
  + eapply Forall_impl; [exact Hwcov|]. intros f Hf.
    exists c, (w_stats w). split; [lia|]. split; [|done].
    apply list_lookup_insert_eq. lia.
- rewrite (existsb_has_null_insert (j_stats j) (w_stats w) updateColumn_init_stats c)
    by (try reflexivity; apply Hinit; lia).
  by rewrite folded_null_app, Hnull, Hwnull.
Qed.

End launch_invariant.

Lemma existsb_has_null_replicate (n : nat) :
  existsb has_null (replicate n updateColumn_init_stats) = false.
Proof. induction n as [|n IH]; [done|]. simpl. exact IH. Qed.

Lemma joined_inv_start (n : nat) (m : list Z) (dicts : gmap Z StringDictionary) :
  joined_inv n 0
    {| j_mem := m; j_dicts := dicts;
       j_stats := replicate n updateColumn_init_stats;
       j_results := []; j_folded := [] |}.
Proof.
  split_and!; cbn [j_stats j_folded j_results].
  - lia.
  - done.
  - apply length_replicate.
  - intros i Hi. apply lookup_replicate. split; [done|lia].
  - apply Forall_replicate, stats_ok_init.
  - constructor.
  - apply existsb_has_null_replicate.
Qed.

(** X9. With [cpu_threads()] positive, the workers of one [updateColumn]
    call leave per-thread accumulators whose reduction (lines 359-374)
    brackets every scalar any worker folded: an [int64_t] lies between
    the per-chunk [int64_t] min and max, a [double] is not below the
    per-chunk [double] min nor above the max; and the per-chunk
    [has_null] is true exactly when some worker took the [put_null]
    branch.  No more workers are launched than [cpu_threads()], so each
    has a slot of its own in the per-thread vectors, and their segments
    reach the last row. *)
Theorem run_workers_stats_cover `{TypedDataAccessors} (cpu_threads : Z)
    (this : Fragmenter) (cat : Catalog) (td : TableDescriptor)
    (cd : ColumnDescriptor) (rhs_type : SQLTypeInfo) (frag_offsets : list Z)
    (rhs_values : list ScalarTargetValue) (m : list Z)
    (dicts : gmap Z StringDictionary) :
  0 < cpu_threads ->
  2 * vsize frag_offsets + cpu_threads < 2 ^ 64 ->
  let j := run_workers cpu_threads this cat td cd rhs_type frag_offsets
             rhs_values m dicts in
  let chunk_stats := reduce_stats (j_stats j) in
  let nrow := vsize frag_offsets in
  let segsz := (nrow + cpu_threads - 1) / cpu_threads in
  Forall (covers chunk_stats) (j_folded j) /\
  has_null chunk_stats = folded_null (j_folded j) /\
  Z.of_nat (length (j_results j)) <= cpu_threads /\
  Z.of_nat (length (j_stats j)) = cpu_threads /\
  nrow <= Z.of_nat (length (j_results j)) * segsz.
Proof.
  intros Hcpu Hsize j chunk_stats nrow segsz.
  assert (0 <= nrow) as Hnrow0 by (unfold nrow, vsize; lia).
  assert (u64 cpu_threads = cpu_threads) as Hncore
    by (apply u64_small; unfold vsize in *; lia).
  assert (u64 (nrow + cpu_threads - 1) = nrow + cpu_threads - 1) as Hsum
    by (apply u64_small; unfold nrow, vsize in *; lia).
  assert (0 <= segsz) as Hseg0 by (apply Z.div_pos; lia).
  assert (nrow <= cpu_threads * segsz) as Hcap.
  { pose proof (Z.mod_pos_bound (nrow + cpu_threads - 1) cpu_threads Hcpu).
    pose proof (Z.div_mod (nrow + cpu_threads - 1) cpu_threads ltac:(lia)).
    fold segsz in H1. lia. }
  assert (segsz <= nrow + cpu_threads - 1) as Hsegle.
  { apply Z.div_le_upper_bound; [lia|]. nia. }
  set (n := Z.to_nat cpu_threads).
  assert (joined_inv n 0
            {| j_mem := m; j_dicts := dicts;
               j_stats := replicate n updateColumn_init_stats;
               j_results := []; j_folded := [] |}) as Hstart
    by apply joined_inv_start.
  assert (exists c, joined_inv n c j /\ nrow <= Z.of_nat c * segsz) as (c & Hinv & Hend).
  { unfold j, run_workers. cbv zeta. fold nrow. rewrite Hncore, Hsum. fold segsz n.
    destruct (Z.eq_dec nrow 0) as [Hz|Hnz].
    - rewrite Hz. simpl. exists 0%nat. split; [exact Hstart|lia].
    - assert (0 < segsz) as Hseg.
      { destruct (Z.eq_dec segsz 0) as [Hs|Hs]; [|lia]. exfalso.
        rewrite Hs in Hcap. lia. }
      assert (nrow <= Z.of_nat n * segsz) as Hcap' by (unfold n; lia).
      assert (nrow + segsz < 2 ^ 64) as Hfit by (unfold nrow, vsize in *; lia).
      assert (nrow - Z.of_nat 0 * segsz <= Z.of_nat (Z.to_nat nrow)) as Hfuel by lia.
      exact (launch_keeps_inv this cat td cd rhs_type frag_offsets rhs_values
               segsz nrow n Hseg Hcap' Hfit (Z.to_nat nrow) 0%nat _ Hstart Hfuel). }
  destruct (joined_inv_reduce n c j Hinv) as [Hcov Hnull].
  destruct Hinv as (Hcn & Hres & Hlen & _).
  split; [exact Hcov|]. split; [exact Hnull|].
  rewrite Hres, Hlen. unfold n. split; [lia|]. split; [lia|exact Hend].
Qed.

(** X9 on the first scenario: two rows for four threads make two
    workers of one row each; both fold 99, and the reduction brackets
    it. *)
Lemma run_workers_stats_cover_five_ints :
  let j := run_workers (H := Reference.accessors) 4 Examples.the_fragmenter
             (Examples.the_catalog DISK_LEVEL Examples.x_int)
             (Examples.table DISK_LEVEL) Examples.x_int Examples.INT [1; 3]
             [SInt64 99] (Examples.pack 4 [10; 20; 30; 40; 50]) ∅ in
  j_folded j = [FoldInt64 99; FoldInt64 99] /\
  Forall (covers (reduce_stats (j_stats j))) (j_folded j) /\
  has_null (reduce_stats (j_stats j)) = false /\
  length (j_results j) = 2%nat.
Proof.
  destruct (run_workers_stats_cover (H := Reference.accessors) 4
              Examples.the_fragmenter
              (Examples.the_catalog DISK_LEVEL Examples.x_int)
              (Examples.table DISK_LEVEL) Examples.x_int Examples.INT [1; 3]
              [SInt64 99] (Examples.pack 4 [10; 20; 30; 40; 50]) ∅)
    as (Hcov & Hnull & _).
  - lia.
  - vm_compute. reflexivity.
  - split; [vm_compute; reflexivity|]. split; [exact Hcov|].
    split; [rewrite Hnull; vm_compute; reflexivity|vm_compute; reflexivity].
Defined.
